(** * Dou Dizhu arena: the rule engine of [server/game]

    A shallow embedding of the card model ([cards.ts]), the pattern
    recogniser and comparator ([cardTypes.ts]) and the turn state machine
    ([gameEngine.ts]), followed by the properties of the engine.

    Conventions of the embedding.
    - A JavaScript [number] that only ever holds an integer is a [Z].
      The counters of the engine are such numbers; [n++] on a double is
      [n + 1] as long as [n] stays below 2^53, and a theorem that reads
      the result of [roundNumber++] says so.
    - The amount of a bid comes from outside the engine and may be any
      number, so it is a rational ([Qc]): every finite double is one, and
      [<], [<=] and [===] on doubles are exact.
    - A JavaScript string is the list of its UTF-16 code units, because
      [stringToCard] takes [str[0]] and [str.slice(1)], which cut at code
      units.
    - A [Map] keeps its keys in insertion order, so it is an association
      list ([JsMap]).
    - [Array.prototype.sort] is stable (ECMAScript 2019), so it is a
      stable insertion sort ([js_sort]).
    - Arrays of cards are never updated in place by the engine (every
      function copies first), so they are immutable lists.  The one object
      the engine does update in place is the [hands] object of a game
      state; it lives in a store and a state holds a reference to it.
    - [Math.random], [new Date()] and [nanoid()] are inputs. *)

From stdpp Require Import gmap list sorting.
From Stdlib Require Import ZArith Lia QArith Qcanon Lqa.

Local Open Scope Z_scope.

(** ** JavaScript helpers *)

Definition JsString := list N.

Section JsSort.
Context {A : Type}.

(** [insert_by cmp x l] puts [x] in front of the first element that does
    not have to come before it. *)
Fixpoint insert_by (cmp : A → A → Z) (x : A) (l : list A) : list A :=
  match l with
  | [] => [x]
  | y :: l' => if 0 <? cmp x y then y :: insert_by cmp x l' else x :: y :: l'
  end.

Definition js_sort (cmp : A → A → Z) (l : list A) : list A :=
  foldr (insert_by cmp) [] l.

(** [[a[i], a[j]] = [a[j], a[i]]]; indices outside the array do not
    occur for the callers of this file and leave the list as it is. *)
Definition swap (l : list A) (i j : nat) : list A :=
  match l !! i, l !! j with
  | Some a, Some b => <[j:=a]> (<[i:=b]> l)
  | _, _ => l
  end.
End JsSort.

Section JsMap.
Context {K V : Type} `{EqDecision K}.

Definition JsMap := list (K * V).

Fixpoint jsmap_get (m : JsMap) (k : K) : option V :=
  match m with
  | [] => None
  | (k', v) :: m' => if decide (k = k') then Some v else jsmap_get m' k
  end.

(** [m.set(k, v)]: an existing key keeps its position, a new key goes
    to the end. *)
Fixpoint jsmap_set (m : JsMap) (k : K) (v : V) : JsMap :=
  match m with
  | [] => [(k, v)]
  | (k', v') :: m' =>
      if decide (k = k') then (k, v) :: m' else (k', v') :: jsmap_set m' k v
  end.

Definition jsmap_keys (m : JsMap) : list K := m.*1.
Definition jsmap_values (m : JsMap) : list V := m.*2.
Definition jsmap_size (m : JsMap) : nat := length m.
End JsMap.

Arguments JsMap : clear implicits.

(** ** cards.ts *)

Inductive Suit := SPADE | HEART | CLUB | DIAMOND | JOKER.

Inductive Rank :=
  | THREE | FOUR | FIVE | SIX | SEVEN | EIGHT | NINE | TEN
  | JACK | QUEEN | KING | ACE | TWO | SMALL_JOKER | BIG_JOKER.

#[global] Instance Suit_eq_dec : EqDecision Suit.
Proof. solve_decision. Defined.

#[global] Instance Rank_eq_dec : EqDecision Rank.
Proof. solve_decision. Defined.

Record Card := mkCard { suit : Suit; rank : Rank; value : Z }.

#[global] Instance Card_eq_dec : EqDecision Card.
Proof. solve_decision. Defined.

(** The string values of the two enums, as UTF-16 code units. *)
Definition suit_str (s : Suit) : JsString :=
  match s with
  | SPADE => [0x2660] | HEART => [0x2665] | CLUB => [0x2663]
  | DIAMOND => [0x2666] | JOKER => [0xD83C; 0xDCCF]
  end%N.

Definition rank_str (r : Rank) : JsString :=
  match r with
  | THREE => [0x33] | FOUR => [0x34] | FIVE => [0x35] | SIX => [0x36]
  | SEVEN => [0x37] | EIGHT => [0x38] | NINE => [0x39] | TEN => [0x31; 0x30]
  | JACK => [0x4A] | QUEEN => [0x51] | KING => [0x4B] | ACE => [0x41]
  | TWO => [0x32] | SMALL_JOKER => [0x5C0F; 0x738B]
  | BIG_JOKER => [0x5927; 0x738B]
  end%N.

(** [Object.values(Suit)] and [Object.values(Rank)], in declaration order. *)
Definition Suit_values : list Suit := [SPADE; HEART; CLUB; DIAMOND; JOKER].

Definition Rank_values : list Rank :=
  [THREE; FOUR; FIVE; SIX; SEVEN; EIGHT; NINE; TEN; JACK; QUEEN; KING; ACE;
   TWO; SMALL_JOKER; BIG_JOKER].

Definition RANK_VALUES (r : Rank) : Z :=
  match r with
  | THREE => 3 | FOUR => 4 | FIVE => 5 | SIX => 6 | SEVEN => 7 | EIGHT => 8
  | NINE => 9 | TEN => 10 | JACK => 11 | QUEEN => 12 | KING => 13
  | ACE => 14 | TWO => 15 | SMALL_JOKER => 16 | BIG_JOKER => 17
  end.

Definition createDeck : list Card :=
  let suits := [SPADE; HEART; CLUB; DIAMOND] in
  let ranks := [THREE; FOUR; FIVE; SIX; SEVEN; EIGHT; NINE; TEN; JACK; QUEEN;
                KING; ACE; TWO] in
  (s ← suits; r ← ranks; [mkCard s r (RANK_VALUES r)])
  ++ [mkCard JOKER SMALL_JOKER (RANK_VALUES SMALL_JOKER)]
  ++ [mkCard JOKER BIG_JOKER (RANK_VALUES BIG_JOKER)].

(** The loop [for (i = n - 1; i > 0; i--)] of [shuffleDeck], entered with
    [i]; [rnd i] is the value of [Math.floor(Math.random() * (i + 1))]
    drawn in the iteration for index [i]. *)
Fixpoint shuffle_loop (rnd : nat → nat) (i : nat) (shuffled : list Card)
    : list Card :=
  match i with
  | O => shuffled
  | S i' => shuffle_loop rnd i' (swap shuffled i (rnd i))
  end.

Definition shuffleDeck (rnd : nat → nat) (deck : list Card) : list Card :=
  shuffle_loop rnd (length deck - 1)%nat deck.

Definition sortCards (cards : list Card) : list Card :=
  js_sort (λ a b, value a - value b) cards.

(** [a.slice(from, to)] for [0 <= from <= to]. *)
Definition slice {A} (from to : nat) (l : list A) : list A :=
  take (to - from)%nat (drop from l).

Record Dealt := mkDealt {
  deal_player0 : list Card;
  deal_player1 : list Card;
  deal_player2 : list Card;
  deal_landlordCards : list Card;
}.

Definition dealCards (rnd : nat → nat) : Dealt :=
  let deck := shuffleDeck rnd createDeck in
  {| deal_player0 := sortCards (slice 0 17 deck);
     deal_player1 := sortCards (slice 17 34 deck);
     deal_player2 := sortCards (slice 34 51 deck);
     deal_landlordCards := sortCards (slice 51 54 deck) |}.

Definition cardToString (card : Card) : JsString :=
  if decide (rank card = SMALL_JOKER ∨ rank card = BIG_JOKER)
  then rank_str (rank card)
  else suit_str (suit card) ++ rank_str (rank card).

Definition cardsToStrings (cards : list Card) : list JsString :=
  cardToString <$> cards.

Definition stringToCard (str : JsString) : option Card :=
  if decide (str = rank_str SMALL_JOKER) then
    Some (mkCard JOKER SMALL_JOKER (RANK_VALUES SMALL_JOKER))
  else if decide (str = rank_str BIG_JOKER) then
    Some (mkCard JOKER BIG_JOKER (RANK_VALUES BIG_JOKER))
  else
    (* [str[0]] is [undefined] on the empty string *)
    let suitChar : option JsString := (λ c, [c]) <$> head str in
    let rankStr : JsString := drop 1 str in
    let suit := list_find (λ s, Some (suit_str s) = suitChar) Suit_values in
    let rank := list_find (λ r, rank_str r = rankStr) Rank_values in
    match suit, rank with
    | Some (_, s), Some (_, r) => Some (mkCard s r (RANK_VALUES r))
    | _, _ => None
    end.

(** The [for ... of] loop of [stringsToCards], with [cards.push]. *)
Definition stringsToCards (strings : list JsString) : list Card :=
  foldl (λ cards str,
           match stringToCard str with
           | Some card => cards ++ [card]
           | None => cards
           end) [] strings.

Definition countCards (cards : list Card) : JsMap Z Z :=
  foldl (λ counts card,
           jsmap_set counts (value card)
             (default 0 (jsmap_get counts (value card)) + 1)) [] cards.

(** The identity string [`${c.suit}-${c.rank}`].  Whether two of them are
    equal is all the code looks at, and that is decided by the pair. *)
Definition cardId (c : Card) : Suit * Rank := (suit c, rank c).

Definition idCounts (ids : list (Suit * Rank)) : JsMap (Suit * Rank) Z :=
  foldl (λ counts id, jsmap_set counts id (default 0 (jsmap_get counts id) + 1))
        [] ids.

Definition hasCards (hand cards : list Card) : bool :=
  let handCounts := idCounts (cardId <$> hand) in
  let cardCounts := idCounts (cardId <$> cards) in
  forallb (λ '(cardId, needCount),
             let haveCount := default 0 (jsmap_get handCounts cardId) in
             negb (haveCount <? needCount))
          cardCounts.

(** The inner loop of [removeCards]: walk from the last index down and
    splice out matching cards until [count] of them are gone.  The list is
    handled in reverse, so the walk goes front to back. *)
Fixpoint remove_from_end_rev (cardId0 : Suit * Rank) (count removed : Z)
    (rev_result : list Card) : list Card :=
  match rev_result with
  | [] => []
  | c :: rest =>
      if removed <? count then
        if decide (cardId c = cardId0)
        then remove_from_end_rev cardId0 count (removed + 1) rest
        else c :: remove_from_end_rev cardId0 count removed rest
      else c :: rest
  end.

Definition removeCards (hand cards : list Card) : list Card :=
  let cardCounts := idCounts (cardId <$> cards) in
  foldl (λ result '(cardId0, count),
           reverse (remove_from_end_rev cardId0 count 0 (reverse result)))
        hand cardCounts.

(** ** cardTypes.ts *)

Inductive CardType :=
  | INVALID | SINGLE | PAIR | TRIO | TRIO_SINGLE | TRIO_PAIR | STRAIGHT
  | PAIR_STRAIGHT | TRIO_STRAIGHT | TRIO_STRAIGHT_SINGLE | TRIO_STRAIGHT_PAIR
  | FOUR_DUAL_SINGLE | FOUR_DUAL_PAIR | BOMB | ROCKET.

#[global] Instance CardType_eq_dec : EqDecision CardType.
Proof. solve_decision. Defined.

Record CardPattern := mkPattern {
  pat_type : CardType;
  pat_value : Z;
  pat_length : Z;
  pat_cards : list Card;
}.

#[global] Instance CardPattern_eq_dec : EqDecision CardPattern.
Proof. solve_decision. Defined.

(** [a[0]!] on an array of numbers; every use below is guarded by a size
    test that makes the index valid. *)
Definition first (a : list Z) : Z := default 0 (head a).

(** The loop [for (i = 1; i < a.length; i++) if (a[i] - a[i-1] !== 1)
    return null]: [true] when it runs to its end. *)
Fixpoint consecutive (a : list Z) : bool :=
  match a with
  | x :: (y :: _) as a' => bool_decide (y - x = 1) && consecutive a'
  | _ => true
  end.

(** The loop [for (value of uniqueValues) if (counts.get(value) !== n)
    return null]: [true] when it runs to its end. *)
Definition all_counts (n : Z) (uniqueValues : list Z) (counts : JsMap Z Z)
    : bool :=
  forallb (λ v, bool_decide (jsmap_get counts v = Some n)) uniqueValues.

Definition some_ge_15 (vs : list Z) : bool := existsb (λ v, 15 <=? v) vs.

Definition sort_desc (a : list Z) : list Z := js_sort (λ a b, b - a) a.
Definition sort_asc (a : list Z) : list Z := js_sort (λ a b, a - b) a.

Definition isRocket (cards : list Card) (counts : JsMap Z Z) : bool :=
  match cards with
  | [c0; c1] =>
      bool_decide (rank c0 = SMALL_JOKER) && bool_decide (rank c1 = BIG_JOKER)
  | _ => false
  end.

Definition isBomb (counts : JsMap Z Z) : bool :=
  if decide (jsmap_size counts ≠ 1%nat) then false
  else bool_decide (head (jsmap_values counts) = Some 4).

Definition isPair (counts : JsMap Z Z) : bool :=
  if decide (jsmap_size counts ≠ 1%nat) then false
  else bool_decide (head (jsmap_values counts) = Some 2).

Definition isTrio (counts : JsMap Z Z) : bool :=
  if decide (jsmap_size counts ≠ 1%nat) then false
  else bool_decide (head (jsmap_values counts) = Some 3).

Definition isTrioSingle (counts : JsMap Z Z) : bool :=
  if decide (jsmap_size counts ≠ 2%nat) then false
  else
    let countValues := sort_desc (jsmap_values counts) in
    bool_decide (countValues !! 0%nat = Some 3)
    && bool_decide (countValues !! 1%nat = Some 1).

Definition isTrioPair (counts : JsMap Z Z) : bool :=
  if decide (jsmap_size counts ≠ 2%nat) then false
  else
    let countValues := sort_desc (jsmap_values counts) in
    bool_decide (countValues !! 0%nat = Some 3)
    && bool_decide (countValues !! 1%nat = Some 2).

(** [for (value of counts.keys()) if (counts.get(value) === n) return
    value; return 0]. *)
Definition find_count (n : Z) (counts : JsMap Z Z) : Z :=
  default 0 (snd <$> list_find (λ v, jsmap_get counts v = Some n)
                               (jsmap_keys counts)).

Definition findTrioValue (counts : JsMap Z Z) : Z := find_count 3 counts.
Definition findFourValue (counts : JsMap Z Z) : Z := find_count 4 counts.

(** The three run recognisers return [{ minValue, length }] or [null]. *)
Definition isStraight (uniqueValues : list Z) (counts : JsMap Z Z)
    : option (Z * Z) :=
  if decide (length uniqueValues < 5)%nat then None
  else if some_ge_15 uniqueValues then None
  else if negb (all_counts 1 uniqueValues counts) then None
  else if negb (consecutive uniqueValues) then None
  else Some (first uniqueValues, Z.of_nat (length uniqueValues)).

Definition isPairStraight (uniqueValues : list Z) (counts : JsMap Z Z)
    : option (Z * Z) :=
  if decide (length uniqueValues < 3)%nat then None
  else if some_ge_15 uniqueValues then None
  else if negb (all_counts 2 uniqueValues counts) then None
  else if negb (consecutive uniqueValues) then None
  else Some (first uniqueValues, Z.of_nat (length uniqueValues)).

Definition isTrioStraight (uniqueValues : list Z) (counts : JsMap Z Z)
    : option (Z * Z) :=
  if decide (length uniqueValues < 2)%nat then None
  else if some_ge_15 uniqueValues then None
  else if negb (all_counts 3 uniqueValues counts) then None
  else if negb (consecutive uniqueValues) then None
  else Some (first uniqueValues, Z.of_nat (length uniqueValues)).

(** The first loop of the two winged-airplane recognisers: trios go to one
    array, groups of [wing] cards to the other, any other group size gives
    [null]. *)
Fixpoint split_trios (wing : Z) (uniqueValues : list Z) (counts : JsMap Z Z)
    (trioValues wingValues : list Z) : option (list Z * list Z) :=
  match uniqueValues with
  | [] => Some (trioValues, wingValues)
  | v :: rest =>
      let count := jsmap_get counts v in
      if decide (count = Some 3) then
        split_trios wing rest counts (trioValues ++ [v]) wingValues
      else if decide (count = Some wing) then
        split_trios wing rest counts trioValues (wingValues ++ [v])
      else None
  end.

Definition airplane_with (wing : Z) (uniqueValues : list Z)
    (counts : JsMap Z Z) : option (Z * Z) :=
  match split_trios wing uniqueValues counts [] [] with
  | None => None
  | Some (trioValues, wingValues) =>
      if decide (length trioValues < 2)%nat then None
      else if decide (length wingValues ≠ length trioValues) then None
      else if some_ge_15 trioValues then None
      else
        let trioValues := sort_asc trioValues in
        if negb (consecutive trioValues) then None
        else Some (first trioValues, Z.of_nat (length trioValues))
  end.

Definition isTrioStraightSingle := airplane_with 1.
Definition isTrioStraightPair := airplane_with 2.

Definition isFourDualSingle (counts : JsMap Z Z) : bool :=
  if decide (jsmap_size counts ≠ 3%nat) then false
  else
    let countValues := sort_desc (jsmap_values counts) in
    bool_decide (countValues !! 0%nat = Some 4)
    && bool_decide (countValues !! 1%nat = Some 1)
    && bool_decide (countValues !! 2%nat = Some 1).

Definition isFourDualPair (counts : JsMap Z Z) : bool :=
  if decide (jsmap_size counts ≠ 3%nat) then false
  else
    let countValues := sort_desc (jsmap_values counts) in
    bool_decide (countValues !! 0%nat = Some 4)
    && bool_decide (countValues !! 1%nat = Some 2)
    && bool_decide (countValues !! 2%nat = Some 2).

Definition run_pattern (t : CardType) (r : Z * Z) (sorted : list Card)
    : CardPattern :=
  mkPattern t r.1 r.2 sorted.

Definition recognizePattern (cards : list Card) : CardPattern :=
  if decide (length cards = 0%nat) then mkPattern INVALID 0 0 cards
  else
    let sorted := sortCards cards in
    let counts := countCards sorted in
    let uniqueValues := sort_asc (jsmap_keys counts) in
    if isRocket sorted counts then mkPattern ROCKET 17 2 sorted
    else if isBomb counts then mkPattern BOMB (first uniqueValues) 4 sorted
    else if decide (length cards = 1%nat) then
      mkPattern SINGLE (default 0 (value <$> head cards)) 1 sorted
    else if isPair counts then mkPattern PAIR (first uniqueValues) 2 sorted
    else if isTrio counts then mkPattern TRIO (first uniqueValues) 3 sorted
    else if isTrioSingle counts then
      mkPattern TRIO_SINGLE (findTrioValue counts) 4 sorted
    else if isTrioPair counts then
      mkPattern TRIO_PAIR (findTrioValue counts) 5 sorted
    else match isStraight uniqueValues counts with
    | Some r => run_pattern STRAIGHT r sorted
    | None =>
    match isPairStraight uniqueValues counts with
    | Some r => run_pattern PAIR_STRAIGHT r sorted
    | None =>
    match isTrioStraight uniqueValues counts with
    | Some r => run_pattern TRIO_STRAIGHT r sorted
    | None =>
    match isTrioStraightSingle uniqueValues counts with
    | Some r => run_pattern TRIO_STRAIGHT_SINGLE r sorted
    | None =>
    match isTrioStraightPair uniqueValues counts with
    | Some r => run_pattern TRIO_STRAIGHT_PAIR r sorted
    | None =>
      if isFourDualSingle counts then
        mkPattern FOUR_DUAL_SINGLE (findFourValue counts) 6 sorted
      else if isFourDualPair counts then
        mkPattern FOUR_DUAL_PAIR (findFourValue counts) 8 sorted
      else mkPattern INVALID 0 0 sorted
    end end end end end.

(** [comparePatterns] returns [1], [0], [-1] or [null]. *)
Definition compare_values (v1 v2 : Z) : Z :=
  if v2 <? v1 then 1 else if v1 <? v2 then -1 else 0.

Definition variable_length (t : CardType) : bool :=
  match t with
  | STRAIGHT | PAIR_STRAIGHT | TRIO_STRAIGHT | TRIO_STRAIGHT_SINGLE
  | TRIO_STRAIGHT_PAIR => true
  | _ => false
  end.

Definition comparePatterns (pattern1 pattern2 : CardPattern) : option Z :=
  if decide (pat_type pattern1 = ROCKET) then Some 1
  else if decide (pat_type pattern2 = ROCKET) then Some (-1)
  else if decide (pat_type pattern1 = BOMB ∧ pat_type pattern2 ≠ BOMB)
  then Some 1
  else if decide (pat_type pattern2 = BOMB ∧ pat_type pattern1 ≠ BOMB)
  then Some (-1)
  else if decide (pat_type pattern1 = BOMB ∧ pat_type pattern2 = BOMB)
  then Some (compare_values (pat_value pattern1) (pat_value pattern2))
  else if decide (pat_type pattern1 ≠ pat_type pattern2) then None
  else if variable_length (pat_type pattern1)
          && bool_decide (pat_length pattern1 ≠ pat_length pattern2)
  then None
  else Some (compare_values (pat_value pattern1) (pat_value pattern2)).

Definition canBeat (pattern1 pattern2 : CardPattern) : bool :=
  bool_decide (comparePatterns pattern1 pattern2 = Some 1).

(** ** gameEngine.ts *)

Inductive GamePhase := BIDDING | PLAYING | FINISHED.

Inductive PlayerPosition := P0 | P1 | P2.

#[global] Instance GamePhase_eq_dec : EqDecision GamePhase.
Proof. solve_decision. Defined.

#[global] Instance PlayerPosition_eq_dec : EqDecision PlayerPosition.
Proof. solve_decision. Defined.

Definition position_number (p : PlayerPosition) : Z :=
  match p with P0 => 0 | P1 => 1 | P2 => 2 end.

(** [((currentPlayer + 1) % 3) as PlayerPosition]; [null + 1] is [1] in
    JavaScript. *)
Definition next_position (p : option PlayerPosition) : PlayerPosition :=
  let n := (default 0 (position_number <$> p) + 1) `mod` 3 in
  if decide (n = 0) then P0 else if decide (n = 1) then P1 else P2.

Inductive BidKind := Bid | PassBid.
Inductive PlayKind := Play | PassPlay.

(** [amount] is [None] when the field holds no number ([undefined],
    [null] or [NaN], which the test [!action.amount] treats alike).  An
    infinite amount fails the range test of a bid like a finite amount
    outside [1, 3] and is not told apart from one. *)
Record BidAction := mkBidAction { bid_type : BidKind; amount : option Qc }.

Record PlayAction := mkPlayAction {
  play_type : PlayKind;
  cards : option (list Card);
}.

Inductive ActionType := A_bid | A_pass_bid | A_play | A_pass_play.
Inductive WinnerType := Landlord | Farmer.

Record GameAction := mkGameAction {
  ga_roundNumber : Z;
  ga_playerPosition : option PlayerPosition;
  ga_actionType : ActionType;
  ga_cards : option (list JsString);
  ga_cardType : option CardType;
  ga_bidAmount : option Qc;
  ga_timestamp : Z;
}.

(** The object [state.hands].  States refer to it by its address: the
    spread [{ ...state }] copies the reference, not the object. *)
Record Hands := mkHands {
  player0 : list Card;
  player1 : list Card;
  player2 : list Card;
}.

#[global] Instance Hands_inhabited : Inhabited Hands :=
  populate (mkHands [] [] []).

Definition loc := positive.

(** [currentPlayer] is declared a [PlayerPosition], but the trick-closing
    pass stores [state.lastPlayer!] in it, and the assertion [!] is erased
    at run time: the field can hold [null]. *)
Record GameState := mkGameState {
  gameId : JsString;
  phase : GamePhase;
  player0ModelId : Z;
  player1ModelId : Z;
  player2ModelId : Z;
  hands : loc;
  landlordCards : list Card;
  currentBidder : PlayerPosition;
  highestBid : Qc;
  highestBidder : option PlayerPosition;
  passCount : Z;
  landlordPosition : option PlayerPosition;
  currentPlayer : option PlayerPosition;
  lastPlayedCards : option (list Card);
  lastPlayedPattern : option CardPattern;
  lastPlayer : option PlayerPosition;
  consecutivePasses : Z;
  roundNumber : Z;
  history : list GameAction;
  winner : option PlayerPosition;
  winnerType : option WinnerType;
  startedAt : Z;
  finishedAt : option Z;
}.

(** Assignments to one field of a fresh copy, [newState.f = v]. *)
Definition set_phase (v : GamePhase) (s : GameState) : GameState :=
  {| gameId := gameId s; phase := v; player0ModelId := player0ModelId s;
     player1ModelId := player1ModelId s; player2ModelId := player2ModelId
     s; hands := hands s; landlordCards := landlordCards s; currentBidder
     := currentBidder s; highestBid := highestBid s; highestBidder :=
     highestBidder s; passCount := passCount s; landlordPosition :=
     landlordPosition s; currentPlayer := currentPlayer s; lastPlayedCards
     := lastPlayedCards s; lastPlayedPattern := lastPlayedPattern s;
     lastPlayer := lastPlayer s; consecutivePasses := consecutivePasses s;
     roundNumber := roundNumber s; history := history s; winner := winner
     s; winnerType := winnerType s; startedAt := startedAt s; finishedAt
     := finishedAt s |}.

Definition set_highestBid (v : Qc) (s : GameState) : GameState :=
  {| gameId := gameId s; phase := phase s; player0ModelId :=
     player0ModelId s; player1ModelId := player1ModelId s; player2ModelId
     := player2ModelId s; hands := hands s; landlordCards := landlordCards
     s; currentBidder := currentBidder s; highestBid := v; highestBidder
     := highestBidder s; passCount := passCount s; landlordPosition :=
     landlordPosition s; currentPlayer := currentPlayer s; lastPlayedCards
     := lastPlayedCards s; lastPlayedPattern := lastPlayedPattern s;
     lastPlayer := lastPlayer s; consecutivePasses := consecutivePasses s;
     roundNumber := roundNumber s; history := history s; winner := winner
     s; winnerType := winnerType s; startedAt := startedAt s; finishedAt
     := finishedAt s |}.

Definition set_highestBidder (v : option PlayerPosition) (s : GameState) : GameState :=
  {| gameId := gameId s; phase := phase s; player0ModelId :=
     player0ModelId s; player1ModelId := player1ModelId s; player2ModelId
     := player2ModelId s; hands := hands s; landlordCards := landlordCards
     s; currentBidder := currentBidder s; highestBid := highestBid s;
     highestBidder := v; passCount := passCount s; landlordPosition :=
     landlordPosition s; currentPlayer := currentPlayer s; lastPlayedCards
     := lastPlayedCards s; lastPlayedPattern := lastPlayedPattern s;
     lastPlayer := lastPlayer s; consecutivePasses := consecutivePasses s;
     roundNumber := roundNumber s; history := history s; winner := winner
     s; winnerType := winnerType s; startedAt := startedAt s; finishedAt
     := finishedAt s |}.

Definition set_passCount (v : Z) (s : GameState) : GameState :=
  {| gameId := gameId s; phase := phase s; player0ModelId :=
     player0ModelId s; player1ModelId := player1ModelId s; player2ModelId
     := player2ModelId s; hands := hands s; landlordCards := landlordCards
     s; currentBidder := currentBidder s; highestBid := highestBid s;
     highestBidder := highestBidder s; passCount := v; landlordPosition :=
     landlordPosition s; currentPlayer := currentPlayer s; lastPlayedCards
     := lastPlayedCards s; lastPlayedPattern := lastPlayedPattern s;
     lastPlayer := lastPlayer s; consecutivePasses := consecutivePasses s;
     roundNumber := roundNumber s; history := history s; winner := winner
     s; winnerType := winnerType s; startedAt := startedAt s; finishedAt
     := finishedAt s |}.

Definition set_currentBidder (v : PlayerPosition) (s : GameState) : GameState :=
  {| gameId := gameId s; phase := phase s; player0ModelId :=
     player0ModelId s; player1ModelId := player1ModelId s; player2ModelId
     := player2ModelId s; hands := hands s; landlordCards := landlordCards
     s; currentBidder := v; highestBid := highestBid s; highestBidder :=
     highestBidder s; passCount := passCount s; landlordPosition :=
     landlordPosition s; currentPlayer := currentPlayer s; lastPlayedCards
     := lastPlayedCards s; lastPlayedPattern := lastPlayedPattern s;
     lastPlayer := lastPlayer s; consecutivePasses := consecutivePasses s;
     roundNumber := roundNumber s; history := history s; winner := winner
     s; winnerType := winnerType s; startedAt := startedAt s; finishedAt
     := finishedAt s |}.

Definition set_landlordPosition (v : option PlayerPosition) (s : GameState) : GameState :=
  {| gameId := gameId s; phase := phase s; player0ModelId :=
     player0ModelId s; player1ModelId := player1ModelId s; player2ModelId
     := player2ModelId s; hands := hands s; landlordCards := landlordCards
     s; currentBidder := currentBidder s; highestBid := highestBid s;
     highestBidder := highestBidder s; passCount := passCount s;
     landlordPosition := v; currentPlayer := currentPlayer s;
     lastPlayedCards := lastPlayedCards s; lastPlayedPattern :=
     lastPlayedPattern s; lastPlayer := lastPlayer s; consecutivePasses :=
     consecutivePasses s; roundNumber := roundNumber s; history := history
     s; winner := winner s; winnerType := winnerType s; startedAt :=
     startedAt s; finishedAt := finishedAt s |}.

Definition set_currentPlayer (v : option PlayerPosition) (s : GameState) : GameState :=
  {| gameId := gameId s; phase := phase s; player0ModelId :=
     player0ModelId s; player1ModelId := player1ModelId s; player2ModelId
     := player2ModelId s; hands := hands s; landlordCards := landlordCards
     s; currentBidder := currentBidder s; highestBid := highestBid s;
     highestBidder := highestBidder s; passCount := passCount s;
     landlordPosition := landlordPosition s; currentPlayer := v;
     lastPlayedCards := lastPlayedCards s; lastPlayedPattern :=
     lastPlayedPattern s; lastPlayer := lastPlayer s; consecutivePasses :=
     consecutivePasses s; roundNumber := roundNumber s; history := history
     s; winner := winner s; winnerType := winnerType s; startedAt :=
     startedAt s; finishedAt := finishedAt s |}.

Definition set_lastPlayedCards (v : option (list Card)) (s : GameState) : GameState :=
  {| gameId := gameId s; phase := phase s; player0ModelId :=
     player0ModelId s; player1ModelId := player1ModelId s; player2ModelId
     := player2ModelId s; hands := hands s; landlordCards := landlordCards
     s; currentBidder := currentBidder s; highestBid := highestBid s;
     highestBidder := highestBidder s; passCount := passCount s;
     landlordPosition := landlordPosition s; currentPlayer :=
     currentPlayer s; lastPlayedCards := v; lastPlayedPattern :=
     lastPlayedPattern s; lastPlayer := lastPlayer s; consecutivePasses :=
     consecutivePasses s; roundNumber := roundNumber s; history := history
     s; winner := winner s; winnerType := winnerType s; startedAt :=
     startedAt s; finishedAt := finishedAt s |}.

Definition set_lastPlayedPattern (v : option CardPattern) (s : GameState) : GameState :=
  {| gameId := gameId s; phase := phase s; player0ModelId :=
     player0ModelId s; player1ModelId := player1ModelId s; player2ModelId
     := player2ModelId s; hands := hands s; landlordCards := landlordCards
     s; currentBidder := currentBidder s; highestBid := highestBid s;
     highestBidder := highestBidder s; passCount := passCount s;
     landlordPosition := landlordPosition s; currentPlayer :=
     currentPlayer s; lastPlayedCards := lastPlayedCards s;
     lastPlayedPattern := v; lastPlayer := lastPlayer s; consecutivePasses
     := consecutivePasses s; roundNumber := roundNumber s; history :=
     history s; winner := winner s; winnerType := winnerType s; startedAt
     := startedAt s; finishedAt := finishedAt s |}.

Definition set_lastPlayer (v : option PlayerPosition) (s : GameState) : GameState :=
  {| gameId := gameId s; phase := phase s; player0ModelId :=
     player0ModelId s; player1ModelId := player1ModelId s; player2ModelId
     := player2ModelId s; hands := hands s; landlordCards := landlordCards
     s; currentBidder := currentBidder s; highestBid := highestBid s;
     highestBidder := highestBidder s; passCount := passCount s;
     landlordPosition := landlordPosition s; currentPlayer :=
     currentPlayer s; lastPlayedCards := lastPlayedCards s;
     lastPlayedPattern := lastPlayedPattern s; lastPlayer := v;
     consecutivePasses := consecutivePasses s; roundNumber := roundNumber
     s; history := history s; winner := winner s; winnerType := winnerType
     s; startedAt := startedAt s; finishedAt := finishedAt s |}.

Definition set_consecutivePasses (v : Z) (s : GameState) : GameState :=
  {| gameId := gameId s; phase := phase s; player0ModelId :=
     player0ModelId s; player1ModelId := player1ModelId s; player2ModelId
     := player2ModelId s; hands := hands s; landlordCards := landlordCards
     s; currentBidder := currentBidder s; highestBid := highestBid s;
     highestBidder := highestBidder s; passCount := passCount s;
     landlordPosition := landlordPosition s; currentPlayer :=
     currentPlayer s; lastPlayedCards := lastPlayedCards s;
     lastPlayedPattern := lastPlayedPattern s; lastPlayer := lastPlayer s;
     consecutivePasses := v; roundNumber := roundNumber s; history :=
     history s; winner := winner s; winnerType := winnerType s; startedAt
     := startedAt s; finishedAt := finishedAt s |}.

Definition set_roundNumber (v : Z) (s : GameState) : GameState :=
  {| gameId := gameId s; phase := phase s; player0ModelId :=
     player0ModelId s; player1ModelId := player1ModelId s; player2ModelId
     := player2ModelId s; hands := hands s; landlordCards := landlordCards
     s; currentBidder := currentBidder s; highestBid := highestBid s;
     highestBidder := highestBidder s; passCount := passCount s;
     landlordPosition := landlordPosition s; currentPlayer :=
     currentPlayer s; lastPlayedCards := lastPlayedCards s;
     lastPlayedPattern := lastPlayedPattern s; lastPlayer := lastPlayer s;
     consecutivePasses := consecutivePasses s; roundNumber := v; history
     := history s; winner := winner s; winnerType := winnerType s;
     startedAt := startedAt s; finishedAt := finishedAt s |}.

Definition set_history (v : list GameAction) (s : GameState) : GameState :=
  {| gameId := gameId s; phase := phase s; player0ModelId :=
     player0ModelId s; player1ModelId := player1ModelId s; player2ModelId
     := player2ModelId s; hands := hands s; landlordCards := landlordCards
     s; currentBidder := currentBidder s; highestBid := highestBid s;
     highestBidder := highestBidder s; passCount := passCount s;
     landlordPosition := landlordPosition s; currentPlayer :=
     currentPlayer s; lastPlayedCards := lastPlayedCards s;
     lastPlayedPattern := lastPlayedPattern s; lastPlayer := lastPlayer s;
     consecutivePasses := consecutivePasses s; roundNumber := roundNumber
     s; history := v; winner := winner s; winnerType := winnerType s;
     startedAt := startedAt s; finishedAt := finishedAt s |}.

Definition set_winner (v : option PlayerPosition) (s : GameState) : GameState :=
  {| gameId := gameId s; phase := phase s; player0ModelId :=
     player0ModelId s; player1ModelId := player1ModelId s; player2ModelId
     := player2ModelId s; hands := hands s; landlordCards := landlordCards
     s; currentBidder := currentBidder s; highestBid := highestBid s;
     highestBidder := highestBidder s; passCount := passCount s;
     landlordPosition := landlordPosition s; currentPlayer :=
     currentPlayer s; lastPlayedCards := lastPlayedCards s;
     lastPlayedPattern := lastPlayedPattern s; lastPlayer := lastPlayer s;
     consecutivePasses := consecutivePasses s; roundNumber := roundNumber
     s; history := history s; winner := v; winnerType := winnerType s;
     startedAt := startedAt s; finishedAt := finishedAt s |}.

Definition set_winnerType (v : option WinnerType) (s : GameState) : GameState :=
  {| gameId := gameId s; phase := phase s; player0ModelId :=
     player0ModelId s; player1ModelId := player1ModelId s; player2ModelId
     := player2ModelId s; hands := hands s; landlordCards := landlordCards
     s; currentBidder := currentBidder s; highestBid := highestBid s;
     highestBidder := highestBidder s; passCount := passCount s;
     landlordPosition := landlordPosition s; currentPlayer :=
     currentPlayer s; lastPlayedCards := lastPlayedCards s;
     lastPlayedPattern := lastPlayedPattern s; lastPlayer := lastPlayer s;
     consecutivePasses := consecutivePasses s; roundNumber := roundNumber
     s; history := history s; winner := winner s; winnerType := v;
     startedAt := startedAt s; finishedAt := finishedAt s |}.

Definition set_finishedAt (v : option Z) (s : GameState) : GameState :=
  {| gameId := gameId s; phase := phase s; player0ModelId :=
     player0ModelId s; player1ModelId := player1ModelId s; player2ModelId
     := player2ModelId s; hands := hands s; landlordCards := landlordCards
     s; currentBidder := currentBidder s; highestBid := highestBid s;
     highestBidder := highestBidder s; passCount := passCount s;
     landlordPosition := landlordPosition s; currentPlayer :=
     currentPlayer s; lastPlayedCards := lastPlayedCards s;
     lastPlayedPattern := lastPlayedPattern s; lastPlayer := lastPlayer s;
     consecutivePasses := consecutivePasses s; roundNumber := roundNumber
     s; history := history s; winner := winner s; winnerType := winnerType
     s; startedAt := startedAt s; finishedAt := v |}.

(** *** The engine monad: a store of [hands] objects, and exceptions

    A [throw] keeps whatever the store holds at that point, so an update
    made before an exception stays visible to the caller. *)

Inductive EngineError :=
  | NotInBiddingPhase      (* "Not in bidding phase" *)
  | InvalidBidAmount       (* "Invalid bid amount" *)
  | BidTooLow              (* "Bid amount must be higher than ..." *)
  | NoBidderFound          (* "No bidder found" *)
  | NotInPlayingPhase      (* "Not in playing phase" *)
  | NoCardsProvided        (* "No cards provided" *)
  | CardsNotInHand         (* "Player does not have these cards" *)
  | InvalidCardPattern     (* "Invalid card pattern" *)
  | CannotBeat             (* "Cannot beat last played cards. ..." *)
  | CannotPassAsLeader     (* "Cannot pass when you are the first player" *)
  | JsTypeError.           (* a property read on [undefined] *)

Abbreviation Store := (gmap loc Hands).

Definition Engine (A : Type) : Type := Store → (EngineError + A) * Store.

#[global] Instance Engine_ret : MRet Engine := λ A a σ, (inr a, σ).

#[global] Instance Engine_bind : MBind Engine := λ A B f m σ,
  match m σ with
  | (inl e, σ') => (inl e, σ')
  | (inr a, σ') => f a σ'
  end.

Definition throw {A} (e : EngineError) : Engine A := λ σ, (inl e, σ).

Definition read_store : Engine Store := λ σ, (inr σ, σ).

Definition getPlayerHand (σ : Store) (state : GameState)
    (position : PlayerPosition) : list Card :=
  let h := σ !!! hands state in
  match position with
  | P0 => player0 h
  | P1 => player1 h
  | P2 => player2 h
  end.

Definition set_hand (position : PlayerPosition) (hand : list Card)
    (h : Hands) : Hands :=
  match position with
  | P0 => mkHands hand (player1 h) (player2 h)
  | P1 => mkHands (player0 h) hand (player2 h)
  | P2 => mkHands (player0 h) (player1 h) hand
  end.

(** [state.hands.playerN = hand]: an update in place of the object that
    [state.hands] refers to. *)
Definition setPlayerHand (state : GameState) (position : PlayerPosition)
    (hand : list Card) : Engine unit := λ σ,
  (inr (), <[hands state := set_hand position hand (σ !!! hands state)]> σ).

Definition getPlayerModelId (state : GameState) (position : PlayerPosition)
    : Z :=
  match position with
  | P0 => player0ModelId state
  | P1 => player1ModelId state
  | P2 => player2ModelId state
  end.

(** [createGame]: the object literal for [hands] is a new object. *)
Definition createGame (rnd : nat → nat) (id : JsString) (now : Z)
    (player0ModelId player1ModelId player2ModelId : Z) : Engine GameState :=
  λ σ,
  let dealt := dealCards rnd in
  let l := fresh (dom σ) in
  (inr {| gameId := id; phase := BIDDING;
          player0ModelId := player0ModelId;
          player1ModelId := player1ModelId;
          player2ModelId := player2ModelId;
          hands := l;
          landlordCards := deal_landlordCards dealt;
          currentBidder := P0; highestBid := Qc_of_Z 0;
          highestBidder := None;
          passCount := 0;
          landlordPosition := None; currentPlayer := Some P0;
          lastPlayedCards := None; lastPlayedPattern := None;
          lastPlayer := None; consecutivePasses := 0;
          roundNumber := 0; history := [];
          winner := None; winnerType := None;
          startedAt := now; finishedAt := None |},
   <[l := mkHands (deal_player0 dealt) (deal_player1 dealt)
                  (deal_player2 dealt)]> σ).

Definition finalizeLandlord (state : GameState) : Engine GameState :=
  match highestBidder state with
  | None => throw NoBidderFound
  | Some bidder =>
      let newState := state in
      let newState := set_landlordPosition (Some bidder) newState in
      let newState := set_phase PLAYING newState in
      let newState := set_currentPlayer (Some bidder) newState in
      σ ← read_store;
      let landlordHand := getPlayerHand σ newState bidder in
      let updatedHand := sortCards (landlordHand ++ landlordCards state) in
      _ ← setPlayerHand newState bidder updatedHand;
      mret newState
  end.

(** The common tail of [processBidAction]: the turn moves on.
    [roundNumber++] is exact below 2^53 (see the conventions). *)
Definition next_bidder (currentPlayer : PlayerPosition)
    (newState : GameState) : GameState :=
  let newState := set_currentBidder (next_position (Some currentPlayer))
                    newState in
  set_roundNumber (roundNumber newState + 1) newState.

Definition processBidAction (now : Z) (state : GameState)
    (action : BidAction) : Engine GameState :=
  if decide (phase state ≠ BIDDING) then throw NotInBiddingPhase
  else
    let newState := state in
    let currentPlayer := currentBidder state in
    let gameAction :=
      {| ga_roundNumber := roundNumber state;
         ga_playerPosition := Some currentPlayer;
         ga_actionType :=
           match bid_type action with Bid => A_bid | PassBid => A_pass_bid end;
         ga_cards := None; ga_cardType := None;
         ga_bidAmount := amount action;
         ga_timestamp := now |} in
    let newState := set_history (history state ++ [gameAction]) newState in
    match bid_type action with
    | Bid =>
        match amount action with
        | None => throw InvalidBidAmount
        | Some amt =>
            if decide (amt = Qc_of_Z 0 ∨ (amt < Qc_of_Z 1)%Qc
                       ∨ (Qc_of_Z 3 < amt)%Qc) then
              throw InvalidBidAmount
            else if decide ((amt ≤ highestBid state)%Qc) then
              throw BidTooLow
            else
              let newState := set_highestBid amt newState in
              let newState := set_highestBidder (Some currentPlayer)
                                newState in
              let newState := set_passCount 0 newState in
              if decide (amt = Qc_of_Z 3) then finalizeLandlord newState
              else mret (next_bidder currentPlayer newState)
        end
    | PassBid =>
        let newState := set_passCount (passCount newState + 1) newState in
        if decide (passCount newState = 3 ∧ highestBidder newState = None)
        then
          let newState := set_highestBid (Qc_of_Z 1) newState in
          let newState := set_highestBidder (Some P0) newState in
          finalizeLandlord newState
        else if decide (highestBidder newState ≠ None
                        ∧ passCount newState = 2)
        then finalizeLandlord newState
        else mret (next_bidder currentPlayer newState)
    end.

Definition finishGame (now : Z) (state : GameState)
    (winner : PlayerPosition) : GameState :=
  let newState := state in
  let newState := set_phase FINISHED newState in
  let newState := set_winner (Some winner) newState in
  let newState :=
    set_winnerType
      (Some (if decide (Some winner = landlordPosition state)
             then Landlord else Farmer)) newState in
  set_finishedAt (Some now) newState.

(** The common tail of [processPlayAction]: the turn moves on.
    [roundNumber++] is exact below 2^53 (see the conventions). *)
Definition next_player (currentPlayer : option PlayerPosition)
    (newState : GameState) : GameState :=
  let newState := set_currentPlayer (Some (next_position currentPlayer))
                    newState in
  set_roundNumber (roundNumber newState + 1) newState.

(** The play branch of [processPlayAction] once its tests have passed:
    the cards leave the hand, the play goes on the table and into the
    history, and the game ends when the hand is empty.  [now] stands for
    the [new Date()] of the history record and, in a winning play, also
    for the one [finishGame] takes in the same call. *)
Definition play_accepted (now : Z) (state newState : GameState)
    (position : PlayerPosition) (hand action_cards : list Card)
    (pattern : CardPattern) : Engine GameState :=
  let currentPlayer := Some position in
  let newHand := removeCards hand action_cards in
  _ ← setPlayerHand newState position newHand;
  let newState := set_lastPlayedCards (Some action_cards) newState in
  let newState := set_lastPlayedPattern (Some pattern) newState in
  let newState := set_lastPlayer currentPlayer newState in
  let newState := set_consecutivePasses 0 newState in
  let gameAction :=
    {| ga_roundNumber := roundNumber state;
       ga_playerPosition := currentPlayer;
       ga_actionType := A_play;
       ga_cards := Some (cardsToStrings action_cards);
       ga_cardType := Some (pat_type pattern);
       ga_bidAmount := None;
       ga_timestamp := now |} in
  let newState := set_history (history state ++ [gameAction]) newState in
  if decide (length newHand = 0%nat) then
    mret (finishGame now newState position)
  else mret (next_player currentPlayer newState).

(** The pass branch of [processPlayAction] once its test has passed. *)
Definition pass_accepted (now : Z) (state newState : GameState)
    : Engine GameState :=
  let currentPlayer := currentPlayer state in
  let newState :=
    set_consecutivePasses (consecutivePasses newState + 1) newState in
  let gameAction :=
    {| ga_roundNumber := roundNumber state;
       ga_playerPosition := currentPlayer;
       ga_actionType := A_pass_play;
       ga_cards := None; ga_cardType := None; ga_bidAmount := None;
       ga_timestamp := now |} in
  let newState := set_history (history state ++ [gameAction]) newState in
  if decide (consecutivePasses newState = 2) then
    let newState := set_lastPlayedCards None newState in
    let newState := set_lastPlayedPattern None newState in
    let newState := set_consecutivePasses 0 newState in
    let newState := set_currentPlayer (lastPlayer state) newState in
    let newState := set_roundNumber (roundNumber newState + 1) newState in
    mret newState
  else mret (next_player currentPlayer newState).

Definition processPlayAction (now : Z) (state : GameState)
    (action : PlayAction) : Engine GameState :=
  if decide (phase state ≠ PLAYING) then throw NotInPlayingPhase
  else
    let newState := state in
    let currentPlayer := currentPlayer state in
    σ ← read_store;
    (* [getPlayerHand(state, null)] falls through the switch: [undefined] *)
    let hand := getPlayerHand σ state <$> currentPlayer in
    match play_type action with
    | Play =>
        match cards action with
        | None | Some [] => throw NoCardsProvided
        | Some action_cards =>
            match hand, currentPlayer with
            | Some hand, Some position =>
                if negb (hasCards hand action_cards) then throw CardsNotInHand
                else
                  let pattern := recognizePattern action_cards in
                  if decide (pat_type pattern = INVALID) then
                    throw InvalidCardPattern
                  else
                    let isNewRound :=
                      bool_decide (lastPlayer state ≠ None
                                   ∧ lastPlayer state = currentPlayer) in
                    let newState :=
                      if isNewRound then
                        set_consecutivePasses 0
                          (set_lastPlayedPattern None
                             (set_lastPlayedCards None newState))
                      else newState in
                    if match lastPlayedPattern newState with
                       | Some lastPattern => negb (canBeat pattern lastPattern)
                       | None => false
                       end
                    then throw CannotBeat
                    else
                      play_accepted now state newState position hand
                        action_cards pattern
            | _, _ => throw JsTypeError   (* [hand.map] on [undefined] *)
            end
        end
    | PassPlay =>
        if decide (lastPlayedPattern state = None) then
          throw CannotPassAsLeader
        else pass_accepted now state newState
    end.

(** The object returned by [getPublicGameState]. *)
Record PublicGameState := mkPublicGameState {
  pub_gameId : JsString;
  pub_phase : GamePhase;
  pub_roundNumber : Z;
  pub_myHand : list JsString;
  pub_player0HandCount : nat;
  pub_player1HandCount : nat;
  pub_player2HandCount : nat;
  pub_landlordPosition : option PlayerPosition;
  pub_landlordCards : option (list JsString);
  pub_currentBidder : option PlayerPosition;
  pub_highestBid : Qc;
  pub_highestBidder : option PlayerPosition;
  pub_currentPlayer : option PlayerPosition;
  pub_lastPlayedCards : option (list JsString);
  pub_lastPlayer : option PlayerPosition;
  pub_winner : option PlayerPosition;
  pub_winnerType : option WinnerType;
}.

Definition getPublicGameState (σ : Store) (state : GameState)
    (forPlayer : PlayerPosition) : PublicGameState :=
  let h := σ !!! hands state in
  {| pub_gameId := gameId state;
     pub_phase := phase state;
     pub_roundNumber := roundNumber state;
     pub_myHand := cardsToStrings (getPlayerHand σ state forPlayer);
     pub_player0HandCount := length (player0 h);
     pub_player1HandCount := length (player1 h);
     pub_player2HandCount := length (player2 h);
     pub_landlordPosition := landlordPosition state;
     pub_landlordCards :=
       if decide (phase state = PLAYING)
       then Some (cardsToStrings (landlordCards state)) else None;
     pub_currentBidder :=
       if decide (phase state = BIDDING)
       then Some (currentBidder state) else None;
     pub_highestBid := highestBid state;
     pub_highestBidder := highestBidder state;
     pub_currentPlayer :=
       if decide (phase state = PLAYING) then currentPlayer state else None;
     pub_lastPlayedCards := cardsToStrings <$> lastPlayedCards state;
     pub_lastPlayer := lastPlayer state;
     pub_winner := winner state;
     pub_winnerType := winnerType state |}.

(** * Vocabulary of the properties *)

(** ** The dominance order of the comparator, as the specification words
    it: a Rocket beats anything; a Bomb beats anything that is neither a
    Bomb nor a Rocket; of two Bombs the higher value wins; otherwise the
    types must agree, the lengths too for the shapes of variable length,
    and the value must be strictly higher. *)

(** The shapes of variable length, as the specification names them: the
    straight, the consecutive pairs and the airplane family (consecutive
    trios, bare or with single or pair wings). *)
Definition run_shapes : list CardType :=
  [STRAIGHT; PAIR_STRAIGHT; TRIO_STRAIGHT; TRIO_STRAIGHT_SINGLE;
   TRIO_STRAIGHT_PAIR].

Definition dominates (challenger incumbent : CardPattern) : bool :=
  if decide (pat_type challenger = ROCKET) then true
  else if decide (pat_type challenger = BOMB
                  ∧ pat_type incumbent ≠ BOMB
                  ∧ pat_type incumbent ≠ ROCKET) then true
  else if decide (pat_type challenger = BOMB ∧ pat_type incumbent = BOMB)
  then bool_decide (pat_value incumbent < pat_value challenger)
  else bool_decide
         (pat_type challenger = pat_type incumbent
          ∧ (pat_type challenger ∈ run_shapes
             → pat_length challenger = pat_length incumbent)
          ∧ pat_value incumbent < pat_value challenger).

(** A card with the value its rank gives it. *)
Definition card (s : Suit) (r : Rank) : Card := mkCard s r (RANK_VALUES r).

Definition the_rocket : CardPattern :=
  recognizePattern [card JOKER SMALL_JOKER; card JOKER BIG_JOKER].

Definition bomb_of (r : Rank) : CardPattern :=
  recognizePattern [card SPADE r; card HEART r; card CLUB r; card DIAMOND r].

(** ** Concrete games, used to show that the hypotheses of the theorems
    below can be met and to exhibit the behaviours they describe *)

(** [Math.random] that always draws [j = i]: the deck stays in the order
    of [createDeck]. *)
Definition rnd_id : nat → nat := λ i, i.

(** The state and the store that a successful call leaves, and the input
    otherwise. *)
Definition after (input : GameState * Store)
    (call : GameState → Engine GameState) : GameState * Store :=
  match call input.1 input.2 with
  | (inr s, σ) => (s, σ)
  | (inl _, _) => input
  end.

Definition bid_of (n : Z) : BidAction :=
  mkBidAction Bid (Some (Qc_of_Z n)).
Definition pass_bid : BidAction := mkBidAction PassBid None.
Definition play_of (cs : list Card) : PlayAction := mkPlayAction Play (Some cs).
Definition pass_play : PlayAction := mkPlayAction PassPlay None.

Definition empty_state : GameState :=
  {| gameId := []; phase := BIDDING;
     player0ModelId := 0; player1ModelId := 0; player2ModelId := 0;
     hands := 1%positive; landlordCards := [];
     currentBidder := P0; highestBid := Qc_of_Z 0; highestBidder := None;
     passCount := 0; landlordPosition := None; currentPlayer := Some P0;
     lastPlayedCards := None; lastPlayedPattern := None; lastPlayer := None;
     consecutivePasses := 0; roundNumber := 0; history := [];
     winner := None; winnerType := None; startedAt := 0;
     finishedAt := None |}.

(** A fresh game on the unshuffled deck. *)
Definition game_new : GameState * Store :=
  after (empty_state, ∅) (λ _, createGame rnd_id [] 0 1 2 3).

(** ... after two passes in the bidding. *)
Definition game_two_passes : GameState * Store :=
  after (after game_new (λ s, processBidAction 1 s pass_bid))
        (λ s, processBidAction 2 s pass_bid).

(** ... and, instead, after seat 0 has bid 3 and become the landlord. *)
Definition game_playing : GameState * Store :=
  after game_new (λ s, processBidAction 1 s (bid_of 3)).

(** ... then seat 0 leads the three of spades and seat 1 passes. *)
Definition game_led : GameState * Store :=
  after game_playing (λ s, processPlayAction 2 s (play_of [card SPADE THREE])).

Definition game_one_pass : GameState * Store :=
  after game_led (λ s, processPlayAction 3 s pass_play).

(** [Math.random] that draws [j = i] except in the iteration for index 51,
    where it draws 50: the last card of seat 2's share and the first card
    of the landlord pile change places. *)
Definition rnd_swap : nat → nat := λ i, if decide (i = 51%nat) then 50%nat else i.

Definition game_new_swap : GameState * Store :=
  after (empty_state, ∅) (λ _, createGame rnd_swap [] 0 1 2 3).

Definition game_playing_swap : GameState * Store :=
  after game_new_swap (λ s, processBidAction 1 s (bid_of 3)).

(** ** Rule violations, as the specification lists them

    Each constructor names the error the engine reports and the condition
    under which it does, the earlier tests having passed. *)
Inductive bid_violation (s : GameState) (a : BidAction)
    : EngineError → Prop :=
  | bv_phase :
      phase s ≠ BIDDING → bid_violation s a NotInBiddingPhase
  | bv_amount :
      phase s = BIDDING → bid_type a = Bid →
      (amount a = None
       ∨ ∃ n, amount a = Some n ∧ ((n < Qc_of_Z 1)%Qc ∨ (Qc_of_Z 3 < n)%Qc)) →
      bid_violation s a InvalidBidAmount
  | bv_low n :
      phase s = BIDDING → bid_type a = Bid → amount a = Some n →
      (Qc_of_Z 1 ≤ n ≤ Qc_of_Z 3)%Qc → (n ≤ highestBid s)%Qc →
      bid_violation s a BidTooLow.

Inductive play_violation (σ : Store) (s : GameState) (a : PlayAction)
    : EngineError → Prop :=
  | pv_phase :
      phase s ≠ PLAYING → play_violation σ s a NotInPlayingPhase
  | pv_empty :
      phase s = PLAYING → play_type a = Play →
      (cards a = None ∨ cards a = Some []) →
      play_violation σ s a NoCardsProvided
  | pv_no_seat cs :
      phase s = PLAYING → play_type a = Play → cards a = Some cs →
      cs ≠ [] → currentPlayer s = None →
      play_violation σ s a JsTypeError
  | pv_not_in_hand cs p :
      phase s = PLAYING → play_type a = Play → cards a = Some cs →
      cs ≠ [] → currentPlayer s = Some p →
      hasCards (getPlayerHand σ s p) cs = false →
      play_violation σ s a CardsNotInHand
  | pv_shape cs p :
      phase s = PLAYING → play_type a = Play → cards a = Some cs →
      cs ≠ [] → currentPlayer s = Some p →
      hasCards (getPlayerHand σ s p) cs = true →
      pat_type (recognizePattern cs) = INVALID →
      play_violation σ s a InvalidCardPattern
  | pv_beat cs p lastPattern :
      phase s = PLAYING → play_type a = Play → cards a = Some cs →
      cs ≠ [] → currentPlayer s = Some p →
      hasCards (getPlayerHand σ s p) cs = true →
      pat_type (recognizePattern cs) ≠ INVALID →
      lastPlayedPattern s = Some lastPattern →
      lastPlayer s ≠ Some p →
      canBeat (recognizePattern cs) lastPattern = false →
      play_violation σ s a CannotBeat
  | pv_leader :
      phase s = PLAYING → play_type a = PassPlay →
      lastPlayedPattern s = None →
      play_violation σ s a CannotPassAsLeader.

(** ** Two games that differ only in cards the seat [forPlayer] does not
    hold: every field agrees, the seat's own hand agrees, and the other
    hands and the landlord pile have the same numbers of cards. *)
Record same_but_hidden_cards (forPlayer : PlayerPosition)
    (σ1 : Store) (s1 : GameState) (σ2 : Store) (s2 : GameState) : Prop := {
  sb_gameId : gameId s1 = gameId s2;
  sb_phase : phase s1 = phase s2;
  sb_player0ModelId : player0ModelId s1 = player0ModelId s2;
  sb_player1ModelId : player1ModelId s1 = player1ModelId s2;
  sb_player2ModelId : player2ModelId s1 = player2ModelId s2;
  sb_currentBidder : currentBidder s1 = currentBidder s2;
  sb_highestBid : highestBid s1 = highestBid s2;
  sb_highestBidder : highestBidder s1 = highestBidder s2;
  sb_passCount : passCount s1 = passCount s2;
  sb_landlordPosition : landlordPosition s1 = landlordPosition s2;
  sb_currentPlayer : currentPlayer s1 = currentPlayer s2;
  sb_lastPlayedCards : lastPlayedCards s1 = lastPlayedCards s2;
  sb_lastPlayedPattern : lastPlayedPattern s1 = lastPlayedPattern s2;
  sb_lastPlayer : lastPlayer s1 = lastPlayer s2;
  sb_consecutivePasses : consecutivePasses s1 = consecutivePasses s2;
  sb_roundNumber : roundNumber s1 = roundNumber s2;
  sb_history : history s1 = history s2;
  sb_winner : winner s1 = winner s2;
  sb_winnerType : winnerType s1 = winnerType s2;
  sb_startedAt : startedAt s1 = startedAt s2;
  sb_finishedAt : finishedAt s1 = finishedAt s2;
  sb_own_hand :
    getPlayerHand σ1 s1 forPlayer = getPlayerHand σ2 s2 forPlayer;
  sb_hand_counts : ∀ p,
    length (getPlayerHand σ1 s1 p) = length (getPlayerHand σ2 s2 p);
  sb_pile_count : length (landlordCards s1) = length (landlordCards s2);
}.

(** ** The deal *)

(** The 54 identities of a standard deck. *)
Definition standard_deck_ids : list (Suit * Rank) :=
  (s ← [SPADE; HEART; CLUB; DIAMOND];
   r ← [THREE; FOUR; FIVE; SIX; SEVEN; EIGHT; NINE; TEN; JACK; QUEEN; KING;
        ACE; TWO];
   [(s, r)])
  ++ [(JOKER, SMALL_JOKER); (JOKER, BIG_JOKER)].

(** Ascending by value. *)
Definition value_le (a b : Card) : Prop := value a ≤ value b.

(** Ascending by value, the suits deciding between cards of one value
    according to [suit_le]. *)
Definition value_then_suit (suit_le : Suit → Suit → Prop) (a b : Card)
    : Prop :=
  value a < value b ∨ (value a = value b ∧ suit_le (suit a) (suit b)).

(** [Math.random] that draws [j = i] except in the iteration for index 14,
    where it draws 1: the four of spades and the four of hearts change
    places, both inside seat 0's share. *)
Definition rnd_fours : nat → nat := λ i, if decide (i = 14%nat) then 1%nat else i.

(** ** Shapes, as the specification words them *)

(** How many cards of a list have the value [v]. *)
Definition value_count (v : Z) (cards : list Card) : Z :=
  Z.of_nat (length (filter (λ c, value c = v) cards)).

(** At least five cards whose values are, in some order, the run
    [lo, lo + 1, ..., lo + n - 1] (so: all different, consecutive), and all
    below 15. *)
Definition straight_shape (cards : list Card) (lo : Z) : Prop :=
  (5 ≤ length cards)%nat
  ∧ value <$> cards ≡ₚ seqZ lo (Z.of_nat (length cards))
  ∧ lo + Z.of_nat (length cards) ≤ 15.

(** ** Further vocabulary: well-formed cards, identity counts *)

(** The cards of a standard deck: the value is the one of the rank, and
    the joker suit goes with the two joker ranks and with nothing else. *)
Definition deck_card (c : Card) : Prop :=
  value c = RANK_VALUES (rank c)
  ∧ (suit c = JOKER ↔ rank c = SMALL_JOKER ∨ rank c = BIG_JOKER).

(** How many cards of a list have the identity [i]. *)
Definition id_count (i : Suit * Rank) (cards : list Card) : Z :=
  Z.of_nat (length (filter (λ c, cardId c = i) cards)).

(** ** Further vocabulary: the steps of the engine *)

(** The record a bid action leaves in the history, and the state with it
    logged. *)
Definition bid_record (now : Z) (s : GameState) (a : BidAction)
    : GameAction :=
  {| ga_roundNumber := roundNumber s;
     ga_playerPosition := Some (currentBidder s);
     ga_actionType :=
       match bid_type a with Bid => A_bid | PassBid => A_pass_bid end;
     ga_cards := None; ga_cardType := None;
     ga_bidAmount := amount a;
     ga_timestamp := now |}.

(** The state in which the last play is forgotten: the trick is closed. *)
Definition trick_cleared (s : GameState) : GameState :=
  set_consecutivePasses 0
    (set_lastPlayedPattern None (set_lastPlayedCards None s)).

(** The three hands of a state, in a store. *)
Definition all_hands (σ : Store) (s : GameState) : list Card :=
  getPlayerHand σ s P0 ++ getPlayerHand σ s P1 ++ getPlayerHand σ s P2.

Definition bid_logged (now : Z) (s : GameState) (a : BidAction)
    : GameState :=
  set_history (history s ++ [bid_record now s a]) s.

(** ... with the bid [amt] of the current bidder recorded. *)
Definition bid_raised (now : Z) (s : GameState) (a : BidAction) (amt : Qc)
    : GameState :=
  set_passCount 0
    (set_highestBidder (Some (currentBidder s))
       (set_highestBid amt (bid_logged now s a))).

(** ... with one more pass counted. *)
Definition bid_passed (now : Z) (s : GameState) (a : BidAction)
    : GameState :=
  set_passCount (passCount s + 1) (bid_logged now s a).

(** The state with the play of [cs] by seat [p] on the table and in the
    history, before the turn moves on. *)
Definition play_logged (now : Z) (s newState : GameState)
    (p : PlayerPosition) (cs : list Card) : GameState :=
  set_history
    (history s ++
     [{| ga_roundNumber := roundNumber s;
         ga_playerPosition := Some p;
         ga_actionType := A_play;
         ga_cards := Some (cardsToStrings cs);
         ga_cardType := Some (pat_type (recognizePattern cs));
         ga_bidAmount := None;
         ga_timestamp := now |}])
    (set_consecutivePasses 0
       (set_lastPlayer (Some p)
          (set_lastPlayedPattern (Some (recognizePattern cs))
             (set_lastPlayedCards (Some cs) newState)))).

(** The state with one more pass counted and logged, before the turn
    moves on. *)
Definition pass_logged (now : Z) (s : GameState) : GameState :=
  set_history
    (history s ++
     [{| ga_roundNumber := roundNumber s;
         ga_playerPosition := currentPlayer s;
         ga_actionType := A_pass_play;
         ga_cards := None; ga_cardType := None; ga_bidAmount := None;
         ga_timestamp := now |}])
    (set_consecutivePasses (consecutivePasses s + 1) s).

(** A second game created in the store of [game_new]. *)
Definition game_second : GameState * Store :=
  after (empty_state, game_new.2) (λ _, createGame rnd_swap [0x62%N] 7 4 5 6).

(** ** What the reachable states have in common *)

(** The cursors of a game: a seat is always to play; cards are on the
    table exactly when a pattern is; the bidding counters stay within
    their ranges; there is a landlord from the Playing phase on; in the
    Playing phase the passes counted and the seat to play follow from
    who played last; and a game has a winner exactly when finished. *)
Record turn_inv (s : GameState) : Prop := {
  ti_seat : currentPlayer s ≠ None;
  ti_table : lastPlayedCards s = None ↔ lastPlayedPattern s = None;
  ti_bidding :
    phase s = BIDDING →
    lastPlayedPattern s = None ∧ consecutivePasses s = 0
    ∧ landlordPosition s = None
    ∧ match highestBidder s with
      | None => highestBid s = Qc_of_Z 0 ∧ 0 ≤ passCount s ≤ 2
      | Some _ =>
          (Qc_of_Z 1 ≤ highestBid s < Qc_of_Z 3)%Qc ∧ 0 ≤ passCount s ≤ 1
      end;
  ti_landlord : phase s ≠ BIDDING → landlordPosition s ≠ None;
  ti_trick :
    phase s = PLAYING →
    match lastPlayedPattern s with
    | None => consecutivePasses s = 0
    | Some _ =>
        ∃ q, lastPlayer s = Some q
             ∧ ((consecutivePasses s = 0
                 ∧ currentPlayer s = Some (next_position (Some q)))
                ∨ (consecutivePasses s = 1
                   ∧ currentPlayer s
                     = Some (next_position (Some (next_position (Some q))))))
    end;
  ti_running :
    phase s ≠ FINISHED → winner s = None ∧ finishedAt s = None;
  ti_finished :
    phase s = FINISHED →
    winner s ≠ None ∧ winnerType s ≠ None ∧ finishedAt s ≠ None;
}.

(** The hands: while the game runs no hand is empty; every hand is sorted
    ascending by value; and no identity occurs twice among the three
    hands and, during the bidding, the landlord pile. *)
Record hands_inv (σ : Store) (s : GameState) : Prop := {
  hi_nonempty : phase s ≠ FINISHED → ∀ p, getPlayerHand σ s p ≠ [];
  hi_sorted : ∀ p, Sorted value_le (getPlayerHand σ s p);
  hi_distinct :
    NoDup (cardId <$> (all_hands σ s
                       ++ if decide (phase s = BIDDING)
                          then landlordCards s else []));
}.

(** ** aiPlayer.ts: the decisions taken when the model call fails *)

(** The [catch] branch of [aiMakeBidDecision]: [{ type: "pass" }]. *)
Definition aiMakeBidDecision_catch : BidAction := mkBidAction PassBid None.

(** The [catch] branch of [aiMakePlayDecision]: the first card of the hand
    when nothing is on the table and the hand is not empty, a pass
    otherwise. *)
Definition aiMakePlayDecision_catch (σ : Store) (state : GameState)
    (position : PlayerPosition) : PlayAction :=
  let hand := getPlayerHand σ state position in
  if decide (lastPlayedCards state = None ∧ (0 < length hand)%nat) then
    mkPlayAction Play (Some (option_list (hand !! 0%nat)))
  else mkPlayAction PassPlay None.

(** ** gameManager.ts *)

(** The flag [won] that [finishGame] of the manager computes for a seat. *)
Definition seat_won (state : GameState) (position : PlayerPosition) : bool :=
  let isLandlord := bool_decide (Some position = landlordPosition state) in
  (isLandlord
   && match winnerType state with Some Landlord => true | _ => false end)
  || (negb isLandlord
      && match winnerType state with Some Farmer => true | _ => false end).

(** ** How far a game is from its end *)

(** A number that is an integer. *)
Definition whole (q : Qc) : Prop := ∃ n : Z, q = Qc_of_Z n.

(** Bidding: three units for every bid level still open, and the passes
    that may still follow. *)
Definition bids_left (s : GameState) : Qc :=
  (Qc_of_Z 3 * (Qc_of_Z 3 - highestBid s) + Qc_of_Z (2 - passCount s))%Qc.

(** Playing: three units for every card still held, and the passes that
    may still follow the play on the table. *)
Definition plays_left (σ : Store) (s : GameState) : Z :=
  3 * Z.of_nat (length (all_hands σ s))
  + match lastPlayedPattern s with
    | None => 0
    | Some _ => 2 - consecutivePasses s
    end.

(** ** A bidding with a fractional bid: seat 0 bids 2, seat 1 passes and
    seat 2 bids 9/4. *)
Definition bid_q (q : Q) : BidAction := mkBidAction Bid (Some (Q2Qc q)).

Definition game_bid_two_pass : GameState * Store :=
  after (after game_new (λ s, processBidAction 1 s (bid_of 2)))
        (λ s, processBidAction 2 s pass_bid).

Definition game_bid_fraction : GameState * Store :=
  after game_bid_two_pass (λ s, processBidAction 3 s (bid_q (9 # 4))).

(** ** An end game: every seat holds one card, seat 0 is the landlord and
    is to play; then seat 0 plays its card. *)
Definition game_last_card : GameState * Store :=
  (set_landlordPosition (Some P0) (set_phase PLAYING empty_state),
   {[ 1%positive := mkHands [card SPADE THREE] [card SPADE FOUR]
                            [card SPADE FIVE] ]}).

Definition game_over : GameState * Store :=
  after game_last_card
    (λ s, processPlayAction 9 s (play_of [card SPADE THREE])).

(** ** Further vocabulary: how many cards a pattern stands for *)

Definition sum_list (l : list Z) : Z := foldr Z.add 0 l.

(** The sum of the counts of a map of counts. *)
Definition sum_counts (counts : JsMap Z Z) : Z :=
  sum_list (jsmap_values counts).

(** The cards behind one unit of [pat_length]: the runs of pairs and of
    trios, with or without wings, count their groups, every other type
    counts its cards. *)
Definition cards_per_length (t : CardType) : Z :=
  match t with
  | PAIR_STRAIGHT => 2
  | TRIO_STRAIGHT => 3
  | TRIO_STRAIGHT_SINGLE => 4
  | TRIO_STRAIGHT_PAIR => 5
  | _ => 1
  end.

(** ** gameManager.ts: the game loop when every model call fails

    [runGameLoop] with the AI player in its [catch] branches.  The calls
    that write to the database and the event emitter are left out: their
    failures are caught and logged, and they do not touch the game
    state.  A loop of the source is a function with fuel that returns
    [None] when the fuel runs out; [clock] gives the time of each call of
    the engine and [db] the answer of the database to each call of
    [getAiModelById]. *)

(** What [getAiModelById] can do: resolve to a row, resolve to
    [undefined] (no such row, or no database), or reject. *)
Inductive DbAnswer := Row | NoRow | DbRejects.

(** What ends the loop early: an error thrown by the engine, the error
    [Model ${modelId} not found], or a rejection of the database. *)
Inductive LoopError :=
  | EngineThrew (e : EngineError)
  | ModelNotFound (modelId : option Z)
  | DatabaseRejected.

Definition Loop (A : Type) : Type := Store → (LoopError + A) * Store.

(** A call of the engine inside the loop. *)
Definition engine_call {A} (m : Engine A) : Loop A := λ σ,
  match m σ with
  | (inl e, σ') => (inl (EngineThrew e), σ')
  | (inr a, σ') => (inr a, σ')
  end.

(** The lookup both phases start with; [modelId] is [None] for the
    [undefined] that [getPlayerModelId] returns when there is no seat. *)
Definition find_model (answer : option Z → DbAnswer) (modelId : option Z)
    (next : Loop GameState) : Loop GameState := λ σ,
  match answer modelId with
  | Row => next σ
  | NoRow => (inl (ModelNotFound modelId), σ)
  | DbRejects => (inl DatabaseRejected, σ)
  end.

Definition processBiddingPhase (answer : option Z → DbAnswer) (now : Z)
    (state : GameState) : Loop GameState :=
  let currentPlayer := currentBidder state in
  let modelId := getPlayerModelId state currentPlayer in
  find_model answer (Some modelId)
    (engine_call (processBidAction now state aiMakeBidDecision_catch)).

(** With no seat to play, [getPlayerHand] gives [undefined]: the [catch]
    branch of [aiMakePlayDecision] fails on [hand.length] when nothing is
    on the table, and passes otherwise. *)
Definition processPlayingPhase (answer : option Z → DbAnswer) (now : Z)
    (state : GameState) : Loop GameState :=
  let currentPlayer := currentPlayer state in
  let modelId := getPlayerModelId state <$> currentPlayer in
  find_model answer modelId
    (λ σ,
       match currentPlayer with
       | Some position =>
           engine_call
             (processPlayAction now state
                (aiMakePlayDecision_catch σ state position)) σ
       | None =>
           if decide (lastPlayedCards state = None) then
             (inl (EngineThrew JsTypeError), σ)
           else
             engine_call
               (processPlayAction now state (mkPlayAction PassPlay None)) σ
       end).

(** [while (state.phase === GamePhase.BIDDING)]. *)
Fixpoint bidding_loop (db : nat → option Z → DbAnswer) (fuel : nat)
    (clock : nat → Z) (state : GameState) : Loop (option GameState) :=
  match fuel with
  | O => λ σ, (inr None, σ)
  | S fuel =>
      if decide (phase state = BIDDING) then
        λ σ,
          match processBiddingPhase (db fuel) (clock fuel) state σ with
          | (inl e, σ') => (inl e, σ')
          | (inr state, σ') => bidding_loop db fuel clock state σ'
          end
      else λ σ, (inr (Some state), σ)
  end.

(** [while (state.phase === GamePhase.PLAYING)]. *)
Fixpoint playing_loop (db : nat → option Z → DbAnswer) (fuel : nat)
    (clock : nat → Z) (state : GameState) : Loop (option GameState) :=
  match fuel with
  | O => λ σ, (inr None, σ)
  | S fuel =>
      if decide (phase state = PLAYING) then
        λ σ,
          match processPlayingPhase (db fuel) (clock fuel) state σ with
          | (inl e, σ') => (inl e, σ')
          | (inr state, σ') => playing_loop db fuel clock state σ'
          end
      else λ σ, (inr (Some state), σ)
  end.

(** The two loops of [runGameLoop], one after the other; each has its
    own fuel, clock and database answers. *)
Definition runGameLoop (db1 db2 : nat → option Z → DbAnswer) (fuel : nat)
    (clock1 clock2 : nat → Z) (state : GameState)
    : Loop (option GameState) := λ σ,
  match bidding_loop db1 fuel clock1 state σ with
  | (inl e, σ') => (inl e, σ')
  | (inr (Some state), σ') => playing_loop db2 fuel clock2 state σ'
  | (inr None, σ') => (inr None, σ')
  end.

(** The cards of a game: the three hands and, during the bidding, the
    landlord pile. *)
Definition cards_total (σ : Store) (s : GameState) : Z :=
  Z.of_nat (length (all_hands σ s))
  + if decide (phase s = BIDDING) then Z.of_nat (length (landlordCards s))
    else 0.

(** What the loop keeps when every decision is a fallback: nobody bids,
    so seat 0 is made the landlord; only seat 0 ever leads, so only
    seat 0 can win. *)
Record fallback_inv (s : GameState) : Prop := {
  fi_bidding :
    phase s = BIDDING → highestBidder s = None ∧ lastPlayer s = None;
  fi_landlord : phase s ≠ BIDDING → landlordPosition s = Some P0;
  fi_lead :
    phase s = PLAYING →
    (lastPlayedCards s = None → currentPlayer s = Some P0)
    ∧ (lastPlayer s = None ∨ lastPlayer s = Some P0);
  fi_winner :
    phase s = FINISHED →
    winner s = Some P0 ∧ winnerType s = Some Landlord;
}.
(** * Properties *)

(** ** Numbers *)

Lemma Qc_eq_Qeq (a b : Qc) : a = b ↔ (this a == this b)%Q.
Proof. split; [by intros ->|apply Qc_is_canon]. Qed.

(** Linear arithmetic on rationals in canonical form. *)
Ltac qc_lra :=
  repeat match goal with
         | H : @eq Qc _ _ |- _ => apply Qc_eq_Qeq in H
         | H : ¬ @eq Qc _ _ |- _ => rewrite Qc_eq_Qeq in H
         | |- @eq Qc _ _ => apply Qc_eq_Qeq
         | |- ¬ @eq Qc _ _ => rewrite Qc_eq_Qeq
         end;
  unfold Qclt, Qcle in *; cbn [this Qc_of_Z] in *; unfold inject_Z in *;
  lra.

(** ** The comparator *)

Lemma compare_values_1 (v1 v2 : Z) : compare_values v1 v2 = 1 ↔ v2 < v1.
Proof. unfold compare_values. repeat case_match; lia. Qed.

(** The shapes for which [comparePatterns] looks at the length are the
    shapes of variable length of the specification. *)
Lemma variable_length_run_shapes (t : CardType) :
  variable_length t = true ↔ t ∈ run_shapes.
Proof.
  unfold run_shapes. rewrite !elem_of_cons, elem_of_nil.
  destruct t; simpl; split; intros H; try done;
    try (by repeat (destruct H as [H|H]; [done|]));
    auto 10.
Qed.

(** The comparator against the dominance order, case by case. *)
Lemma canBeat_unfold (challenger incumbent : CardPattern) :
  canBeat challenger incumbent = dominates challenger incumbent.
Proof.
  apply Bool.eq_iff_eq_true.
  unfold canBeat, comparePatterns, dominates.
  destruct challenger as [t1 v1 n1 cs1], incumbent as [t2 v2 n2 cs2]; simpl.
  rewrite bool_decide_eq_true.
  pose proof (variable_length_run_shapes t1) as Hshapes.
  destruct (variable_length t1) eqn:Hvar; simpl;
    [assert (t1 ∈ run_shapes) as Hin by (by apply Hshapes)
    |assert (t1 ∉ run_shapes) as Hin
       by (intros Hin; by apply Hshapes in Hin)];
    clear Hshapes;
    repeat case_decide; rewrite ?bool_decide_eq_true;
    try case_bool_decide;
    (split; intros Hgoal); try done; simplify_eq;
    rewrite ?compare_values_1 in *;
    try tauto; try congruence; try lia.
  all: try (destruct_and?; congruence).
  all: try (f_equal; apply compare_values_1; tauto).
  all: try (destruct (decide (t1 = BOMB)), (decide (t2 = BOMB)); tauto).
Qed.

(** C2: [canBeat] is exactly the dominance order of the specification: a
    Rocket challenger wins, a Bomb wins over anything but a Bomb or a
    Rocket, two Bombs and two patterns of one type (and one length, for
    the straight, the consecutive pairs and the three airplane shapes,
    which [run_shapes] lists independently of the code) are settled by
    the strictly higher value, and anything else is [false].  [canBeat]
    is a total function: it returns on every pair of patterns. *)
Theorem canBeat_dominates (challenger incumbent : CardPattern) :
  canBeat challenger incumbent = dominates challenger incumbent.
Proof. apply canBeat_unfold. Qed.

(** C5, as stated, fails on two Rockets: the test for a Rocket challenger
    comes first in [comparePatterns] and does not look at the incumbent. *)
Lemma canBeat_rocket_beats_rocket :
  pat_type the_rocket = pat_type the_rocket
  ∧ pat_value the_rocket = pat_value the_rocket
  ∧ canBeat the_rocket the_rocket = true.
Proof. repeat split. Qed.

(** C5, amended: two patterns of the same type and value, the type not
    being Rocket, never beat each other. *)
Theorem canBeat_no_self_beat (x incumbent : CardPattern) :
  pat_type x = pat_type incumbent →
  pat_value x = pat_value incumbent →
  pat_type x ≠ ROCKET →
  canBeat x incumbent = false.
Proof.
  intros Ht Hv Hr. rewrite canBeat_unfold. unfold dominates.
  rewrite decide_False by done.
  rewrite decide_False by (intros (? & ? & ?); congruence).
  case_decide.
  - apply bool_decide_eq_false. lia.
  - apply bool_decide_eq_false. lia.
Qed.

Lemma canBeat_no_self_beat_witness :
  canBeat (bomb_of SEVEN) (bomb_of SEVEN) = false.
Proof.
  apply canBeat_no_self_beat; [reflexivity | reflexivity | vm_compute; discriminate].
Defined.

(** ** Parsing card tokens *)

Lemma stringsToCards_loop (acc : list Card) (strings : list JsString) :
  foldl (λ cards str,
           match stringToCard str with
           | Some card => cards ++ [card]
           | None => cards
           end) acc strings
  = acc ++ omap stringToCard strings.
Proof.
  revert acc. induction strings as [|str strings IH]; intros acc; simpl.
  - by rewrite app_nil_r.
  - rewrite IH. destruct (stringToCard str); [|done].
    by rewrite <- app_assoc.
Qed.

Lemma omap_length_le {A B} (f : A → option B) (l : list A) :
  (length (omap f l) ≤ length l)%nat.
Proof.
  induction l as [|a l IH]; [done|]. csimpl.
  destruct (f a); simpl; lia.
Qed.

Lemma omap_length_lt {A B} (f : A → option B) (l : list A) (x : A) :
  x ∈ l → f x = None → (length (omap f l) < length l)%nat.
Proof.
  induction 1 as [x l|x y l Hin IH]; intros Hx; csimpl.
  - rewrite Hx. pose proof (omap_length_le f l). lia.
  - specialize (IH Hx). destruct (f y); simpl; lia.
Qed.

(** C10: [stringsToCards] returns, for every list of tokens, the cards of
    the tokens that [stringToCard] parses, in input order, and drops the
    others without a sign: the result is never longer than the input and
    is strictly shorter as soon as one token does not parse. *)
Theorem stringsToCards_drops_unparseable (strings : list JsString) :
  stringsToCards strings = omap stringToCard strings
  ∧ (length (stringsToCards strings) ≤ length strings)%nat
  ∧ ((∃ str, str ∈ strings ∧ stringToCard str = None) →
     (length (stringsToCards strings) < length strings)%nat).
Proof.
  assert (stringsToCards strings = omap stringToCard strings) as ->
    by apply stringsToCards_loop.
  split; [done|]. split; [apply omap_length_le|].
  intros (str & Hin & Hnone). by eapply omap_length_lt.
Qed.

Lemma stringsToCards_drops_unparseable_witness :
  let strings := [[0x2660; 0x33]; [0x33]; rank_str BIG_JOKER]%N in
  stringsToCards strings = [card SPADE THREE; card JOKER BIG_JOKER]
  ∧ (length (stringsToCards strings) < length strings)%nat.
Proof.
  intros strings.
  destruct (stringsToCards_drops_unparseable strings) as (Heq & _ & Hlt).
  split; [rewrite Heq; reflexivity|].
  apply Hlt. exists [0x33%N]. split; [|reflexivity].
  apply list_elem_of_In. simpl. tauto.
Defined.

(** ** The turn state machine *)

#[local] Arguments getPlayerHand : simpl never.
#[local] Arguments recognizePattern : simpl never.
#[local] Arguments hasCards : simpl never.
#[local] Arguments removeCards : simpl never.
#[local] Arguments sortCards : simpl never.
#[local] Arguments canBeat : simpl never.
#[local] Arguments cardsToStrings : simpl never.

Ltac engine_unfold :=
  unfold mbind, mret, Engine_bind, Engine_ret, read_store, throw,
    setPlayerHand, finalizeLandlord, next_bidder, next_player in *.

Lemma getPlayerHand_insert (σ : Store) (s : GameState) (l : loc) (h : Hands)
    (q : PlayerPosition) :
  hands s = l →
  getPlayerHand (<[l:=h]> σ) s q
  = match q with P0 => player0 h | P1 => player1 h | P2 => player2 h end.
Proof.
  intros Hl. unfold getPlayerHand. by rewrite Hl, lookup_total_insert_eq.
Qed.

(** C4: in the Playing phase, with a play on the table, the pass that
    brings [consecutivePasses] to 2 succeeds, leaves the store alone and
    returns a state with no last play, no passes counted, and the turn
    given to [lastPlayer] whatever the seat order says. *)
Theorem pass_closes_trick (now : Z) (σ : Store) (s : GameState)
    (a : PlayAction) :
  phase s = PLAYING →
  play_type a = PassPlay →
  lastPlayedPattern s ≠ None →
  consecutivePasses s + 1 = 2 →
  ∃ s', processPlayAction now s a σ = (inr s', σ)
        ∧ lastPlayedCards s' = None
        ∧ lastPlayedPattern s' = None
        ∧ consecutivePasses s' = 0
        ∧ currentPlayer s' = lastPlayer s.
Proof.
  intros Hphase Hpass Hlast Hcount. unfold processPlayAction.
  rewrite decide_False by (rewrite Hphase; auto).
  engine_unfold. rewrite Hpass. rewrite decide_False by done.
  unfold pass_accepted. engine_unfold.
  cbn. rewrite decide_True by done.
  eexists. split; [reflexivity|]. done.
Qed.

Lemma pass_closes_trick_witness :
  ∃ s', processPlayAction 4 game_one_pass.1 pass_play game_one_pass.2
        = (inr s', game_one_pass.2)
        ∧ lastPlayedCards s' = None
        ∧ lastPlayedPattern s' = None
        ∧ consecutivePasses s' = 0
        ∧ currentPlayer s' = Some P0.
Proof.
  apply (pass_closes_trick 4 game_one_pass.2 game_one_pass.1 pass_play);
    [reflexivity | reflexivity | vm_compute; discriminate | reflexivity].
Defined.

(** *** Failing calls *)

Opaque recognizePattern hasCards removeCards sortCards canBeat cardsToStrings
  getPlayerHand.

Lemma processBidAction_error (now : Z) (σ σ' : Store) (s : GameState)
    (a : BidAction) (e : EngineError) :
  processBidAction now s a σ = (inl e, σ') ↔ bid_violation s a e ∧ σ' = σ.
Proof.
  unfold processBidAction. split.
  - intros Hcall.
    destruct (decide (phase s ≠ BIDDING)) as [Hphase|Hphase].
    { injection Hcall as <- <-. split; [by constructor|done]. }
    apply dec_stable in Hphase.
    destruct (bid_type a) eqn:Htype.
    + destruct (amount a) as [amt|] eqn:Hamt.
      * destruct (decide (amt = Qc_of_Z 0 ∨ (amt < Qc_of_Z 1)%Qc
                          ∨ (Qc_of_Z 3 < amt)%Qc)) as [Hbad|Hok].
        { injection Hcall as <- <-. split; [|done].
          apply bv_amount; [done..|]. right. exists amt. split; [done|].
          clear -Hbad. destruct Hbad as [->|[?|?]]; [left|by left|by right].
          qc_lra. }
        destruct (decide ((amt ≤ highestBid s)%Qc)) as [Hlow|Hhigh].
        { injection Hcall as <- <-. split; [|done].
          apply (bv_low _ _ amt); [done..| |done].
          clear -Hok. split; [apply Qcnot_lt_le|apply Qcnot_lt_le]; tauto. }
        exfalso. clear -Hcall. destruct (decide (amt = Qc_of_Z 3)).
        -- engine_unfold. cbn in Hcall. discriminate Hcall.
        -- discriminate Hcall.
      * injection Hcall as <- <-. split; [|done].
        apply bv_amount; [done..|]. by left.
    + exfalso. clear -Hcall.
      destruct (decide (passCount _ = 3 ∧ _)).
      { engine_unfold. cbn in Hcall. discriminate Hcall. }
      destruct (decide (highestBidder _ ≠ None ∧ _)) as [[Hsome _]|].
      { engine_unfold. cbn in Hcall, Hsome.
        destruct (highestBidder s); [discriminate Hcall|done]. }
      discriminate Hcall.
  - intros [Hv ->].
    destruct Hv as [Hphase|Hphase Htype Hamt|n Hphase Htype Hamt Hn Hlow].
    + by rewrite decide_True.
    + rewrite decide_False by (rewrite Hphase; auto). rewrite Htype.
      destruct Hamt as [->|(n & -> & Hn)]; [done|].
      by rewrite decide_True by tauto.
    + rewrite decide_False by (rewrite Hphase; auto). rewrite Htype, Hamt.
      rewrite decide_False; [by rewrite decide_True|].
      clear -Hn. intros [->|[?|?]]; qc_lra.
Qed.

Lemma play_accepted_no_error (now : Z) (σ σ' : Store)
    (state newState : GameState) (position : PlayerPosition)
    (hand action_cards : list Card) (pattern : CardPattern)
    (e : EngineError) :
  play_accepted now state newState position hand action_cards pattern σ
  ≠ (inl e, σ').
Proof.
  unfold play_accepted. engine_unfold. cbn.
  destruct (decide (_ = 0%nat)); discriminate.
Qed.

Lemma pass_accepted_no_error (now : Z) (σ σ' : Store)
    (state newState : GameState) (e : EngineError) :
  pass_accepted now state newState σ ≠ (inl e, σ').
Proof.
  unfold pass_accepted. engine_unfold. cbn.
  destruct (decide (_ = 2)); discriminate.
Qed.

Lemma processPlayAction_error (now : Z) (σ σ' : Store) (s : GameState)
    (a : PlayAction) (e : EngineError) :
  processPlayAction now s a σ = (inl e, σ')
  ↔ play_violation σ s a e ∧ σ' = σ.
Proof.
  unfold processPlayAction. split.
  - intros Hcall.
    destruct (decide (phase s ≠ PLAYING)) as [Hphase|Hphase].
    { injection Hcall as <- <-. split; [by constructor|done]. }
    apply dec_stable in Hphase.
    unfold mbind at 1, Engine_bind at 1, read_store in Hcall.
    destruct (play_type a) eqn:Htype.
    + destruct (cards a) as [[|c0 cs]|] eqn:Hcards.
      { injection Hcall as <- <-. split; [|done]. apply pv_empty; auto. }
      2:{ injection Hcall as <- <-. split; [|done]. apply pv_empty; auto. }
      destruct (currentPlayer s) as [p|] eqn:Hcur.
      2:{ injection Hcall as <- <-. split; [|done].
          by apply (pv_no_seat _ _ _ (c0 :: cs)). }
      cbn [fmap option_fmap option_map] in Hcall.
      destruct (hasCards (getPlayerHand σ s p) (c0 :: cs)) eqn:Hhas.
      2:{ injection Hcall as <- <-. split; [|done].
          by apply (pv_not_in_hand _ _ _ (c0 :: cs) p). }
      cbn [negb] in Hcall.
      destruct (decide (pat_type (recognizePattern (c0 :: cs)) = INVALID))
        as [Hinv|Hvalid].
      { injection Hcall as <- <-. split; [|done].
        by apply (pv_shape _ _ _ (c0 :: cs) p). }
      case_bool_decide as Hnew.
      { cbn [lastPlayedPattern set_consecutivePasses set_lastPlayedPattern]
          in Hcall.
        exfalso. by eapply play_accepted_no_error. }
      destruct (lastPlayedPattern s) as [lastPattern|] eqn:Hlast.
      2:{ exfalso. by eapply play_accepted_no_error. }
      destruct (canBeat (recognizePattern (c0 :: cs)) lastPattern) eqn:Hbeat.
      { cbn [negb] in Hcall. exfalso. by eapply play_accepted_no_error. }
      injection Hcall as <- <-. split; [|done].
      apply (pv_beat _ _ _ (c0 :: cs) p lastPattern); try done.
      intros Heq. apply Hnew. rewrite Heq. done.
    + destruct (decide (lastPlayedPattern s = None)) as [Hlast|Hlast].
      { injection Hcall as <- <-. split; [|done]. by apply pv_leader. }
      exfalso. by eapply pass_accepted_no_error.
  - intros [Hv ->].
    unfold mbind at 1, Engine_bind at 1, read_store.
    destruct Hv as [Hphase|Hphase Htype Hcards|cs Hphase Htype Hcards Hne Hcur
                   |cs p Hphase Htype Hcards Hne Hcur Hhas
                   |cs p Hphase Htype Hcards Hne Hcur Hhas Hinv
                   |cs p lastPattern Hphase Htype Hcards Hne Hcur Hhas Hvalid
                      Hlast Hnew Hbeat
                   |Hphase Htype Hlast].
    + by rewrite decide_True.
    + rewrite decide_False by (rewrite Hphase; auto).
      rewrite Htype. by destruct Hcards as [->| ->].
    + rewrite decide_False by (rewrite Hphase; auto).
      rewrite Htype, Hcards, Hcur. by destruct cs.
    + rewrite decide_False by (rewrite Hphase; auto).
      rewrite Htype, Hcards, Hcur.
      destruct cs; [done|]. cbn [fmap option_fmap option_map].
      by rewrite Hhas.
    + rewrite decide_False by (rewrite Hphase; auto).
      rewrite Htype, Hcards, Hcur.
      destruct cs; [done|]. cbn [fmap option_fmap option_map].
      rewrite Hhas. cbn [negb]. by rewrite decide_True.
    + rewrite decide_False by (rewrite Hphase; auto).
      rewrite Htype, Hcards, Hcur.
      destruct cs; [done|]. cbn [fmap option_fmap option_map].
      rewrite Hhas. cbn [negb]. rewrite decide_False by done.
      rewrite bool_decide_eq_false_2 by (intros [_ ?]; done).
      rewrite Hlast, Hbeat. done.
    + rewrite decide_False by (rewrite Hphase; auto).
      rewrite Htype. by rewrite decide_True.
Qed.

Transparent recognizePattern hasCards removeCards sortCards canBeat
  cardsToStrings getPlayerHand.

(** C3: a call of [processBidAction] or [processPlayAction] fails exactly
    on a rule violation (wrong phase, invalid or too-low bid, empty play,
    cards not in hand, invalid shape, cannot beat, pass as trick leader;
    and a play by a missing seat), with the error that names it, and a
    failing call leaves the store of hands as it found it: the input state
    keeps every field, its three hands included. *)
Theorem engine_errors_atomic (now : Z) (σ : Store) (s : GameState) :
  (∀ a e σ', processBidAction now s a σ = (inl e, σ')
             ↔ bid_violation s a e ∧ σ' = σ)
  ∧ (∀ a e σ', processPlayAction now s a σ = (inl e, σ')
               ↔ play_violation σ s a e ∧ σ' = σ).
Proof.
  split; intros a e σ'.
  - apply processBidAction_error.
  - apply processPlayAction_error.
Qed.

Lemma engine_errors_atomic_witness :
  processBidAction 5 game_playing.1 (bid_of 1) game_playing.2
  = (inl NotInBiddingPhase, game_playing.2)
  ∧ processPlayAction 5 game_playing.1 pass_play game_playing.2
    = (inl CannotPassAsLeader, game_playing.2).
Proof.
  destruct (engine_errors_atomic 5 game_playing.2 game_playing.1)
    as [Hbid Hplay].
  split.
  - apply Hbid. split; [|reflexivity]. apply bv_phase. vm_compute. discriminate.
  - apply Hplay. split; [|reflexivity]. apply pv_leader; reflexivity.
Defined.

(** *** Successful calls and the input state *)

(** C1 is not met by the code: [{ ...state }] copies the reference to the
    [hands] object, and [setPlayerHand] then writes into that shared
    object.  After seat 0 bids 3 on a fresh game, the input state's seat 0
    holds 20 cards instead of 17; after seat 0 then plays the three of
    spades, the input state's seat 0 holds 19 cards instead of 20.  In
    both calls the returned state carries the same [hands] reference as
    the input. *)
Theorem engine_updates_input_hands :
  (∃ s' σ',
     processBidAction 1 game_new.1 (bid_of 3) game_new.2 = (inr s', σ')
     ∧ hands s' = hands game_new.1
     ∧ length (getPlayerHand game_new.2 game_new.1 P0) = 17%nat
     ∧ length (getPlayerHand σ' game_new.1 P0) = 20%nat)
  ∧ (∃ s' σ',
       processPlayAction 2 game_playing.1 (play_of [card SPADE THREE])
         game_playing.2 = (inr s', σ')
       ∧ hands s' = hands game_playing.1
       ∧ length (getPlayerHand game_playing.2 game_playing.1 P0) = 20%nat
       ∧ length (getPlayerHand σ' game_playing.1 P0) = 19%nat).
Proof.
  split.
  - exists game_playing.1, game_playing.2. by vm_compute.
  - exists game_led.1, game_led.2. by vm_compute.
Qed.

(** ** The public projection *)

(** C6, as stated, fails in the Playing phase: the projection carries the
    three landlord cards.  The two games below are dealt from decks that
    differ in one exchange between seat 2's share and the landlord pile;
    seat 0 then bids 3.  Seat 1 holds the same hand in both, every count
    and cursor agrees, and yet the projections for seat 1 differ. *)
Lemma public_state_shows_landlord_cards :
  same_but_hidden_cards P1 game_playing.2 game_playing.1
    game_playing_swap.2 game_playing_swap.1
  ∧ getPublicGameState game_playing.2 game_playing.1 P1
    ≠ getPublicGameState game_playing_swap.2 game_playing_swap.1 P1.
Proof.
  split.
  - split; try (intros []); by vm_compute.
  - intros Heq. apply (f_equal pub_landlordCards) in Heq.
    vm_compute in Heq. discriminate Heq.
Qed.

(** C6, amended: the projection for [forPlayer] is the same for two games
    that differ only in cards that seat does not hold, provided that, in
    the Playing phase, the landlord cards agree.  The projection shows the
    seat's own hand, the three hand counts, the phase and the cursors, the
    last play and the result, and, in the Playing phase, the landlord
    cards. *)
Theorem public_state_hides_other_hands (forPlayer : PlayerPosition)
    (σ1 σ2 : Store) (s1 s2 : GameState) :
  same_but_hidden_cards forPlayer σ1 s1 σ2 s2 →
  (phase s1 = PLAYING → landlordCards s1 = landlordCards s2) →
  getPublicGameState σ1 s1 forPlayer = getPublicGameState σ2 s2 forPlayer.
Proof.
  intros Hsame Hpile. unfold getPublicGameState.
  pose proof (sb_hand_counts _ _ _ _ _ Hsame P0) as Hc0.
  pose proof (sb_hand_counts _ _ _ _ _ Hsame P1) as Hc1.
  pose proof (sb_hand_counts _ _ _ _ _ Hsame P2) as Hc2.
  unfold getPlayerHand in Hc0, Hc1, Hc2.
  assert ((if decide (phase s1 = PLAYING)
           then Some (cardsToStrings (landlordCards s1)) else None)
          = (if decide (phase s2 = PLAYING)
             then Some (cardsToStrings (landlordCards s2)) else None)) as ->.
  { rewrite <- (sb_phase _ _ _ _ _ Hsame).
    case_decide; [|done]. by rewrite Hpile. }
  destruct Hsame.
  repeat match goal with H : _ = _ |- _ => rewrite H; clear H end.
  reflexivity.
Qed.

Lemma public_state_hides_other_hands_witness :
  getPublicGameState game_new.2 game_new.1 P1
  = getPublicGameState game_new_swap.2 game_new_swap.1 P1.
Proof.
  apply public_state_hides_other_hands.
  - split; try (intros []); by vm_compute.
  - vm_compute. discriminate.
Defined.

(** ** Sorting, shuffling and dealing *)

Section js_sort_facts.
Context {A : Type} (key : A → Z).

Local Abbreviation cmp := (λ a b : A, key a - key b).

Lemma insert_by_perm (x : A) (l : list A) : insert_by cmp x l ≡ₚ x :: l.
Proof.
  induction l as [|y l IH]; simpl; [done|].
  case_match; [|done]. rewrite IH. apply Permutation_swap.
Qed.

Lemma js_sort_perm (l : list A) : js_sort cmp l ≡ₚ l.
Proof.
  induction l as [|x l IH]; simpl; [done|].
  by rewrite insert_by_perm, IH.
Qed.

Lemma insert_by_sorted (x : A) (l : list A) :
  Sorted (λ a b, key a ≤ key b) l →
  Sorted (λ a b, key a ≤ key b) (insert_by cmp x l).
Proof.
  induction 1 as [|y l Hl IH Hhd]; simpl.
  - by repeat constructor.
  - case_match eqn:Hlt.
    + apply Z.ltb_lt in Hlt. constructor; [done|].
      destruct Hhd as [|z l Hyz]; simpl.
      * constructor. lia.
      * case_match; constructor; [done|lia].
    + apply Z.ltb_ge in Hlt. constructor.
      * by constructor.
      * constructor. lia.
Qed.

Lemma js_sort_sorted (l : list A) :
  Sorted (λ a b, key a ≤ key b) (js_sort cmp l).
Proof.
  induction l as [|x l IH]; simpl; [constructor|].
  by apply insert_by_sorted.
Qed.

(** Stability: elements with one key keep their order. *)
Lemma insert_by_filter (v : Z) (x : A) (l : list A) :
  Sorted (λ a b, key a ≤ key b) l →
  filter (λ y, key y = v) (insert_by cmp x l)
  = filter (λ y, key y = v) (x :: l).
Proof.
  intros Hl. apply Sorted_StronglySorted in Hl; [|intros a b c ??; lia].
  induction Hl as [|y l Hl IH Hall]; [done|].
  cbn [insert_by]. case_match eqn:Hlt; [|done].
  apply Z.ltb_lt in Hlt.
  rewrite (filter_cons _ y), IH, !filter_cons.
  destruct (decide (key y = v)) as [Hy|Hy]; [|done].
  by rewrite !decide_False by lia.
Qed.

Lemma js_sort_stable (v : Z) (l : list A) :
  filter (λ y, key y = v) (js_sort cmp l) = filter (λ y, key y = v) l.
Proof.
  induction l as [|x l IH]; [done|]. cbn [js_sort foldr].
  rewrite insert_by_filter by apply js_sort_sorted.
  rewrite !filter_cons. fold (js_sort cmp l). by rewrite IH.
Qed.
End js_sort_facts.

Lemma swap_perm {A} (l : list A) (i j : nat) : swap l i j ≡ₚ l.
Proof.
  unfold swap.
  destruct (l !! i) as [a|] eqn:Hi; [|done].
  destruct (l !! j) as [b|] eqn:Hj; [|done].
  revert i j Hi Hj. induction l as [|x l IH]; intros i j Hi Hj; [done|].
  assert (∀ (k : nat) (y z : A) (l : list A),
            l !! k = Some z → z :: <[k:=y]> l ≡ₚ y :: l) as Hone.
  { clear. intros k y z l. revert k.
    induction l as [|x l IH]; intros k Hk; [done|].
    destruct k as [|k]; simpl in *.
    - simplify_eq. apply Permutation_swap.
    - rewrite (Permutation_swap x z), IH by done. apply Permutation_swap. }
  destruct i as [|i], j as [|j]; simpl in *; simplify_eq.
  - done.
  - by apply Hone.
  - by apply Hone.
  - f_equiv. by apply IH.
Qed.

Lemma swap_length {A} (l : list A) (i j : nat) :
  length (swap l i j) = length l.
Proof. unfold swap. repeat case_match; by rewrite ?length_insert. Qed.

Lemma shuffle_loop_perm (rnd : nat → nat) (i : nat) (l : list Card) :
  shuffle_loop rnd i l ≡ₚ l.
Proof.
  revert l. induction i as [|i IH]; intros l; simpl; [done|].
  by rewrite IH, swap_perm.
Qed.

Lemma shuffleDeck_perm (rnd : nat → nat) (deck : list Card) :
  shuffleDeck rnd deck ≡ₚ deck.
Proof. apply shuffle_loop_perm. Qed.

Lemma slices_cover (deck : list Card) :
  length deck = 54%nat →
  slice 0 17 deck ++ slice 17 34 deck ++ slice 34 51 deck ++ slice 51 54 deck
  = deck.
Proof.
  intros Hlen. unfold slice. simpl Nat.sub. rewrite drop_0.
  rewrite (take_ge (drop 51 deck)) by (rewrite length_drop; lia).
  replace (drop 51 deck) with (drop 17 (drop 34 deck))
    by (by rewrite drop_drop).
  rewrite take_drop.
  replace (drop 34 deck) with (drop 17 (drop 17 deck))
    by (by rewrite drop_drop).
  rewrite take_drop. apply take_drop.
Qed.

Lemma sortCards_perm (cards : list Card) : sortCards cards ≡ₚ cards.
Proof. apply (js_sort_perm value). Qed.

Lemma sortCards_sorted (cards : list Card) :
  Sorted value_le (sortCards cards).
Proof. apply (js_sort_sorted value). Qed.

Lemma sortCards_stable (v : Z) (cards : list Card) :
  filter (λ c, value c = v) (sortCards cards)
  = filter (λ c, value c = v) cards.
Proof. apply (js_sort_stable value). Qed.

Lemma sortCards_length (cards : list Card) :
  length (sortCards cards) = length cards.
Proof. by rewrite sortCards_perm. Qed.

(** C8: in the Bidding phase, the pass that brings [passCount] to 3 while
    nobody has bid succeeds and deals nothing anew: seat 0 is the landlord
    at a bid of 1, the phase is Playing, seat 0 is to play, and the other
    two hands and the pile are as they were.  Seat 0's new hand is its old
    hand with the landlord cards merged in and sorted again: it holds
    exactly the cards of the old hand and of the pile, in ascending order
    of value, cards of one value in the order they had in the old hand
    followed by the pile. *)
Theorem all_pass_makes_seat0_landlord (now : Z) (σ : Store) (s : GameState)
    (a : BidAction) :
  phase s = BIDDING →
  bid_type a = PassBid →
  passCount s + 1 = 3 →
  highestBidder s = None →
  ∃ s' σ', processBidAction now s a σ = (inr s', σ')
        ∧ landlordPosition s' = Some P0
        ∧ highestBid s' = Qc_of_Z 1
        ∧ highestBidder s' = Some P0
        ∧ phase s' = PLAYING
        ∧ currentPlayer s' = Some P0
        ∧ getPlayerHand σ' s' P0
          = sortCards (getPlayerHand σ s P0 ++ landlordCards s)
        ∧ getPlayerHand σ' s' P0 ≡ₚ getPlayerHand σ s P0 ++ landlordCards s
        ∧ Sorted value_le (getPlayerHand σ' s' P0)
        ∧ (∀ v, filter (λ c, value c = v) (getPlayerHand σ' s' P0)
                = filter (λ c, value c = v)
                    (getPlayerHand σ s P0 ++ landlordCards s))
        ∧ getPlayerHand σ' s' P1 = getPlayerHand σ s P1
        ∧ getPlayerHand σ' s' P2 = getPlayerHand σ s P2
        ∧ landlordCards s' = landlordCards s.
Proof.
  intros Hphase Hpass Hcount Hnone. unfold processBidAction.
  rewrite decide_False by (rewrite Hphase; auto).
  rewrite Hpass. cbn. rewrite decide_True by done.
  engine_unfold. cbn.
  eexists _, _. split; [reflexivity|].
  rewrite !getPlayerHand_insert by done. cbn.
  repeat (split; [done|]).
  split; [apply sortCards_perm|].
  split; [apply sortCards_sorted|].
  split; [intros v; apply sortCards_stable|done].
Qed.

Lemma all_pass_makes_seat0_landlord_witness :
  ∃ s' σ', processBidAction 3 game_two_passes.1 pass_bid game_two_passes.2
           = (inr s', σ')
        ∧ landlordPosition s' = Some P0
        ∧ highestBid s' = Qc_of_Z 1
        ∧ highestBidder s' = Some P0
        ∧ phase s' = PLAYING
        ∧ currentPlayer s' = Some P0
        ∧ getPlayerHand σ' s' P0
          = sortCards (getPlayerHand game_two_passes.2 game_two_passes.1 P0
                       ++ landlordCards game_two_passes.1)
        ∧ getPlayerHand σ' s' P0
          ≡ₚ getPlayerHand game_two_passes.2 game_two_passes.1 P0
             ++ landlordCards game_two_passes.1
        ∧ Sorted value_le (getPlayerHand σ' s' P0)
        ∧ (∀ v, filter (λ c, value c = v) (getPlayerHand σ' s' P0)
                = filter (λ c, value c = v)
                    (getPlayerHand game_two_passes.2 game_two_passes.1 P0
                     ++ landlordCards game_two_passes.1))
        ∧ getPlayerHand σ' s' P1
          = getPlayerHand game_two_passes.2 game_two_passes.1 P1
        ∧ getPlayerHand σ' s' P2
          = getPlayerHand game_two_passes.2 game_two_passes.1 P2
        ∧ landlordCards s' = landlordCards game_two_passes.1.
Proof.
  apply (all_pass_makes_seat0_landlord 3 game_two_passes.2 game_two_passes.1
           pass_bid); reflexivity.
Defined.

Lemma shuffleDeck_length (rnd : nat → nat) (deck : list Card) :
  length (shuffleDeck rnd deck) = length deck.
Proof. by rewrite shuffleDeck_perm. Qed.

Lemma slice_length {A} (from to : nat) (l : list A) :
  (to ≤ length l)%nat → length (slice from to l) = (to - from)%nat.
Proof. intros Hto. unfold slice. rewrite length_take, length_drop. lia. Qed.

Lemma standard_deck_ids_NoDup : NoDup standard_deck_ids.
Proof. apply (bool_decide_unpack (NoDup standard_deck_ids)). by vm_compute. Qed.

Lemma createDeck_ids : cardId <$> createDeck = standard_deck_ids.
Proof. reflexivity. Qed.

(** C7, as stated, fails on the tie-break: [sortCards] compares values
    only, and the sort is stable, so cards of one value stay in the order
    of the shuffled deck.  With the draws [rnd_fours] seat 0's hand starts
    spade 3, heart 3, heart 4, spade 4: no order on the suits puts both
    pairs right. *)
Lemma dealCards_ties_unsorted :
  (∀ i, rnd_fours i ≤ i)%nat
  ∧ ∀ suit_le : Suit → Suit → Prop,
      (∀ x y, suit_le x y → suit_le y x → x = y) →
      ¬ Sorted (value_then_suit suit_le) (deal_player0 (dealCards rnd_fours)).
Proof.
  split.
  { intros i. unfold rnd_fours. case_decide; lia. }
  intros suit_le Hanti Hsorted.
  assert (take 4 (deal_player0 (dealCards rnd_fours))
          = [card SPADE THREE; card HEART THREE; card HEART FOUR;
             card SPADE FOUR]) as Hhead by (by vm_compute).
  destruct (deal_player0 (dealCards rnd_fours)) as [|c1 [|c2 [|c3 [|c4 rest]]]];
    try discriminate Hhead.
  injection Hhead as -> -> -> ->.
  inversion Hsorted as [|? ? Hs1 Hh1]; subst.
  inversion Hs1 as [|? ? Hs2 Hh2]; subst.
  inversion Hs2 as [|? ? Hs3 Hh3]; subst.
  inversion Hh1 as [|? ? [Hlt|[_ H1]]]; subst; [simpl in Hlt; lia|].
  inversion Hh3 as [|? ? [Hlt|[_ H3]]]; subst; [simpl in Hlt; lia|].
  simpl in H1, H3. specialize (Hanti _ _ H1 H3). discriminate Hanti.
Qed.

(** C7, amended: for every sequence of draws, [dealCards] returns three
    hands of 17 cards and a pile of 3 whose identities are, together,
    exactly the 54 identities of a standard deck, none twice; each of the
    four is sorted ascending by value, and cards of one value stay in the
    order they have in the shuffled deck. *)
Theorem dealCards_partition (rnd : nat → nat) :
  let deck := shuffleDeck rnd createDeck in
  let d := dealCards rnd in
  let all := deal_player0 d ++ deal_player1 d ++ deal_player2 d
             ++ deal_landlordCards d in
  length (deal_player0 d) = 17%nat
  ∧ length (deal_player1 d) = 17%nat
  ∧ length (deal_player2 d) = 17%nat
  ∧ length (deal_landlordCards d) = 3%nat
  ∧ cardId <$> all ≡ₚ standard_deck_ids
  ∧ NoDup (cardId <$> all)
  ∧ length standard_deck_ids = 54%nat
  ∧ Sorted value_le (deal_player0 d)
  ∧ Sorted value_le (deal_player1 d)
  ∧ Sorted value_le (deal_player2 d)
  ∧ Sorted value_le (deal_landlordCards d)
  ∧ ∀ v, filter (λ c, value c = v) (deal_player0 d)
         = filter (λ c, value c = v) (slice 0 17 deck)
       ∧ filter (λ c, value c = v) (deal_player1 d)
         = filter (λ c, value c = v) (slice 17 34 deck)
       ∧ filter (λ c, value c = v) (deal_player2 d)
         = filter (λ c, value c = v) (slice 34 51 deck)
       ∧ filter (λ c, value c = v) (deal_landlordCards d)
         = filter (λ c, value c = v) (slice 51 54 deck).
Proof.
  intros deck d all.
  assert (length deck = 54%nat) as Hlen
    by (unfold deck; by rewrite shuffleDeck_length).
  assert (cardId <$> all ≡ₚ standard_deck_ids) as Hids.
  { unfold all, d, dealCards.
    cbn [deal_player0 deal_player1 deal_player2 deal_landlordCards].
    fold deck.
    rewrite !sortCards_perm, slices_cover by done.
    unfold deck. rewrite shuffleDeck_perm. by rewrite createDeck_ids. }
  unfold d, dealCards.
  cbn [deal_player0 deal_player1 deal_player2 deal_landlordCards].
  fold deck.
  rewrite !sortCards_length, !slice_length by lia.
  repeat split; try done; try apply sortCards_sorted;
    try apply sortCards_stable.
  rewrite Hids. apply standard_deck_ids_NoDup.
Qed.

(** ** Counting cards by value *)

Section JsMap_facts.
Context {K V : Type} `{EqDecision K}.
Implicit Types (m : JsMap K V) (k : K) (x : V).

Lemma jsmap_get_set m k k' x :
  jsmap_get (jsmap_set m k x) k'
  = if decide (k' = k) then Some x else jsmap_get m k'.
Proof.
  induction m as [|[k0 x0] m IH]; simpl.
  - done.
  - destruct (decide (k = k0)) as [->|Hne]; simpl.
    + destruct (decide (k' = k0)); done.
    + rewrite IH. destruct (decide (k' = k0)) as [->|]; [|done].
      by rewrite decide_False.
Qed.

Lemma jsmap_get_None m k : jsmap_get m k = None ↔ k ∉ jsmap_keys m.
Proof.
  unfold jsmap_keys. induction m as [|[k0 x0] m IH]; simpl.
  - split; [intros _; apply not_elem_of_nil|done].
  - rewrite not_elem_of_cons. destruct (decide (k = k0)) as [->|Hne].
    + split; [done|intros [? _]; done].
    + rewrite IH. split; [by split|by intros [_ ?]].
Qed.

Lemma jsmap_keys_set m k x :
  jsmap_keys (jsmap_set m k x)
  = if decide (k ∈ jsmap_keys m) then jsmap_keys m else jsmap_keys m ++ [k].
Proof.
  unfold jsmap_keys. induction m as [|[k0 x0] m IH].
  - destruct (decide (k ∈ _)) as [Hin|]; [|done]. by apply elem_of_nil in Hin.
  - cbn [jsmap_set]. destruct (decide (k = k0)) as [->|Hne].
    + rewrite decide_True; [done|]. rewrite fmap_cons. apply list_elem_of_here.
    + rewrite !fmap_cons, IH. cbn [fst].
      destruct (decide (k ∈ m.*1)) as [Hin|Hout].
      * rewrite decide_True; [done|by apply list_elem_of_further].
      * rewrite decide_False; [done|]. rewrite not_elem_of_cons. done.
Qed.

Lemma jsmap_keys_set_NoDup m k x :
  NoDup (jsmap_keys m) → NoDup (jsmap_keys (jsmap_set m k x)).
Proof.
  intros Hm. rewrite jsmap_keys_set. case_decide; [done|].
  apply NoDup_app. split; [done|]. split; [|apply NoDup_singleton].
  intros k' Hk' ->%list_elem_of_singleton. done.
Qed.
End JsMap_facts.

Lemma value_count_nonneg (v : Z) (cards : list Card) :
  0 ≤ value_count v cards.
Proof. unfold value_count. lia. Qed.

Lemma value_count_cons (v : Z) (c : Card) (cards : list Card) :
  value_count v (c :: cards)
  = (if decide (value c = v) then 1 else 0) + value_count v cards.
Proof.
  unfold value_count. rewrite filter_cons. case_decide; simpl length; lia.
Qed.

Lemma value_count_0 (v : Z) (cards : list Card) :
  value_count v cards = 0 ↔ v ∉ value <$> cards.
Proof.
  induction cards as [|c cards IH].
  - split; [intros _; apply not_elem_of_nil|done].
  - rewrite value_count_cons, fmap_cons, not_elem_of_cons.
    pose proof (value_count_nonneg v cards).
    case_decide; split; intros; destruct_and?; try lia; try done.
    + split; [congruence|]. apply IH. lia.
    + assert (value_count v cards = 0) by by apply IH. lia.
Qed.

Lemma value_count_perm (v : Z) (cards1 cards2 : list Card) :
  cards1 ≡ₚ cards2 → value_count v cards1 = value_count v cards2.
Proof. intros Hp. unfold value_count. by rewrite Hp. Qed.

Lemma value_count_NoDup (cards : list Card) :
  NoDup (value <$> cards)
  ↔ ∀ v, v ∈ value <$> cards → value_count v cards = 1.
Proof.
  induction cards as [|c cards IH].
  - split; [intros _ v Hv; by apply elem_of_nil in Hv|intros _; constructor].
  - rewrite fmap_cons, NoDup_cons, IH. split.
    + intros [Hc Hall] v Hv. rewrite value_count_cons.
      apply elem_of_cons in Hv as [->|Hv].
      * rewrite decide_True by done.
        apply value_count_0 in Hc. lia.
      * rewrite decide_False by (intros Heq; by rewrite Heq in Hc).
        rewrite Hall by done. lia.
    + intros Hall.
      assert (value c ∉ value <$> cards) as Hc.
      { apply value_count_0.
        specialize (Hall (value c) (list_elem_of_here _ _)).
        rewrite value_count_cons, decide_True in Hall by done. lia. }
      split; [done|]. intros v Hv.
      specialize (Hall v (list_elem_of_further _ _ _ Hv)).
      rewrite value_count_cons, decide_False in Hall
        by (intros Heq; by rewrite Heq in Hc).
      lia.
Qed.

Lemma count_loop_get (acc : JsMap Z Z) (cards : list Card) (v : Z) :
  jsmap_get
    (foldl (λ counts card,
              jsmap_set counts (value card)
                (default 0 (jsmap_get counts (value card)) + 1)) acc cards) v
  = if decide (value_count v cards = 0) then jsmap_get acc v
    else Some (default 0 (jsmap_get acc v) + value_count v cards).
Proof.
  revert acc. induction cards as [|c cards IH]; intros acc.
  - by rewrite decide_True.
  - cbn [foldl]. rewrite IH, value_count_cons, jsmap_get_set.
    pose proof (value_count_nonneg v cards).
    destruct (decide (v = value c)) as [->|Hne].
    + rewrite (decide_True (P := value c = value c)) by done.
      rewrite (decide_False (P := 1 + _ = 0)) by lia.
      case_decide as H0; [rewrite H0|]; simpl; f_equal; lia.
    + rewrite (decide_False (P := value c = v)) by done.
      by rewrite Z.add_0_l.
Qed.

Lemma count_loop_NoDup (acc : JsMap Z Z) (cards : list Card) :
  NoDup (jsmap_keys acc) →
  NoDup (jsmap_keys
    (foldl (λ counts card,
              jsmap_set counts (value card)
                (default 0 (jsmap_get counts (value card)) + 1)) acc cards)).
Proof.
  revert acc. induction cards as [|c cards IH]; intros acc Hacc; [done|].
  cbn [foldl]. apply IH. by apply jsmap_keys_set_NoDup.
Qed.

Lemma countCards_get (cards : list Card) (v : Z) :
  jsmap_get (countCards cards) v
  = if decide (value_count v cards = 0) then None
    else Some (value_count v cards).
Proof. unfold countCards. rewrite count_loop_get. by case_decide. Qed.

Lemma countCards_keys_NoDup (cards : list Card) :
  NoDup (jsmap_keys (countCards cards)).
Proof. apply count_loop_NoDup. constructor. Qed.

Lemma countCards_keys (cards : list Card) (v : Z) :
  v ∈ jsmap_keys (countCards cards) ↔ v ∈ value <$> cards.
Proof.
  destruct (decide (v ∈ jsmap_keys (countCards cards))) as [Hin|Hout].
  - split; [intros _|done].
    destruct (decide (v ∈ value <$> cards)) as [|Hv]; [done|].
    apply value_count_0 in Hv. exfalso.
    apply (jsmap_get_None (countCards cards) v); [|done].
    rewrite countCards_get. by rewrite decide_True.
  - split; [done|]. intros Hv. exfalso.
    apply jsmap_get_None in Hout. rewrite countCards_get in Hout.
    case_decide as H0; [|done]. by apply value_count_0 in H0.
Qed.

(** ** Recognising a straight *)

Lemma sort_asc_perm (a : list Z) : sort_asc a ≡ₚ a.
Proof. apply (js_sort_perm (λ x, x)). Qed.

Lemma sort_asc_sorted (a : list Z) : Sorted Z.le (sort_asc a).
Proof. apply (js_sort_sorted (λ x, x)). Qed.

Lemma seqZ_sorted (lo : Z) (k : nat) : Sorted Z.le (seqZ lo (Z.of_nat k)).
Proof.
  revert lo. induction k as [|k IH]; intros lo.
  - rewrite seqZ_nil by lia. constructor.
  - rewrite seqZ_cons by lia.
    replace (Z.pred (Z.of_nat (S k))) with (Z.of_nat k) by lia.
    constructor; [apply IH|].
    destruct k as [|k]; [rewrite seqZ_nil by lia; constructor|].
    rewrite seqZ_cons by lia. constructor. lia.
Qed.

Lemma seqZ_consecutive (lo : Z) (k : nat) :
  consecutive (seqZ lo (Z.of_nat k)) = true.
Proof.
  revert lo. induction k as [|k IH]; intros lo.
  - by rewrite seqZ_nil by lia.
  - rewrite seqZ_cons by lia.
    replace (Z.pred (Z.of_nat (S k))) with (Z.of_nat k) by lia.
    specialize (IH (Z.succ lo)).
    destruct k as [|k]; [by rewrite seqZ_nil by lia|].
    rewrite seqZ_cons in IH |- * by lia.
    cbn [consecutive]. rewrite bool_decide_eq_true_2 by lia. apply IH.
Qed.

Lemma consecutive_seqZ (a : list Z) :
  consecutive a = true → a = seqZ (first a) (Z.of_nat (length a)).
Proof.
  induction a as [|x a IH]; intros Hc.
  - by rewrite seqZ_nil by (simpl; lia).
  - rewrite seqZ_cons by (simpl; lia). unfold first. cbn [head default].
    f_equal.
    replace (Z.pred (Z.of_nat (length (x :: a)))) with (Z.of_nat (length a))
      by (simpl; lia).
    destruct a as [|y a]; [by rewrite seqZ_nil by (simpl; lia)|].
    cbn [consecutive] in Hc. apply andb_true_iff in Hc as [Hxy Hc].
    apply bool_decide_eq_true in Hxy.
    unfold id. replace (Z.succ x) with y by lia. exact (IH Hc).
Qed.

Lemma some_ge_15_false (vs : list Z) :
  some_ge_15 vs = false ↔ Forall (λ v, v < 15) vs.
Proof.
  unfold some_ge_15. induction vs as [|v vs IH]; simpl.
  - split; [constructor|done].
  - rewrite orb_false_iff, IH, Forall_cons, Z.leb_gt. done.
Qed.

Lemma all_counts_true (n : Z) (uniqueValues : list Z) (counts : JsMap Z Z) :
  all_counts n uniqueValues counts = true
  ↔ Forall (λ v, jsmap_get counts v = Some n) uniqueValues.
Proof.
  unfold all_counts. induction uniqueValues as [|v vs IH]; simpl.
  - split; [constructor|done].
  - rewrite andb_true_iff, IH, Forall_cons, bool_decide_eq_true. done.
Qed.

(** The map of counts and the sorted array of its keys, for any hand. *)
Lemma countCards_size_le (cards : list Card) :
  (jsmap_size (countCards cards) ≤ length cards)%nat.
Proof.
  unfold jsmap_size.
  rewrite <- (length_fmap fst). fold (jsmap_keys (countCards cards)).
  rewrite <- (length_fmap value cards).
  apply submseteq_length, NoDup_submseteq; [apply countCards_keys_NoDup|].
  intros v. by rewrite countCards_keys.
Qed.

Lemma uniqueValues_length (cards : list Card) :
  length (sort_asc (jsmap_keys (countCards cards)))
  = jsmap_size (countCards cards).
Proof.
  rewrite sort_asc_perm. unfold jsmap_keys, jsmap_size.
  by rewrite length_fmap.
Qed.

Lemma uniqueValues_elem (cards : list Card) (v : Z) :
  v ∈ sort_asc (jsmap_keys (countCards cards)) ↔ v ∈ value <$> cards.
Proof. by rewrite sort_asc_perm, countCards_keys. Qed.

Lemma uniqueValues_distinct_hand (cards : list Card) :
  NoDup (value <$> cards) →
  sort_asc (jsmap_keys (countCards cards)) ≡ₚ value <$> cards.
Proof.
  intros Hnd. rewrite sort_asc_perm.
  apply NoDup_Permutation; [apply countCards_keys_NoDup|done|].
  apply countCards_keys.
Qed.

(** A hand with at least three different values passes the first seven
    tests of [recognizePattern]: what is left are the runs, the airplanes
    and the four-with-two shapes. *)
Lemma recognizePattern_three_values (cards : list Card) :
  let sorted := sortCards cards in
  let counts := countCards sorted in
  let uniqueValues := sort_asc (jsmap_keys counts) in
  (3 ≤ jsmap_size counts)%nat →
  recognizePattern cards =
    match isStraight uniqueValues counts with
    | Some r => run_pattern STRAIGHT r sorted
    | None =>
    match isPairStraight uniqueValues counts with
    | Some r => run_pattern PAIR_STRAIGHT r sorted
    | None =>
    match isTrioStraight uniqueValues counts with
    | Some r => run_pattern TRIO_STRAIGHT r sorted
    | None =>
    match isTrioStraightSingle uniqueValues counts with
    | Some r => run_pattern TRIO_STRAIGHT_SINGLE r sorted
    | None =>
    match isTrioStraightPair uniqueValues counts with
    | Some r => run_pattern TRIO_STRAIGHT_PAIR r sorted
    | None =>
      if isFourDualSingle counts then
        mkPattern FOUR_DUAL_SINGLE (findFourValue counts) 6 sorted
      else if isFourDualPair counts then
        mkPattern FOUR_DUAL_PAIR (findFourValue counts) 8 sorted
      else mkPattern INVALID 0 0 sorted
    end end end end end.
Proof.
  intros sorted counts uniqueValues Hsize.
  pose proof (countCards_size_le sorted) as Hle. fold counts in Hle.
  assert (length sorted = length cards) as Hlen by apply sortCards_length.
  unfold recognizePattern. fold sorted counts uniqueValues.
  rewrite decide_False by lia.
  assert (isRocket sorted counts = false) as ->.
  { unfold isRocket. destruct sorted as [|? [|? [|? ?]]]; simpl in *;
      try done; lia. }
  unfold isBomb, isPair, isTrio, isTrioSingle, isTrioPair.
  rewrite !(decide_True (P := jsmap_size counts ≠ 1%nat)) by lia.
  rewrite !(decide_True (P := jsmap_size counts ≠ 2%nat)) by lia.
  rewrite decide_False by lia. done.
Qed.

Lemma straight_shape_recognized (cards : list Card) (lo : Z) :
  straight_shape cards lo →
  recognizePattern cards
  = mkPattern STRAIGHT lo (Z.of_nat (length cards)) (sortCards cards).
Proof.
  intros (Hfive & Hrun & Hmax).
  set (sorted := sortCards cards).
  set (counts := countCards sorted).
  set (uniqueValues := sort_asc (jsmap_keys counts)).
  assert (value <$> sorted ≡ₚ seqZ lo (Z.of_nat (length cards))) as Hsorted.
  { unfold sorted. by rewrite sortCards_perm. }
  assert (NoDup (value <$> sorted)) as Hnd.
  { rewrite Hsorted. apply NoDup_seqZ. }
  assert (uniqueValues = seqZ lo (Z.of_nat (length cards))) as Huv.
  { apply (Sorted_unique Z.le).
    - apply sort_asc_sorted.
    - apply seqZ_sorted.
    - unfold uniqueValues, counts.
      by rewrite uniqueValues_distinct_hand. }
  assert (length uniqueValues = length cards) as Hlen.
  { rewrite Huv, length_seqZ. lia. }
  assert (jsmap_size counts = length cards) as Hsize.
  { rewrite <- Hlen. symmetry. apply uniqueValues_length. }
  rewrite recognizePattern_three_values; fold sorted counts uniqueValues;
    [|lia].
  unfold isStraight.
  rewrite decide_False by lia.
  assert (some_ge_15 uniqueValues = false) as ->.
  { apply some_ge_15_false. rewrite Huv. apply Forall_seqZ. lia. }
  assert (all_counts 1 uniqueValues counts = true) as ->.
  { apply all_counts_true, Forall_forall. intros v Hv.
    apply uniqueValues_elem in Hv.
    unfold counts. rewrite countCards_get.
    rewrite (proj1 (value_count_NoDup sorted) Hnd v Hv). done. }
  assert (consecutive uniqueValues = true) as ->.
  { rewrite Huv. apply seqZ_consecutive. }
  cbn [negb]. unfold run_pattern. cbn [fst snd].
  rewrite Hlen. f_equal.
  rewrite Huv, seqZ_cons by lia. done.
Qed.

Lemma straight_recognized_shape (cards : list Card) :
  pat_type (recognizePattern cards) = STRAIGHT →
  ∃ lo, straight_shape cards lo.
Proof.
  intros Htype. unfold recognizePattern in Htype.
  set (sorted := sortCards cards) in *.
  set (counts := countCards sorted) in *.
  set (uniqueValues := sort_asc (jsmap_keys counts)) in *.
  destruct (isStraight uniqueValues counts) as [r|] eqn:Hst.
  2:{ repeat (case_decide || case_match); simpl in Htype; discriminate. }
  clear Htype. unfold isStraight in Hst.
  destruct (decide (length uniqueValues < 5)%nat) as [|Hfive]; [done|].
  destruct (some_ge_15 uniqueValues) eqn:Hmax; [done|].
  destruct (all_counts 1 uniqueValues counts) eqn:Hall; [|done].
  destruct (consecutive uniqueValues) eqn:Hcons; [|done].
  apply some_ge_15_false in Hmax.
  apply all_counts_true in Hall. rewrite Forall_forall in Hall.
  apply consecutive_seqZ in Hcons.
  assert (NoDup (value <$> sorted)) as Hnd.
  { apply value_count_NoDup. intros v Hv.
    specialize (Hall v (proj2 (uniqueValues_elem sorted v) Hv)).
    unfold counts in Hall. rewrite countCards_get in Hall.
    case_decide; by simplify_eq. }
  assert (uniqueValues ≡ₚ value <$> cards) as Hperm.
  { unfold uniqueValues, counts. rewrite uniqueValues_distinct_hand by done.
    unfold sorted. by rewrite sortCards_perm. }
  assert (length uniqueValues = length cards) as Hlen.
  { by rewrite Hperm, length_fmap. }
  exists (first uniqueValues). unfold straight_shape.
  rewrite <- Hlen, <- Hcons. split; [lia|]. split; [done|].
  rewrite Hcons in Hmax. rewrite Forall_seqZ in Hmax.
  specialize (Hmax (first uniqueValues
                    + Z.of_nat (length uniqueValues) - 1)).
  lia.
Qed.

(** C9: [recognizePattern] answers STRAIGHT exactly for the hands of at
    least five cards whose values are all different, consecutive and below
    15 (no 2, no joker); the pattern then has the lowest value as its
    value, the number of cards as its length, and the sorted hand as its
    cards. *)
Theorem recognizePattern_straight (cards : list Card) :
  (pat_type (recognizePattern cards) = STRAIGHT
   ↔ ∃ lo, straight_shape cards lo)
  ∧ ∀ lo, straight_shape cards lo →
      recognizePattern cards
      = mkPattern STRAIGHT lo (Z.of_nat (length cards)) (sortCards cards).
Proof.
  split; [split|].
  - apply straight_recognized_shape.
  - intros [lo Hshape]. by rewrite (straight_shape_recognized cards lo).
  - apply straight_shape_recognized.
Qed.

Lemma recognizePattern_straight_witness :
  let cards := [card SPADE THREE; card HEART FOUR; card DIAMOND FIVE;
                card CLUB SIX; card SPADE SEVEN] in
  recognizePattern cards = mkPattern STRAIGHT 3 5 (sortCards cards).
Proof.
  intros cards.
  apply (proj2 (recognizePattern_straight cards) 3).
  split; [simpl; lia|]. split; [reflexivity|simpl; lia].
Defined.

(** * Further properties of the card model *)

(** ** Printing and parsing cards *)

(** X1: parsing the token that [cardToString] prints for a deck card (a
    card with the value of its rank, the joker suit going with the two
    joker ranks and with no other) gives the card back. *)
Theorem stringToCard_cardToString (c : Card) :
  deck_card c → stringToCard (cardToString c) = Some c.
Proof.
  destruct c as [s r v]. intros [Hv Hj]. simpl in Hv, Hj. subst v.
  destruct s, r; try reflexivity;
    exfalso; (try (destruct Hj as [Hj _]; specialize (Hj eq_refl);
                   destruct Hj; discriminate));
    (destruct Hj as [_ Hj]; discriminate Hj; auto).
Qed.

Lemma stringToCard_cardToString_witness :
  stringToCard (cardToString (card HEART TEN)) = Some (card HEART TEN).
Proof.
  apply stringToCard_cardToString. split; [reflexivity|].
  split; [discriminate|intros [?|?]; discriminate].
Defined.

(** X2: whatever [stringToCard] returns has the value of its rank and
    never the joker suit with an ordinary rank; and unless the result has
    a joker rank, it is a deck card whose token is the string parsed.  (A
    suit glyph followed by a joker name does parse, to a card that prints
    as the bare joker name.) *)
Theorem stringToCard_sound (str : JsString) (c : Card) :
  stringToCard str = Some c →
  value c = RANK_VALUES (rank c)
  ∧ (suit c = JOKER → rank c = SMALL_JOKER ∨ rank c = BIG_JOKER)
  ∧ (rank c ≠ SMALL_JOKER → rank c ≠ BIG_JOKER →
     deck_card c ∧ cardToString c = str).
Proof.
  unfold stringToCard. intros Hparse.
  destruct (decide (str = rank_str SMALL_JOKER)) as [->|Hsmall].
  { injection Hparse as <-. simpl. split; [done|]. split; [by left|done]. }
  destruct (decide (str = rank_str BIG_JOKER)) as [->|Hbig].
  { injection Hparse as <-. simpl. split; [done|]. split; [by right|done]. }
  cbv zeta in Hparse.
  destruct (list_find _ Suit_values) as [[i s]|] eqn:Hs; [|done].
  destruct (list_find _ Rank_values) as [[j r]|] eqn:Hr; [|done].
  injection Hparse as <-.
  apply list_find_Some in Hs as (_ & Hs & _).
  apply list_find_Some in Hr as (_ & Hr & _).
  destruct str as [|ch rest]; [done|]. simpl in Hs, Hr.
  injection Hs as Hs.
  assert (s ≠ JOKER) as Hsuit by (intros ->; discriminate Hs).
  simpl. split; [done|]. split; [done|]. intros Hr1 Hr2.
  split.
  - split; [done|]. simpl. split; [done|]. intros [?|?]; done.
  - unfold cardToString. simpl.
    rewrite decide_False by (intros [?|?]; done).
    by rewrite Hs, Hr.
Qed.

Lemma stringToCard_sound_witness :
  value (card SPADE SMALL_JOKER) = RANK_VALUES SMALL_JOKER
  ∧ cardToString (card SPADE SMALL_JOKER) ≠ [0x2660; 0x5C0F; 0x738B]%N.
Proof.
  destruct (stringToCard_sound [0x2660; 0x5C0F; 0x738B]%N
              (card SPADE SMALL_JOKER) eq_refl) as (Hv & _ & _).
  split; [exact Hv|]. vm_compute. discriminate.
Defined.

(** ** Counting identities *)

Section id_counts.
Implicit Types (ids : list (Suit * Rank)) (i : Suit * Rank).

Local Abbreviation occ i ids := (Z.of_nat (length (filter (λ x, x = i) ids))).
Local Abbreviation id_step :=
  (λ (counts : JsMap (Suit * Rank) Z) (id : Suit * Rank),
     jsmap_set counts id (default 0 (jsmap_get counts id) + 1)).

Lemma id_loop_get (acc : JsMap (Suit * Rank) Z) ids i :
  jsmap_get (foldl id_step acc ids) i
  = if decide (occ i ids = 0) then jsmap_get acc i
    else Some (default 0 (jsmap_get acc i) + occ i ids).
Proof.
  revert acc. induction ids as [|x ids IH]; intros acc.
  - by rewrite decide_True.
  - cbn [foldl]. rewrite IH, jsmap_get_set, filter_cons.
    destruct (decide (i = x)) as [->|Hne].
    + rewrite (decide_True (P := x = x)) by done. cbn [length].
      rewrite (decide_False (P := Z.of_nat (S _) = 0)) by lia.
      case_decide as H0; simpl; f_equal; lia.
    + by rewrite (decide_False (P := x = i)) by done.
Qed.

Lemma id_loop_NoDup (acc : JsMap (Suit * Rank) Z) ids :
  NoDup (jsmap_keys acc) → NoDup (jsmap_keys (foldl id_step acc ids)).
Proof.
  revert acc. induction ids as [|x ids IH]; intros acc Hacc; [done|].
  cbn [foldl]. apply IH. by apply jsmap_keys_set_NoDup.
Qed.

Lemma idCounts_get ids i :
  jsmap_get (idCounts ids) i
  = if decide (occ i ids = 0) then None else Some (occ i ids).
Proof. unfold idCounts. rewrite id_loop_get. by case_decide. Qed.

Lemma idCounts_NoDup ids : NoDup (jsmap_keys (idCounts ids)).
Proof. apply id_loop_NoDup. constructor. Qed.
End id_counts.

Lemma jsmap_get_entry {K V} `{EqDecision K} (m : JsMap K V) (k : K) (x : V) :
  NoDup (jsmap_keys m) → (k, x) ∈ m ↔ jsmap_get m k = Some x.
Proof.
  unfold jsmap_keys. induction m as [|[k0 x0] m IH]; intros Hnd.
  - split; [intros Hin; by apply elem_of_nil in Hin|done].
  - rewrite fmap_cons in Hnd. apply NoDup_cons in Hnd as [Hk0 Hnd].
    cbn [jsmap_get]. rewrite elem_of_cons, (IH Hnd).
    destruct (decide (k = k0)) as [->|Hne].
    + split; [|intros [= ->]; by left].
      intros [[= ->]|Hget]; [done|]. exfalso. apply Hk0.
      apply (proj2 (jsmap_get_None m k0)) in Hk0. congruence.
    + split; [intros [[= ? ?]|?]; done|by right].
Qed.

Lemma id_count_occ (i : Suit * Rank) (cards : list Card) :
  id_count i cards
  = Z.of_nat (length (filter (λ x, x = i) (cardId <$> cards))).
Proof.
  unfold id_count. induction cards as [|c cards IH]; [done|].
  rewrite fmap_cons, !filter_cons.
  destruct (decide (cardId c = i)); cbn [length]; lia.
Qed.

Lemma id_count_nonneg (i : Suit * Rank) (cards : list Card) :
  0 ≤ id_count i cards.
Proof. unfold id_count. lia. Qed.

Lemma hasCards_counts_aux (hand cards : list Card) :
  hasCards hand cards = true
  ↔ ∀ i, id_count i cards ≤ id_count i hand.
Proof.
  unfold hasCards. rewrite forallb_forall. split.
  - intros Hall i.
    destruct (decide (id_count i cards = 0)) as [->|Hpos];
      [apply id_count_nonneg|].
    specialize (Hall (i, id_count i cards)). cbv beta iota zeta in Hall.
    rewrite idCounts_get, <- !id_count_occ in Hall.
    assert (negb (default 0 (if decide (id_count i hand = 0) then None
                             else Some (id_count i hand))
                  <? id_count i cards) = true) as Hi.
    { apply Hall, list_elem_of_In, jsmap_get_entry; [apply idCounts_NoDup|].
      rewrite idCounts_get, <- id_count_occ. by rewrite decide_False. }
    apply negb_true_iff, Z.ltb_ge in Hi.
    case_decide as H0; simpl in Hi; [rewrite H0|]; lia.
  - intros Hall [i need] Hin.
    apply list_elem_of_In, jsmap_get_entry in Hin; [|apply idCounts_NoDup].
    rewrite idCounts_get, <- !id_count_occ in *.
    specialize (Hall i). cbv beta iota zeta.
    apply negb_true_iff, Z.ltb_ge.
    repeat case_decide; simplify_eq; simpl; lia.
Qed.

(** X3: [hasCards] is containment of multisets of identities: it answers
    [true] exactly when no identity is asked for more often than the hand
    has it.  Values play no part. *)
Theorem hasCards_counts (hand cards : list Card) :
  hasCards hand cards = true
  ↔ ∀ i, id_count i cards ≤ id_count i hand.
Proof. apply hasCards_counts_aux. Qed.

(** ** Taking cards out of a hand *)

Lemma sublist_reverse {A} (l1 l2 : list A) :
  l1 `sublist_of` l2 → reverse l1 `sublist_of` reverse l2.
Proof.
  induction 1 as [|x l1 l2 _ IH|x l1 l2 _ IH].
  - done.
  - rewrite !reverse_cons. by apply sublist_app.
  - rewrite reverse_cons. by apply sublist_inserts_r.
Qed.

Lemma remove_from_end_rev_sublist (i : Suit * Rank) (count removed : Z)
    (l : list Card) :
  remove_from_end_rev i count removed l `sublist_of` l.
Proof.
  revert removed. induction l as [|c l IH]; intros removed; simpl; [done|].
  destruct (removed <? count); [|done].
  destruct (decide (cardId c = i)).
  - by apply sublist_cons.
  - by apply sublist_skip.
Qed.

Lemma remove_from_end_rev_other (i j : Suit * Rank) (count removed : Z)
    (l : list Card) :
  j ≠ i →
  filter (λ c, cardId c = j) (remove_from_end_rev i count removed l)
  = filter (λ c, cardId c = j) l.
Proof.
  intros Hne. revert removed.
  induction l as [|c l IH]; intros removed; simpl; [done|].
  destruct (removed <? count); [|done].
  destruct (decide (cardId c = i)) as [Hc|Hc].
  - rewrite IH, (filter_cons _ c). by rewrite decide_False by congruence.
  - by rewrite !filter_cons, IH.
Qed.

Lemma remove_from_end_rev_count (i : Suit * Rank) (count removed : Z)
    (l : list Card) :
  id_count i (remove_from_end_rev i count removed l)
  = id_count i l - Z.min (Z.max 0 (count - removed)) (id_count i l).
Proof.
  unfold id_count. revert removed.
  induction l as [|c l IH]; intros removed; cbn [remove_from_end_rev].
  { rewrite filter_nil. simpl. lia. }
  destruct (removed <? count) eqn:Hlt.
  - apply Z.ltb_lt in Hlt.
    destruct (decide (cardId c = i)) as [Hc|Hc].
    + rewrite IH, (filter_cons _ c), decide_True by done. cbn [length]. lia.
    + rewrite !filter_cons, !decide_False by done. rewrite IH. lia.
  - apply Z.ltb_ge in Hlt. lia.
Qed.

(** One round of the outer loop of [removeCards]. *)
Lemma remove_step_count (i j : Suit * Rank) (count : Z) (l : list Card) :
  id_count j (reverse (remove_from_end_rev i count 0 (reverse l)))
  = if decide (j = i)
    then id_count i l - Z.min (Z.max 0 count) (id_count i l)
    else id_count j l.
Proof.
  assert (∀ k m, id_count k (reverse m) = id_count k m) as Hrev.
  { intros k m. unfold id_count. by rewrite filter_reverse, length_reverse. }
  rewrite Hrev. destruct (decide (j = i)) as [->|Hne].
  - rewrite remove_from_end_rev_count, Hrev. by rewrite Z.sub_0_r.
  - unfold id_count. rewrite remove_from_end_rev_other by done.
    apply Hrev.
Qed.

Lemma remove_loop_count (m : JsMap (Suit * Rank) Z) (hand : list Card)
    (j : Suit * Rank) :
  NoDup (jsmap_keys m) →
  id_count j
    (foldl (λ result '(cardId0, count),
              reverse (remove_from_end_rev cardId0 count 0 (reverse result)))
           hand m)
  = id_count j hand
    - Z.min (Z.max 0 (default 0 (jsmap_get m j))) (id_count j hand).
Proof.
  unfold jsmap_keys. revert hand.
  induction m as [|[i count] m IH]; intros hand Hnd.
  - simpl. pose proof (id_count_nonneg j hand). lia.
  - rewrite fmap_cons in Hnd. apply NoDup_cons in Hnd as [Hi Hnd].
    cbn [foldl]. rewrite IH by done. rewrite remove_step_count.
    cbn [jsmap_get].
    pose proof (id_count_nonneg j hand).
    destruct (decide (j = i)) as [->|Hne].
    + apply (proj2 (jsmap_get_None m i)) in Hi. rewrite Hi. simpl. lia.
    + done.
Qed.

Lemma remove_loop_sublist (m : JsMap (Suit * Rank) Z) (hand : list Card) :
  foldl (λ result '(cardId0, count),
           reverse (remove_from_end_rev cardId0 count 0 (reverse result)))
        hand m
  `sublist_of` hand.
Proof.
  revert hand. induction m as [|[i count] m IH]; intros hand; [done|].
  cbn [foldl]. etrans; [apply IH|].
  rewrite <- (reverse_involutive hand) at 2.
  apply sublist_reverse, remove_from_end_rev_sublist.
Qed.

Lemma removeCards_counts_aux (hand cards : list Card) :
  removeCards hand cards `sublist_of` hand
  ∧ ∀ i, id_count i (removeCards hand cards)
         = Z.max 0 (id_count i hand - id_count i cards).
Proof.
  unfold removeCards. split; [apply remove_loop_sublist|]. intros i.
  rewrite remove_loop_count by apply idCounts_NoDup.
  rewrite idCounts_get, <- id_count_occ.
  pose proof (id_count_nonneg i hand).
  pose proof (id_count_nonneg i cards).
  case_decide as Hzero; simpl; lia.
Qed.

(** X4: [removeCards] takes out of the hand, for each identity, as many
    cards as are asked for, or all of them when the hand has fewer; the
    cards that stay keep their order. *)
Theorem removeCards_counts (hand cards : list Card) :
  removeCards hand cards `sublist_of` hand
  ∧ ∀ i, id_count i (removeCards hand cards)
         = Z.max 0 (id_count i hand - id_count i cards).
Proof. apply removeCards_counts_aux. Qed.

Lemma id_count_count_occ (i : Suit * Rank) (cards : list Card) :
  count_occ (λ x y, decide (x = y)) (cardId <$> cards) i
  = Z.to_nat (id_count i cards).
Proof.
  unfold id_count. rewrite Nat2Z.id.
  induction cards as [|c cards IH]; [done|].
  rewrite fmap_cons, filter_cons. cbn [count_occ].
  destruct (decide (cardId c = i)); cbn [length]; by rewrite IH.
Qed.

Lemma id_count_app (i : Suit * Rank) (l1 l2 : list Card) :
  id_count i (l1 ++ l2) = id_count i l1 + id_count i l2.
Proof. unfold id_count. rewrite filter_app, length_app. lia. Qed.

Lemma removeCards_partition_aux (hand cards : list Card) :
  hasCards hand cards = true →
  cardId <$> hand ≡ₚ (cardId <$> cards) ++ (cardId <$> removeCards hand cards)
  ∧ (length (removeCards hand cards) + length cards = length hand)%nat.
Proof.
  intros Hhas.
  assert (cardId <$> hand
          ≡ₚ (cardId <$> cards) ++ (cardId <$> removeCards hand cards))
    as Hperm.
  { rewrite <- fmap_app.
    apply (Permutation_count_occ (λ x y, decide (x = y))). intros i.
    rewrite !id_count_count_occ, id_count_app.
    rewrite (proj2 (removeCards_counts_aux hand cards) i).
    pose proof (proj1 (hasCards_counts_aux hand cards) Hhas i). lia. }
  split; [done|].
  apply Permutation_length in Hperm.
  rewrite length_app, !length_fmap in Hperm. lia.
Qed.

(** X5: when [hasCards] holds, the hand is, identity for identity, the
    cards taken out plus the cards that stay, and the hand shrinks by
    the number of cards asked for. *)
Theorem removeCards_partition (hand cards : list Card) :
  hasCards hand cards = true →
  cardId <$> hand ≡ₚ (cardId <$> cards) ++ (cardId <$> removeCards hand cards)
  ∧ (length (removeCards hand cards) + length cards = length hand)%nat.
Proof. apply removeCards_partition_aux. Qed.

Lemma removeCards_partition_witness :
  let hand := [card SPADE THREE; card HEART THREE; card SPADE FOUR] in
  let cards := [card HEART THREE] in
  cardId <$> hand ≡ₚ (cardId <$> cards) ++ (cardId <$> removeCards hand cards)
  ∧ (length (removeCards hand cards) + length cards = length hand)%nat.
Proof.
  intros hand cards. apply removeCards_partition. reflexivity.
Defined.

(** *** One card *)

Lemma recognizePattern_single (c : Card) :
  pat_type (recognizePattern [c]) = SINGLE.
Proof. done. Qed.

(** X20: printing a list of deck cards and parsing the tokens back gives
    the list itself: nothing is dropped and the order is kept. *)
Theorem stringsToCards_cardsToStrings (cs : list Card) :
  Forall deck_card cs → stringsToCards (cardsToStrings cs) = cs.
Proof.
  intros Hdeck. unfold stringsToCards. rewrite stringsToCards_loop.
  unfold cardsToStrings. simpl.
  induction Hdeck as [|c cs Hc _ IH]; [done|].
  csimpl. destruct c as [s r v]. destruct Hc as [Hv Hj].
  simpl in Hv, Hj. subst v.
  assert (stringToCard (cardToString (mkCard s r (RANK_VALUES r)))
          = Some (mkCard s r (RANK_VALUES r))) as ->; [|by rewrite IH].
  destruct s, r; try reflexivity;
    exfalso; (try (destruct Hj as [Hj _]; specialize (Hj eq_refl);
                   destruct Hj; discriminate));
    (destruct Hj as [_ Hj]; discriminate Hj; auto).
Qed.

Lemma stringsToCards_cardsToStrings_witness :
  stringsToCards (cardsToStrings [card HEART TEN; card JOKER BIG_JOKER])
  = [card HEART TEN; card JOKER BIG_JOKER].
Proof.
  apply stringsToCards_cardsToStrings.
  repeat constructor; try discriminate; intros [?|?]; discriminate.
Defined.

(** ** The order of the patterns *)

Lemma compare_values_swap (v1 v2 : Z) :
  compare_values v2 v1 = - compare_values v1 v2.
Proof. unfold compare_values. repeat case_match; lia. Qed.

(** X21: [comparePatterns] is antisymmetric: unless both patterns are
    Rockets, exchanging the two arguments negates the result, and keeps a
    [null]; so of two patterns at most one beats the other. *)
Theorem comparePatterns_swap (pattern1 pattern2 : CardPattern) :
  ¬ (pat_type pattern1 = ROCKET ∧ pat_type pattern2 = ROCKET) →
  comparePatterns pattern2 pattern1 = Z.opp <$> comparePatterns pattern1 pattern2
  ∧ ¬ (canBeat pattern1 pattern2 = true ∧ canBeat pattern2 pattern1 = true).
Proof.
  intros Hrockets.
  assert (comparePatterns pattern2 pattern1
          = Z.opp <$> comparePatterns pattern1 pattern2) as Hswap.
  { unfold comparePatterns.
    destruct pattern1 as [t1 v1 n1 cs1], pattern2 as [t2 v2 n2 cs2].
    simpl in *.
    destruct (decide (t1 = t2)) as [<-|Hne].
    - destruct (variable_length t1) eqn:Hvar; simpl;
        repeat case_decide; try case_bool_decide; simpl;
        rewrite ?(compare_values_swap v1 v2);
        try done; try tauto; try congruence.
    - repeat case_decide; simpl; try done; try tauto; try congruence.
      all: destruct_and?; congruence. }
  split; [done|].
  unfold canBeat. rewrite !bool_decide_eq_true, Hswap.
  intros [-> H2]. done.
Qed.

Lemma comparePatterns_swap_witness :
  comparePatterns (bomb_of THREE) (bomb_of KING) = Some (-1)
  ∧ comparePatterns (bomb_of KING) (bomb_of THREE) = Some 1.
Proof.
  destruct (comparePatterns_swap (bomb_of THREE) (bomb_of KING)) as [Hswap _].
  { intros [Hr _]. vm_compute in Hr. discriminate. }
  split; [reflexivity|]. rewrite Hswap. reflexivity.
Defined.

(** When [dominates] holds, in three cases. *)
Lemma dominates_true (challenger incumbent : CardPattern) :
  dominates challenger incumbent = true
  ↔ pat_type challenger = ROCKET
    ∨ (pat_type challenger = BOMB ∧ pat_type incumbent ≠ BOMB
       ∧ pat_type incumbent ≠ ROCKET)
    ∨ (pat_type challenger ≠ ROCKET
       ∧ pat_type challenger = pat_type incumbent
       ∧ (variable_length (pat_type challenger) = true
          → pat_length challenger = pat_length incumbent)
       ∧ pat_value incumbent < pat_value challenger).
Proof.
  unfold dominates.
  destruct (decide (pat_type challenger = ROCKET)) as [Hr|Hr];
    [split; [by left|done]|].
  destruct (decide (pat_type challenger = BOMB
                    ∧ pat_type incumbent ≠ BOMB
                    ∧ pat_type incumbent ≠ ROCKET)) as [Hb|Hb];
    [split; [by right; left|done]|].
  destruct (decide (pat_type challenger = BOMB ∧ pat_type incumbent = BOMB))
    as [[Hb1 Hb2]|Hbb]; rewrite bool_decide_eq_true.
  - split.
    + intros Hlt. right; right. repeat split; try done.
      * congruence.
      * rewrite Hb1. done.
    + intros [?|[?|(_ & _ & _ & Hlt)]]; done.
  - rewrite <- variable_length_run_shapes. split.
    + intros (Heq & Hlen & Hlt). right; right. done.
    + intros [?|[?|(_ & Heq & Hlen & Hlt)]]; done.
Qed.

(** X22: beating is transitive: a pattern that beats a pattern that beats
    a third one beats the third. *)
Theorem canBeat_transitive (pattern1 pattern2 pattern3 : CardPattern) :
  canBeat pattern1 pattern2 = true → canBeat pattern2 pattern3 = true →
  canBeat pattern1 pattern3 = true.
Proof.
  rewrite !canBeat_unfold, !dominates_true.
  intros [H12|[(Hb1 & Hnb2 & Hnr2)|(Hnr1 & Heq12 & Hlen12 & Hlt12)]] H23;
    [by left| |].
  - destruct H23 as [H23|[(Hb2 & _)|(_ & Heq23 & _)]]; [done..|].
    right; left. rewrite <- Heq23. done.
  - destruct H23 as [H23|[(Hb2 & Hnb3 & Hnr3)|(Hnr2 & Heq23 & Hlen23 & Hlt23)]].
    + congruence.
    + right; left. rewrite Heq12. done.
    + right; right. split; [done|]. split; [congruence|].
      split; [|lia].
      intros Hvar. rewrite Hlen12 by done. apply Hlen23. by rewrite <- Heq12.
Qed.

Lemma canBeat_transitive_witness :
  canBeat the_rocket
    (recognizePattern [card SPADE THREE; card HEART THREE]) = true.
Proof.
  apply (canBeat_transitive _ (bomb_of THREE)); reflexivity.
Defined.

(** ** The recogniser does not look at the order of the cards *)

Lemma countCards_values (a b : list Card) :
  value <$> a = value <$> b → countCards a = countCards b.
Proof.
  intros Hvals. unfold countCards.
  rewrite <- !(foldl_fmap (λ counts v,
                 jsmap_set counts v (default 0 (jsmap_get counts v) + 1))
                [] _ value).
  by rewrite Hvals.
Qed.

Lemma sortCards_values (a b : list Card) :
  a ≡ₚ b → value <$> sortCards a = value <$> sortCards b.
Proof.
  intros Hperm. apply (Sorted_unique Z.le).
  - apply (Sorted_fmap _ value_le); [done|apply sortCards_sorted].
  - apply (Sorted_fmap _ value_le); [done|apply sortCards_sorted].
  - by rewrite !sortCards_perm, Hperm.
Qed.

Lemma deck_card_rank (c : Card) (r : Rank) :
  deck_card c → rank c = r ↔ value c = RANK_VALUES r.
Proof.
  intros [Hv _]. rewrite Hv.
  split; [by intros ->|]. by destruct (rank c), r.
Qed.

Lemma isRocket_values (a b : list Card) (ca cb : JsMap Z Z) :
  Forall deck_card a → Forall deck_card b →
  value <$> a = value <$> b → isRocket a ca = isRocket b cb.
Proof.
  intros Ha Hb Hvals.
  destruct a as [|a0 [|a1 [|a2 a]]], b as [|b0 [|b1 [|b2 b]]];
    try done.
  injection Hvals as H0 H1.
  apply Forall_cons in Ha as [Ha0 Ha]. apply Forall_cons in Ha as [Ha1 _].
  apply Forall_cons in Hb as [Hb0 Hb]. apply Forall_cons in Hb as [Hb1 _].
  unfold isRocket. f_equal; apply bool_decide_ext.
  - by rewrite !deck_card_rank, H0.
  - by rewrite !deck_card_rank, H1.
Qed.

(** X23: the recogniser does not look at the order in which deck cards
    are given: two arrangements of the same cards get the same type,
    value and length, and the cards recorded in the two patterns are
    arrangements of each other. *)
Theorem recognizePattern_order (a b : list Card) :
  Forall deck_card a → a ≡ₚ b →
  pat_type (recognizePattern a) = pat_type (recognizePattern b)
  ∧ pat_value (recognizePattern a) = pat_value (recognizePattern b)
  ∧ pat_length (recognizePattern a) = pat_length (recognizePattern b)
  ∧ pat_cards (recognizePattern a) ≡ₚ pat_cards (recognizePattern b).
Proof.
  intros Hdeck Hperm.
  assert (pat_cards (recognizePattern a) ≡ₚ pat_cards (recognizePattern b))
    as Hcards.
  { assert (∀ l, pat_cards (recognizePattern l) ≡ₚ l) as Hl.
    { intros l. unfold recognizePattern, run_pattern.
      repeat case_match; simpl; try done; apply sortCards_perm. }
    by rewrite !Hl. }
  cut (pat_type (recognizePattern a) = pat_type (recognizePattern b)
       ∧ pat_value (recognizePattern a) = pat_value (recognizePattern b)
       ∧ pat_length (recognizePattern a) = pat_length (recognizePattern b));
    [by intros (? & ? & ?)|].
  clear Hcards.
  destruct (decide (length a = 1%nat)) as [Hone|Hmore].
  - destruct a as [|c [|]]; try done.
    apply Permutation_singleton_l in Hperm. by subst b.
  - assert (length b ≠ 1%nat) as Hmore' by (by rewrite <- Hperm).
    pose proof (sortCards_values a b Hperm) as Hvals.
    assert (isRocket (sortCards a) (countCards (sortCards a))
            = isRocket (sortCards b) (countCards (sortCards b))) as Hrocket.
    { apply isRocket_values; [| |done].
      - by rewrite sortCards_perm.
      - by rewrite sortCards_perm, <- Hperm. }
    unfold recognizePattern, run_pattern.
    rewrite Hrocket, (countCards_values _ _ Hvals).
    rewrite (Permutation_length Hperm). clear Hrocket.
    destruct (decide (length b = 0%nat)); [by repeat split|].
    destruct (isRocket _ _); [by repeat split|].
    destruct (isBomb _); [by repeat split|].
    destruct (decide (length b = 1%nat)); [done|].
    destruct (isPair _); [by repeat split|].
    destruct (isTrio _); [by repeat split|].
    destruct (isTrioSingle _); [by repeat split|].
    destruct (isTrioPair _); [by repeat split|].
    destruct (isStraight _ _); [by repeat split|].
    destruct (isPairStraight _ _); [by repeat split|].
    destruct (isTrioStraight _ _); [by repeat split|].
    destruct (isTrioStraightSingle _ _); [by repeat split|].
    destruct (isTrioStraightPair _ _); [by repeat split|].
    destruct (isFourDualSingle _); [by repeat split|].
    destruct (isFourDualPair _); by repeat split.
Qed.

Lemma recognizePattern_order_witness :
  pat_type (recognizePattern [card HEART FOUR; card SPADE THREE;
                              card CLUB FOUR; card DIAMOND FOUR]) = TRIO_SINGLE.
Proof.
  destruct (recognizePattern_order
              [card SPADE THREE; card HEART FOUR; card CLUB FOUR;
               card DIAMOND FOUR]
              [card HEART FOUR; card SPADE THREE; card CLUB FOUR;
               card DIAMOND FOUR]) as (Htype & _).
  - repeat constructor; try discriminate; intros [?|?]; discriminate.
  - apply Permutation_swap.
  - rewrite <- Htype. reflexivity.
Defined.

(** ** How many cards a pattern stands for *)

Lemma sum_list_perm (l1 l2 : list Z) :
  l1 ≡ₚ l2 → sum_list l1 = sum_list l2.
Proof.
  unfold sum_list. induction 1; simpl; lia.
Qed.

Lemma sum_list_const (n : Z) (l : list Z) :
  Forall (λ x, x = n) l → sum_list l = n * Z.of_nat (length l).
Proof.
  unfold sum_list. induction 1 as [|x l -> _ IH]; simpl; lia.
Qed.

Lemma sum_counts_set (m : JsMap Z Z) (k : Z) :
  sum_counts (jsmap_set m k (default 0 (jsmap_get m k) + 1))
  = sum_counts m + 1.
Proof.
  unfold sum_counts, sum_list, jsmap_values.
  induction m as [|[k' v'] m IH]; [done|].
  cbn [jsmap_set jsmap_get].
  destruct (decide (k = k')) as [->|Hne]; csimpl; lia.
Qed.

Lemma countCards_total (cards : list Card) :
  sum_counts (countCards cards) = Z.of_nat (length cards).
Proof.
  unfold countCards.
  cut (∀ acc,
         sum_counts (foldl (λ counts card,
                              jsmap_set counts (value card)
                                (default 0 (jsmap_get counts (value card))
                                 + 1)) acc cards)
         = sum_counts acc + Z.of_nat (length cards)).
  { intros H. by rewrite H. }
  induction cards as [|c cards IH]; intros acc; cbn [foldl length].
  - lia.
  - rewrite IH, sum_counts_set. lia.
Qed.

(** The counts of a map with distinct keys, read key by key. *)
Lemma sum_counts_keys (counts : JsMap Z Z) :
  NoDup (jsmap_keys counts) →
  sum_counts counts
  = sum_list ((λ k, default 0 (jsmap_get counts k)) <$> jsmap_keys counts).
Proof.
  unfold sum_counts, sum_list, jsmap_values, jsmap_keys.
  induction counts as [|[k v] m IH]; [done|].
  rewrite fmap_cons. intros [Hk Hnd]%NoDup_cons. csimpl.
  rewrite decide_True by done. rewrite IH by done. simpl. f_equal.
  f_equal. apply Forall_fmap_ext_1. apply Forall_forall. intros k' Hk'.
  rewrite decide_False; [done|]. intros ->. done.
Qed.

Lemma all_counts_sum (n : Z) (us : list Z) (counts : JsMap Z Z) :
  NoDup (jsmap_keys counts) → us ≡ₚ jsmap_keys counts →
  all_counts n us counts = true →
  sum_counts counts = n * Z.of_nat (length us).
Proof.
  intros Hnd Hperm Hall. rewrite all_counts_true in Hall.
  rewrite sum_counts_keys by done.
  rewrite <- (sum_list_perm _ _ (fmap_Permutation _ _ _ Hperm)).
  rewrite (sum_list_const n), length_fmap; [done|].
  apply Forall_fmap. eapply Forall_impl; [exact Hall|].
  intros k Hk. simpl. by rewrite Hk.
Qed.

Lemma split_trios_sum (wing : Z) (counts : JsMap Z Z) (us t w t' w' : list Z) :
  split_trios wing us counts t w = Some (t', w') →
  sum_list ((λ k, default 0 (jsmap_get counts k)) <$> us)
  = 3 * (Z.of_nat (length t') - Z.of_nat (length t))
    + wing * (Z.of_nat (length w') - Z.of_nat (length w)).
Proof.
  revert t w. induction us as [|v us IH]; intros t w Hsplit.
  - injection Hsplit as <- <-. unfold sum_list. simpl. lia.
  - cbn [split_trios] in Hsplit. rewrite fmap_cons.
    unfold sum_list in *. cbn [foldr].
    destruct (decide (jsmap_get counts v = Some 3)) as [H3|H3].
    + rewrite (IH _ _ Hsplit), H3, length_app. simpl. lia.
    + destruct (decide (jsmap_get counts v = Some wing)) as [Hw|Hw]; [|done].
      rewrite (IH _ _ Hsplit), Hw, length_app. simpl. lia.
Qed.

Lemma airplane_with_sum (wing : Z) (us : list Z) (counts : JsMap Z Z)
    (r : Z * Z) :
  NoDup (jsmap_keys counts) → us ≡ₚ jsmap_keys counts →
  airplane_with wing us counts = Some r →
  sum_counts counts = (3 + wing) * r.2.
Proof.
  intros Hnd Hperm. unfold airplane_with.
  destruct (split_trios wing us counts [] []) as [[t w]|] eqn:Hsplit; [|done].
  apply split_trios_sum in Hsplit.
  repeat case_decide; try done. case_match; try done. case_match; try done.
  intros [= <-]. cbn [snd].
  rewrite sum_counts_keys by done.
  rewrite <- (sum_list_perm _ _ (fmap_Permutation _ _ _ Hperm)), Hsplit.
  rewrite sort_asc_perm. simpl. lia.
Qed.

Lemma one_count_sum (n : Z) (counts : JsMap Z Z) :
  jsmap_size counts = 1%nat → head (jsmap_values counts) = Some n →
  sum_counts counts = n.
Proof.
  destruct counts as [|[k v] [|]]; try done.
  intros _ [= <-]. unfold sum_counts, sum_list. simpl. lia.
Qed.

Lemma sort_desc_perm (l : list Z) : sort_desc l ≡ₚ l.
Proof.
  unfold sort_desc, js_sort. induction l as [|x l IH]; [done|].
  cbn [foldr]. rewrite <- IH at 2.
  generalize (foldr (insert_by (λ a b, b - a)) [] l). clear.
  intros l. induction l as [|y l IH]; simpl; [done|].
  case_match; [|done]. rewrite IH. apply Permutation_swap.
Qed.

Lemma sort_desc_sum (l : list Z) : sum_list (sort_desc l) = sum_list l.
Proof. apply sum_list_perm, sort_desc_perm. Qed.

Lemma two_counts_sum (n1 n2 : Z) (counts : JsMap Z Z) :
  jsmap_size counts = 2%nat →
  sort_desc (jsmap_values counts) !! 0%nat = Some n1 →
  sort_desc (jsmap_values counts) !! 1%nat = Some n2 →
  sum_counts counts = n1 + n2.
Proof.
  intros Hsize H1 H2. unfold sum_counts. rewrite <- sort_desc_sum.
  assert (length (sort_desc (jsmap_values counts)) = 2%nat) as Hlen.
  { rewrite sort_desc_perm. unfold jsmap_values. by rewrite length_fmap. }
  destruct (sort_desc (jsmap_values counts)) as [|x1 [|x2 [|]]]; try done.
  simpl in H1, H2. simplify_eq. unfold sum_list. simpl. lia.
Qed.

Lemma three_counts_sum (n1 n2 n3 : Z) (counts : JsMap Z Z) :
  jsmap_size counts = 3%nat →
  sort_desc (jsmap_values counts) !! 0%nat = Some n1 →
  sort_desc (jsmap_values counts) !! 1%nat = Some n2 →
  sort_desc (jsmap_values counts) !! 2%nat = Some n3 →
  sum_counts counts = n1 + n2 + n3.
Proof.
  intros Hsize H1 H2 H3. unfold sum_counts. rewrite <- sort_desc_sum.
  assert (length (sort_desc (jsmap_values counts)) = 3%nat) as Hlen.
  { rewrite sort_desc_perm. unfold jsmap_values. by rewrite length_fmap. }
  destruct (sort_desc (jsmap_values counts)) as [|x1 [|x2 [|x3 [|]]]];
    try done.
  simpl in H1, H2, H3. simplify_eq. unfold sum_list. simpl. lia.
Qed.

Lemma run_sum (n k : Z) (us : list Z) (counts : JsMap Z Z) (r : Z * Z) :
  NoDup (jsmap_keys counts) → us ≡ₚ jsmap_keys counts →
  (if decide (length us < Z.to_nat k)%nat then None
   else if some_ge_15 us then None
   else if negb (all_counts n us counts) then None
   else if negb (consecutive us) then None
   else Some (first us, Z.of_nat (length us))) = Some r →
  sum_counts counts = n * r.2.
Proof.
  intros Hnd Hperm Hrun.
  case_decide; [done|]. destruct (some_ge_15 us); [done|].
  destruct (all_counts n us counts) eqn:Hall; [|done].
  destruct (consecutive us); [|done].
  injection Hrun as <-. cbn [snd]. by apply all_counts_sum.
Qed.

(** The literal lengths of the types of fixed size. *)
Lemma pat_length_fixed (cards : list Card) :
  match pat_type (recognizePattern cards) with
  | INVALID => pat_value (recognizePattern cards) = 0
  | SINGLE => pat_length (recognizePattern cards) = 1
  | PAIR | ROCKET => pat_length (recognizePattern cards) = 2
  | TRIO => pat_length (recognizePattern cards) = 3
  | TRIO_SINGLE | BOMB => pat_length (recognizePattern cards) = 4
  | TRIO_PAIR => pat_length (recognizePattern cards) = 5
  | FOUR_DUAL_SINGLE => pat_length (recognizePattern cards) = 6
  | FOUR_DUAL_PAIR => pat_length (recognizePattern cards) = 8
  | _ => True
  end.
Proof.
  unfold recognizePattern, run_pattern. repeat case_match; done.
Qed.

Lemma pattern_card_count_aux (cards : list Card) :
  pat_type (recognizePattern cards) ≠ INVALID →
  Z.of_nat (length cards)
  = cards_per_length (pat_type (recognizePattern cards))
    * pat_length (recognizePattern cards).
Proof.
  rewrite <- (sortCards_length cards) at 1.
  rewrite <- (countCards_total (sortCards cards)).
  pose proof (countCards_keys_NoDup (sortCards cards)) as Hnd.
  pose proof (sort_asc_perm (jsmap_keys (countCards (sortCards cards))))
    as Hperm.
  unfold recognizePattern, run_pattern.
  set (sorted := sortCards cards) in *.
  set (counts := countCards sorted) in *.
  set (us := sort_asc (jsmap_keys counts)) in *.
  destruct (decide (length cards = 0%nat)); [done|].
  destruct (isRocket sorted counts) eqn:Hrocket.
  { intros _. cbn. unfold counts. rewrite countCards_total.
    unfold isRocket in Hrocket. by destruct sorted as [|? [|? [|]]]. }
  destruct (isBomb counts) eqn:Hbomb.
  { intros _. cbn. unfold isBomb in Hbomb. case_decide as Hsize; [done|]. apply bool_decide_eq_true in Hbomb.
    rewrite (one_count_sum 4) by done. done. }
  destruct (decide (length cards = 1%nat)) as [Hone|_].
  { intros _. cbn. unfold counts, sorted.
    rewrite countCards_total, sortCards_length, Hone. done. }
  destruct (isPair counts) eqn:Hpair.
  { intros _. cbn. unfold isPair in Hpair. case_decide as Hsize; [done|]. apply bool_decide_eq_true in Hpair.
    rewrite (one_count_sum 2) by done. done. }
  destruct (isTrio counts) eqn:Htrio.
  { intros _. cbn. unfold isTrio in Htrio. case_decide as Hsize; [done|]. apply bool_decide_eq_true in Htrio.
    rewrite (one_count_sum 3) by done. done. }
  destruct (isTrioSingle counts) eqn:Hts.
  { intros _. cbn. unfold isTrioSingle in Hts. case_decide as Hsize; [done|].
    apply andb_true_iff in Hts as [H1%bool_decide_eq_true
                                   H2%bool_decide_eq_true].
    rewrite (two_counts_sum 3 1) by done. done. }
  destruct (isTrioPair counts) eqn:Htp.
  { intros _. cbn. unfold isTrioPair in Htp. case_decide as Hsize; [done|].
    apply andb_true_iff in Htp as [H1%bool_decide_eq_true
                                   H2%bool_decide_eq_true].
    rewrite (two_counts_sum 3 2) by done. done. }
  destruct (isStraight us counts) as [r|] eqn:Hs.
  { intros _. cbn. by rewrite (run_sum 1 5 us counts r). }
  destruct (isPairStraight us counts) as [r|] eqn:Hps.
  { intros _. cbn. by rewrite (run_sum 2 3 us counts r). }
  destruct (isTrioStraight us counts) as [r|] eqn:Hts3.
  { intros _. cbn. by rewrite (run_sum 3 2 us counts r). }
  destruct (isTrioStraightSingle us counts) as [r|] eqn:Htss.
  { intros _. cbn. by rewrite (airplane_with_sum 1 us counts r). }
  destruct (isTrioStraightPair us counts) as [r|] eqn:Htsp.
  { intros _. cbn. by rewrite (airplane_with_sum 2 us counts r). }
  destruct (isFourDualSingle counts) eqn:Hfs.
  { intros _. cbn. unfold isFourDualSingle in Hfs.
    case_decide as Hsize; [done|].
    apply andb_true_iff in Hfs as [[H1%bool_decide_eq_true
                                    H2%bool_decide_eq_true]%andb_true_iff
                                   H3%bool_decide_eq_true].
    rewrite (three_counts_sum 4 1 1) by done. done. }
  destruct (isFourDualPair counts) eqn:Hfp; [|done].
  intros _. cbn. unfold isFourDualPair in Hfp.
  case_decide as Hsize; [done|].
  apply andb_true_iff in Hfp as [[H1%bool_decide_eq_true
                                  H2%bool_decide_eq_true]%andb_true_iff
                                 H3%bool_decide_eq_true].
  rewrite (three_counts_sum 4 2 2) by done. done.
Qed.

(** X24: a valid pattern accounts for every card given: the number of
    cards is [pat_length] times the cards per unit of the type (2, 3, 4
    and 5 for the runs of pairs, of trios, of trios with single wings and
    of trios with pair wings, which count their groups; 1 for every
    other type). *)
Theorem pattern_card_count (cards : list Card) :
  pat_type (recognizePattern cards) ≠ INVALID →
  Z.of_nat (length cards)
  = cards_per_length (pat_type (recognizePattern cards))
    * pat_length (recognizePattern cards).
Proof. apply pattern_card_count_aux. Qed.

Lemma pattern_card_count_witness :
  let cards := [card SPADE THREE; card HEART THREE; card SPADE FOUR;
                card HEART FOUR; card SPADE FIVE; card HEART FIVE] in
  pat_type (recognizePattern cards) = PAIR_STRAIGHT
  ∧ pat_length (recognizePattern cards) = 3
  ∧ Z.of_nat (length cards)
    = cards_per_length (pat_type (recognizePattern cards))
      * pat_length (recognizePattern cards).
Proof.
  intros cards. split; [reflexivity|]. split; [reflexivity|].
  apply pattern_card_count. vm_compute. discriminate.
Defined.

(** X25: short of a Bomb or a Rocket, cards are beaten only by as many
    cards: when the pattern of one list of cards beats the pattern of
    another and is neither a Bomb nor a Rocket, the two lists have the
    same number of cards. *)
Theorem canBeat_same_count (cards1 cards2 : list Card) :
  canBeat (recognizePattern cards1) (recognizePattern cards2) = true →
  pat_type (recognizePattern cards1) ≠ ROCKET →
  pat_type (recognizePattern cards1) ≠ BOMB →
  length cards1 = length cards2.
Proof.
  rewrite canBeat_unfold, dominates_true.
  intros [?|[[? _]|(_ & Htype & Hlen & Hlt)]] Hnr Hnb; [done..|].
  pose proof (pat_length_fixed cards1) as Hf1.
  pose proof (pat_length_fixed cards2) as Hf2.
  assert (pat_type (recognizePattern cards1) ≠ INVALID) as Hv1.
  { intros Hinv. rewrite <- Htype, Hinv in Hf2. rewrite Hinv in Hf1. lia. }
  assert (pat_type (recognizePattern cards2) ≠ INVALID) as Hv2
    by (by rewrite <- Htype).
  pose proof (pattern_card_count_aux cards1 Hv1) as Hc1.
  pose proof (pattern_card_count_aux cards2 Hv2) as Hc2.
  rewrite <- Htype in Hc2, Hf2.
  apply Nat2Z.inj. rewrite Hc1, Hc2.
  destruct (pat_type (recognizePattern cards1)); cbn in *;
    try specialize (Hlen eq_refl); try done; lia.
Qed.

Lemma canBeat_same_count_witness :
  length [card SPADE FOUR; card HEART FOUR]
  = length [card SPADE THREE; card HEART THREE].
Proof.
  apply canBeat_same_count; [reflexivity|vm_compute; discriminate..].
Defined.

(** ** Cards of one rank *)

Lemma countCards_one_value (v : Z) (cards : list Card) :
  cards ≠ [] → Forall (λ c, value c = v) cards →
  countCards cards = [(v, Z.of_nat (length cards))].
Proof.
  intros Hne Hall. unfold countCards.
  destruct Hall as [|c cards Hc Hall]; [done|]. clear Hne.
  cbn [foldl jsmap_set jsmap_get default]. rewrite Hc.
  cut (∀ m, foldl (λ counts card,
                     jsmap_set counts (value card)
                       (default 0 (jsmap_get counts (value card)) + 1))
              [(v, m)] cards
            = [(v, m + Z.of_nat (length cards))]).
  { intros ->. f_equal. f_equal. cbn [length]. lia. }
  induction Hall as [|c' cards Hc' _ IH]; intros m; cbn [foldl length].
  - f_equal. f_equal. lia.
  - rewrite Hc'. cbn [jsmap_set jsmap_get]. rewrite !decide_True by done.
    rewrite IH. f_equal. f_equal.
    change (default 0 (Some m)) with m. lia.
Qed.

(** X26: deck cards of one rank: one card is a Single, two are a Pair,
    three a Trio and four a Bomb, each with the value of the rank, and
    five or more are no pattern. *)
Theorem recognizePattern_one_rank (v : Z) (cards : list Card) :
  Forall deck_card cards → Forall (λ c, value c = v) cards →
  pat_type (recognizePattern cards)
  = match length cards with
    | 1 => SINGLE | 2 => PAIR | 3 => TRIO | 4 => BOMB | _ => INVALID
    end%nat
  ∧ (pat_type (recognizePattern cards) ≠ INVALID →
     pat_value (recognizePattern cards) = v).
Proof.
  intros Hdeck Hall.
  destruct (decide (cards = [])) as [->|Hne]; [done|].
  assert (Forall deck_card (sortCards cards)) as Hdeck'
    by (by rewrite sortCards_perm).
  assert (Forall (λ c, value c = v) (sortCards cards)) as Hall'
    by (by rewrite sortCards_perm).
  assert (sortCards cards ≠ []) as Hne'.
  { intros Hnil. apply (f_equal length) in Hnil.
    rewrite sortCards_length in Hnil. by destruct cards. }
  pose proof (countCards_one_value v _ Hne' Hall') as Hcounts.
  rewrite sortCards_length in Hcounts.
  assert (isRocket (sortCards cards) (countCards (sortCards cards)) = false)
    as Hrocket.
  { unfold isRocket.
    destruct (sortCards cards) as [|c0 [|c1 [|]]]; try done.
    apply Forall_cons in Hdeck' as [Hd0 [Hd1 _]%Forall_cons].
    apply Forall_cons in Hall' as [Hv0 [Hv1 _]%Forall_cons].
    apply andb_false_iff. rewrite !bool_decide_eq_false.
    rewrite !deck_card_rank, Hv0, Hv1 by done. cbn [RANK_VALUES].
    destruct (decide (v = 16)); [right|left]; lia. }
  unfold recognizePattern. rewrite Hrocket, Hcounts.
  destruct cards as [|c0 [|c1 [|c2 [|c3 [|c4 cards]]]]]; try done;
    apply Forall_cons in Hall as [Hv _].
  - split; [done|]. intros _. by rewrite <- Hv.
  - cbn [length]. rewrite decide_False by done.
    assert (∀ n : nat, Z.of_nat (S (S (S (S (S n))))) ≠ 4
                       ∧ Z.of_nat (S (S (S (S (S n))))) ≠ 3
                       ∧ Z.of_nat (S (S (S (S (S n))))) ≠ 2
                       ∧ Z.of_nat (S (S (S (S (S n))))) ≠ 1) as Hbig
      by (intros n; lia).
    destruct (Hbig (length cards)) as (H4 & H3 & H2 & H1).
    set (n := Z.of_nat (S (S (S (S (S (length cards))))))) in *.
    clearbody n.
    assert (∀ k, k ≠ n → bool_decide (Some n = Some k) = false) as Hdec
      by (intros k Hk; apply bool_decide_eq_false; congruence).
    unfold isBomb, isPair, isTrio, isTrioSingle, isTrioPair, isStraight,
      isPairStraight, isTrioStraight, isTrioStraightSingle,
      isTrioStraightPair, isFourDualSingle, isFourDualPair, airplane_with.
    cbn [jsmap_size jsmap_values jsmap_keys length fmap list_fmap snd fst
         head sort_asc js_sort foldr insert_by split_trios jsmap_get].
    rewrite !Hdec by done.
    rewrite (decide_False (P := (S (S (S (S (S (length cards))))) = 1)%nat))
      by done.
    rewrite (decide_True (P := v = v)) by done.
    rewrite !(decide_False (P := Some n = Some _)) by congruence.
    done.
Qed.

Lemma recognizePattern_one_rank_witness :
  pat_type (bomb_of NINE) = BOMB ∧ pat_value (bomb_of NINE) = 9.
Proof.
  destruct (recognizePattern_one_rank 9
              [card SPADE NINE; card HEART NINE; card CLUB NINE;
               card DIAMOND NINE]) as [Htype Hvalue].
  - repeat constructor; try discriminate; intros [?|?]; discriminate.
  - by repeat constructor.
  - split; [exact Htype|]. apply Hvalue. rewrite Htype. discriminate.
Defined.

(** * Further properties of the turn state machine *)

Lemma getPlayerHand_hands (σ : Store) (s1 s2 : GameState)
    (p : PlayerPosition) :
  hands s1 = hands s2 → getPlayerHand σ s1 p = getPlayerHand σ s2 p.
Proof.
  intros Heq. unfold getPlayerHand. by rewrite Heq.
Qed.

Lemma getPlayerHand_insert_ne (σ : Store) (s : GameState) (l : loc)
    (h : Hands) (p : PlayerPosition) :
  hands s ≠ l → getPlayerHand (<[l:=h]> σ) s p = getPlayerHand σ s p.
Proof.
  intros Hne. unfold getPlayerHand. by rewrite lookup_total_insert_ne.
Qed.

Lemma getPlayerHand_set_hand (σ : Store) (s : GameState) (p q : PlayerPosition)
    (hand : list Card) :
  getPlayerHand (<[hands s := set_hand p hand (σ !!! hands s)]> σ) s q
  = if decide (q = p) then hand else getPlayerHand σ s q.
Proof.
  unfold getPlayerHand. rewrite lookup_total_insert_eq.
  destruct p, q; reflexivity.
Qed.

Lemma getPlayerHand_update (σ : Store) (s s' : GameState)
    (p q : PlayerPosition) (hand : list Card) :
  hands s' = hands s →
  getPlayerHand (<[hands s := set_hand p hand (σ !!! hands s)]> σ) s' q
  = if decide (q = p) then hand else getPlayerHand σ s q.
Proof.
  intros Hh. rewrite (getPlayerHand_hands _ s' s q Hh).
  apply getPlayerHand_set_hand.
Qed.

Opaque recognizePattern hasCards removeCards sortCards canBeat cardsToStrings
  getPlayerHand.

(** What an accepted call returns, written out. *)
Lemma finalizeLandlord_ok (σ : Store) (s : GameState) (b : PlayerPosition) :
  highestBidder s = Some b →
  finalizeLandlord s σ
  = (inr (set_currentPlayer (Some b)
            (set_phase PLAYING (set_landlordPosition (Some b) s))),
     <[hands s := set_hand b (sortCards (getPlayerHand σ s b
                                         ++ landlordCards s))
                    (σ !!! hands s)]> σ).
Proof.
  intros Hb. unfold finalizeLandlord. rewrite Hb.
  unfold mbind, mret, Engine_bind, Engine_ret, read_store, setPlayerHand.
  cbn [hands set_currentPlayer set_phase set_landlordPosition landlordCards].
  by rewrite (getPlayerHand_hands σ
                (set_currentPlayer (Some b)
                   (set_phase PLAYING (set_landlordPosition (Some b) s)))
                s b eq_refl).
Qed.

Lemma play_accepted_ok (now : Z) (σ : Store) (state newState : GameState)
    (p : PlayerPosition) (hand cs : list Card) (pattern : CardPattern) :
  let played :=
    set_history
      (history state ++
       [{| ga_roundNumber := roundNumber state;
           ga_playerPosition := Some p;
           ga_actionType := A_play;
           ga_cards := Some (cardsToStrings cs);
           ga_cardType := Some (pat_type pattern);
           ga_bidAmount := None;
           ga_timestamp := now |}])
      (set_consecutivePasses 0
         (set_lastPlayer (Some p)
            (set_lastPlayedPattern (Some pattern)
               (set_lastPlayedCards (Some cs) newState)))) in
  play_accepted now state newState p hand cs pattern σ
  = (inr (if decide (length (removeCards hand cs) = 0%nat)
          then finishGame now played p
          else next_player (Some p) played),
     <[hands newState := set_hand p (removeCards hand cs)
                           (σ !!! hands newState)]> σ).
Proof.
  intros played. unfold play_accepted.
  unfold mbind, mret, Engine_bind, Engine_ret, setPlayerHand.
  fold played. by destruct (decide (_ = 0%nat)).
Qed.

Lemma pass_accepted_ok (now : Z) (σ : Store) (state newState : GameState) :
  let passed :=
    set_history
      (history state ++
       [{| ga_roundNumber := roundNumber state;
           ga_playerPosition := currentPlayer state;
           ga_actionType := A_pass_play;
           ga_cards := None; ga_cardType := None; ga_bidAmount := None;
           ga_timestamp := now |}])
      (set_consecutivePasses (consecutivePasses newState + 1) newState) in
  pass_accepted now state newState σ
  = (inr (if decide (consecutivePasses newState + 1 = 2)
          then set_roundNumber (roundNumber newState + 1)
                 (set_currentPlayer (lastPlayer state)
                    (set_consecutivePasses 0
                       (set_lastPlayedPattern None
                          (set_lastPlayedCards None passed))))
          else next_player (currentPlayer state) passed),
     σ).
Proof.
  intros passed. unfold pass_accepted.
  unfold mbind, mret, Engine_bind, Engine_ret.
  fold passed.
  change (consecutivePasses passed) with (consecutivePasses newState + 1).
  change (roundNumber
            (set_currentPlayer (lastPlayer state)
               (set_consecutivePasses 0
                  (set_lastPlayedPattern None
                     (set_lastPlayedCards None passed)))))
    with (roundNumber newState).
  by destruct (decide (_ = 2)).
Qed.

(** The accepted calls of [processBidAction], case by case. *)
Lemma processBidAction_ok_inv (now : Z) (σ σ' : Store) (s s' : GameState)
    (a : BidAction) :
  processBidAction now s a σ = (inr s', σ') →
  phase s = BIDDING
  ∧ ((∃ amt, bid_type a = Bid ∧ amount a = Some amt
        ∧ (Qc_of_Z 1 ≤ amt ≤ Qc_of_Z 3)%Qc ∧ (highestBid s < amt)%Qc
        ∧ ((amt = Qc_of_Z 3
            ∧ finalizeLandlord (bid_raised now s a amt) σ = (inr s', σ'))
           ∨ (amt ≠ Qc_of_Z 3
              ∧ s' = next_bidder (currentBidder s) (bid_raised now s a amt)
              ∧ σ' = σ)))
     ∨ (bid_type a = PassBid
        ∧ ((passCount s + 1 = 3 ∧ highestBidder s = None
            ∧ finalizeLandlord
                (set_highestBidder (Some P0)
                   (set_highestBid (Qc_of_Z 1) (bid_passed now s a))) σ
              = (inr s', σ'))
           ∨ (highestBidder s ≠ None ∧ passCount s + 1 = 2
              ∧ finalizeLandlord (bid_passed now s a) σ = (inr s', σ'))
           ∨ (¬ (passCount s + 1 = 3 ∧ highestBidder s = None)
              ∧ ¬ (highestBidder s ≠ None ∧ passCount s + 1 = 2)
              ∧ s' = next_bidder (currentBidder s) (bid_passed now s a)
              ∧ σ' = σ)))).
Proof.
  unfold processBidAction. fold (bid_record now s a).
  fold (bid_logged now s a). intros Hcall.
  destruct (decide (phase s ≠ BIDDING)) as [|Hphase]; [done|].
  apply dec_stable in Hphase. split; [done|].
  destruct (bid_type a) eqn:Htype.
  - left. destruct (amount a) as [amt|]; [|done]. exists amt.
    destruct (decide (amt = Qc_of_Z 0 ∨ (amt < Qc_of_Z 1)%Qc
                      ∨ (Qc_of_Z 3 < amt)%Qc)) as [|Hrange]; [done|].
    destruct (decide ((amt ≤ highestBid s)%Qc)) as [|Hhigh]; [done|].
    fold (bid_raised now s a amt) in Hcall.
    repeat (split; [done|]).
    split; [split; apply Qcnot_lt_le; tauto|].
    split; [by apply Qcnot_le_lt|].
    destruct (decide (amt = Qc_of_Z 3)) as [H3|H3]; [by left|right].
    injection Hcall as <- <-. done.
  - right. split; [done|].
    change (set_passCount (passCount (bid_logged now s a) + 1)
              (bid_logged now s a)) with (bid_passed now s a) in Hcall.
    change (passCount (bid_passed now s a)) with (passCount s + 1) in Hcall.
    change (highestBidder (bid_passed now s a)) with (highestBidder s)
      in Hcall.
    destruct (decide (passCount s + 1 = 3 ∧ highestBidder s = None))
      as [[? ?]|Hthird]; [by left|].
    destruct (decide (highestBidder s ≠ None ∧ passCount s + 1 = 2))
      as [[? ?]|Hsecond]; [by right; left|].
    right; right. injection Hcall as <- <-. done.
Qed.

(** The accepted calls of [processPlayAction], case by case. *)
Lemma processPlayAction_ok_inv (now : Z) (σ σ' : Store) (s s' : GameState)
    (a : PlayAction) :
  processPlayAction now s a σ = (inr s', σ') →
  phase s = PLAYING
  ∧ ((∃ cs p,
        play_type a = Play ∧ cards a = Some cs ∧ cs ≠ []
        ∧ currentPlayer s = Some p
        ∧ hasCards (getPlayerHand σ s p) cs = true
        ∧ pat_type (recognizePattern cs) ≠ INVALID
        ∧ ((lastPlayer s = Some p
            ∧ play_accepted now s (trick_cleared s) p (getPlayerHand σ s p)
                cs (recognizePattern cs) σ = (inr s', σ'))
           ∨ (lastPlayer s ≠ Some p
              ∧ match lastPlayedPattern s with
                | Some lastPattern =>
                    canBeat (recognizePattern cs) lastPattern = true
                | None => True
                end
              ∧ play_accepted now s s p (getPlayerHand σ s p) cs
                  (recognizePattern cs) σ = (inr s', σ'))))
     ∨ (play_type a = PassPlay ∧ lastPlayedPattern s ≠ None
        ∧ pass_accepted now s s σ = (inr s', σ'))).
Proof.
  unfold processPlayAction. intros Hcall.
  destruct (decide (phase s ≠ PLAYING)) as [|Hphase]; [done|].
  apply dec_stable in Hphase. split; [done|].
  unfold mbind at 1, Engine_bind at 1, read_store in Hcall.
  destruct (play_type a) eqn:Htype.
  - left. destruct (cards a) as [[|c0 cs]|] eqn:Hcards; [done| |done].
    exists (c0 :: cs).
    destruct (currentPlayer s) as [p|] eqn:Hcur; [|done]. exists p.
    cbn [fmap option_fmap option_map] in Hcall.
    destruct (hasCards (getPlayerHand σ s p) (c0 :: cs)) eqn:Hhas; [|done].
    cbn [negb] in Hcall.
    destruct (decide (pat_type (recognizePattern (c0 :: cs)) = INVALID))
      as [|Hvalid]; [done|].
    repeat (split; [done|]).
    fold (trick_cleared s) in Hcall.
    case_bool_decide as Hnew.
    + destruct Hnew as [_ Hnew]. left. split; [done|].
      change (lastPlayedPattern (trick_cleared s)) with (@None CardPattern)
        in Hcall.
      done.
    + right. split; [intros Heq; apply Hnew; by rewrite Heq|].
      destruct (lastPlayedPattern s) as [lastPattern|]; [|done].
      destruct (canBeat (recognizePattern (c0 :: cs)) lastPattern);
        [done|discriminate Hcall].
  - right. destruct (decide (lastPlayedPattern s = None)); [done|]. done.
Qed.

(** An accepted call of [finalizeLandlord], for any state with a bidder. *)
Lemma finalizeLandlord_inv (σ σ' : Store) (s s' : GameState) :
  highestBidder s ≠ None →
  finalizeLandlord s σ = (inr s', σ') →
  ∃ b, highestBidder s = Some b
       ∧ s' = set_currentPlayer (Some b)
                (set_phase PLAYING (set_landlordPosition (Some b) s))
       ∧ σ' = <[hands s := set_hand b (sortCards (getPlayerHand σ s b
                                                   ++ landlordCards s))
                              (σ !!! hands s)]> σ.
Proof.
  intros Hsome Hcall. destruct (highestBidder s) as [b|] eqn:Hb; [|done].
  exists b. rewrite (finalizeLandlord_ok σ s b Hb) in Hcall.
  by injection Hcall as <- <-.
Qed.

(** Every accepted bid action is one of two kinds: the turn moves on in
    the Bidding phase and the store is left alone, or the bidding closes
    and [finalizeLandlord] runs on a state with the same hands, pile,
    history and round number as the logged state. *)
Lemma processBidAction_ok_kinds (now : Z) (σ σ' : Store) (s s' : GameState)
    (a : BidAction) :
  processBidAction now s a σ = (inr s', σ') →
  phase s = BIDDING
  ∧ ((∃ mid, s' = next_bidder (currentBidder s) mid ∧ σ' = σ
             ∧ phase mid = BIDDING ∧ hands mid = hands s
             ∧ history mid = history s ++ [bid_record now s a]
             ∧ roundNumber mid = roundNumber s
             ∧ landlordCards mid = landlordCards s)
     ∨ (∃ mid b, highestBidder mid = Some b
             ∧ s' = set_currentPlayer (Some b)
                      (set_phase PLAYING (set_landlordPosition (Some b) mid))
             ∧ σ' = <[hands s := set_hand b
                        (sortCards (getPlayerHand σ s b ++ landlordCards s))
                        (σ !!! hands s)]> σ
             ∧ hands mid = hands s
             ∧ history mid = history s ++ [bid_record now s a]
             ∧ roundNumber mid = roundNumber s
             ∧ landlordCards mid = landlordCards s)).
Proof.
  intros Hcall. apply processBidAction_ok_inv in Hcall as [Hphase Hcases].
  split; [done|].
  assert (∀ mid, hands mid = hands s → landlordCards mid = landlordCards s →
            history mid = history s ++ [bid_record now s a] →
            roundNumber mid = roundNumber s →
            highestBidder mid ≠ None →
            finalizeLandlord mid σ = (inr s', σ') →
            ∃ mid b, highestBidder mid = Some b
              ∧ s' = set_currentPlayer (Some b)
                       (set_phase PLAYING (set_landlordPosition (Some b) mid))
              ∧ σ' = <[hands s := set_hand b
                         (sortCards (getPlayerHand σ s b ++ landlordCards s))
                         (σ !!! hands s)]> σ
              ∧ hands mid = hands s
              ∧ history mid = history s ++ [bid_record now s a]
              ∧ roundNumber mid = roundNumber s
              ∧ landlordCards mid = landlordCards s) as Hfin.
  { intros mid Hh Hl Hhist Hr Hsome Hf.
    apply finalizeLandlord_inv in Hf as (b & Hb & -> & ->); [|done].
    exists mid, b. rewrite Hh, Hl, (getPlayerHand_hands σ mid s b Hh). done. }
  destruct Hcases as [(amt & Htype & Hamt & Hrange & Hhigh & Hcase)
                     |(Htype & Hcase)].
  - destruct Hcase as [[H3 Hf]|(H3 & -> & ->)].
    + right. by apply (Hfin (bid_raised now s a amt)).
    + left. exists (bid_raised now s a amt). done.
  - destruct Hcase as [(H3 & Hnone & Hf)|[(Hsome & H2 & Hf)|(_ & _ & -> & ->)]].
    + right. by eapply Hfin; [..|exact Hf].
    + right. by apply (Hfin (bid_passed now s a)).
    + left. exists (bid_passed now s a). done.
Qed.

(** Every accepted play action, written out: a play of cards, on the
    state as it is or with the trick cleared when the player is the one
    who played last; or a pass. *)
Lemma processPlayAction_ok_kinds (now : Z) (σ σ' : Store) (s s' : GameState)
    (a : PlayAction) :
  processPlayAction now s a σ = (inr s', σ') →
  phase s = PLAYING
  ∧ ((∃ cs p newState,
        play_type a = Play ∧ cards a = Some cs ∧ cs ≠ []
        ∧ currentPlayer s = Some p
        ∧ hasCards (getPlayerHand σ s p) cs = true
        ∧ pat_type (recognizePattern cs) ≠ INVALID
        ∧ ((lastPlayer s = Some p ∧ newState = trick_cleared s)
           ∨ (lastPlayer s ≠ Some p ∧ newState = s
              ∧ match lastPlayedPattern s with
                | Some lastPattern =>
                    canBeat (recognizePattern cs) lastPattern = true
                | None => True
                end))
        ∧ s' = (if decide (length (removeCards (getPlayerHand σ s p) cs)
                           = 0%nat)
                then finishGame now (play_logged now s newState p cs) p
                else next_player (Some p) (play_logged now s newState p cs))
        ∧ σ' = <[hands s := set_hand p
                              (removeCards (getPlayerHand σ s p) cs)
                              (σ !!! hands s)]> σ)
     ∨ (play_type a = PassPlay ∧ lastPlayedPattern s ≠ None ∧ σ' = σ
        ∧ s' = (if decide (consecutivePasses s + 1 = 2)
                then set_roundNumber (roundNumber s + 1)
                       (set_currentPlayer (lastPlayer s)
                          (trick_cleared (pass_logged now s)))
                else next_player (currentPlayer s) (pass_logged now s)))).
Proof.
  intros Hcall. apply processPlayAction_ok_inv in Hcall as [Hphase Hcases].
  split; [done|].
  destruct Hcases as [(cs & p & Htype & Hcards & Hne & Hcur & Hhas & Hvalid
                       & Hcase)
                     |(Htype & Hlast & Hpass)].
  - left. exists cs, p.
    destruct Hcase as [[Hnew Hacc]|(Hold & Hbeat & Hacc)].
    + exists (trick_cleared s).
      rewrite play_accepted_ok in Hacc. injection Hacc as <- <-.
      repeat (split; [done|]). split; [by left|]. done.
    + exists s.
      rewrite play_accepted_ok in Hacc. injection Hacc as <- <-.
      repeat (split; [done|]). split; [by right|]. done.
  - right. rewrite pass_accepted_ok in Hpass. injection Hpass as <- <-.
    done.
Qed.

(** X6: a call on one game never changes the hands of a game that holds
    another [hands] object, whether the call succeeds or fails. *)
Theorem engine_leaves_other_games (now : Z) (σ : Store)
    (s other : GameState) (p : PlayerPosition) :
  hands other ≠ hands s →
  (∀ a r σ', processBidAction now s a σ = (r, σ') →
             getPlayerHand σ' other p = getPlayerHand σ other p)
  ∧ (∀ a r σ', processPlayAction now s a σ = (r, σ') →
               getPlayerHand σ' other p = getPlayerHand σ other p).
Proof.
  intros Hne. split; intros a [e|s'] σ' Hcall.
  - by apply processBidAction_error in Hcall as [_ ->].
  - apply processBidAction_ok_kinds in Hcall
      as [_ [(mid & _ & -> & _)|(mid & b & _ & _ & -> & _)]]; [done|].
    by apply getPlayerHand_insert_ne.
  - by apply processPlayAction_error in Hcall as [_ ->].
  - apply processPlayAction_ok_kinds in Hcall as [_ [Hplay|Hpass]].
    + destruct Hplay as (cs & q & newState & _ & _ & _ & _ & _ & _ & _ & _
                         & ->).
      by apply getPlayerHand_insert_ne.
    + by destruct Hpass as (_ & _ & -> & _).
Qed.

Lemma engine_leaves_other_games_witness :
  getPlayerHand (game_second.2) game_new.1 P0
  = getPlayerHand
      (processBidAction 9 game_second.1 (bid_of 3) game_second.2).2
      game_new.1 P0.
Proof.
  symmetry.
  apply (proj1 (engine_leaves_other_games 9 game_second.2 game_second.1
                  game_new.1 P0 ltac:(vm_compute; discriminate))
           (bid_of 3)
           (processBidAction 9 game_second.1 (bid_of 3) game_second.2).1).
  by destruct (processBidAction 9 game_second.1 (bid_of 3) game_second.2).
Defined.

(** X7: [createGame] puts the dealt hands in a new [hands] object, at a
    reference no state held before, and leaves the rest of the store
    alone; the state it returns is in the Bidding phase with seat 0 to
    bid, no bid and no pass, 17 cards for each seat and 3 landlord cards,
    round 0 and an empty history. *)
Theorem createGame_fresh (rnd : nat → nat) (id : JsString) (now : Z)
    (m0 m1 m2 : Z) (σ : Store) :
  ∃ s σ', createGame rnd id now m0 m1 m2 σ = (inr s, σ')
    ∧ σ !! hands s = None
    ∧ (∀ l, l ≠ hands s → σ' !! l = σ !! l)
    ∧ phase s = BIDDING ∧ currentBidder s = P0
    ∧ highestBid s = Qc_of_Z 0 ∧ highestBidder s = None ∧ passCount s = 0
    ∧ landlordPosition s = None ∧ lastPlayedPattern s = None
    ∧ roundNumber s = 0 ∧ history s = [] ∧ winner s = None
    ∧ length (getPlayerHand σ' s P0) = 17%nat
    ∧ length (getPlayerHand σ' s P1) = 17%nat
    ∧ length (getPlayerHand σ' s P2) = 17%nat
    ∧ length (landlordCards s) = 3%nat.
Proof.
  unfold createGame. eexists _, _. split; [reflexivity|].
  cbn [hands phase currentBidder highestBid highestBidder passCount
       landlordPosition lastPlayedPattern roundNumber history winner
       landlordCards].
  split. { apply not_elem_of_dom, is_fresh. }
  split. { intros l Hl. by rewrite lookup_insert_ne. }
  repeat (split; [done|]).
  assert (length (shuffleDeck rnd createDeck) = 54%nat) as Hlen
    by (by rewrite shuffleDeck_length).
  rewrite !getPlayerHand_insert by done. unfold dealCards.
  cbn [player0 player1 player2 deal_player0 deal_player1 deal_player2
       deal_landlordCards].
  rewrite !sortCards_length, !slice_length by lia. done.
Qed.

(** X8: the history is append-only: every accepted action adds exactly
    one record at the end, stamped with the round number of the input
    state, the seat whose turn it was and the time of the call; a play
    is logged with the tokens of its cards and the type recognised. *)
Theorem history_append_only (now : Z) (σ σ' : Store) (s s' : GameState) :
  (∀ a, processBidAction now s a σ = (inr s', σ') →
        history s' = history s ++ [bid_record now s a])
  ∧ (∀ a, processPlayAction now s a σ = (inr s', σ') →
          ∃ ga, history s' = history s ++ [ga]
                ∧ ga_roundNumber ga = roundNumber s
                ∧ ga_playerPosition ga = currentPlayer s
                ∧ ga_timestamp ga = now
                ∧ ga_bidAmount ga = None
                ∧ match play_type a with
                  | Play =>
                      ga_actionType ga = A_play
                      ∧ ga_cards ga = cardsToStrings <$> cards a
                      ∧ ga_cardType ga
                        = (λ cs, pat_type (recognizePattern cs)) <$> cards a
                  | PassPlay =>
                      ga_actionType ga = A_pass_play
                      ∧ ga_cards ga = None ∧ ga_cardType ga = None
                  end).
Proof.
  split; intros a Hcall.
  - apply processBidAction_ok_kinds in Hcall
      as [_ [(mid & -> & _ & _ & _ & Hhist & _)
            |(mid & b & _ & -> & _ & _ & Hhist & _)]]; exact Hhist.
  - apply processPlayAction_ok_kinds in Hcall as [_ [Hplay|Hpass]].
    + destruct Hplay as (cs & p & newState & -> & -> & _ & Hcur & _ & _ & _
                         & -> & _).
      eexists. rewrite Hcur.
      split; [by destruct (decide (_ = 0%nat))|]. done.
    + destruct Hpass as (-> & _ & _ & ->).
      eexists. split; [by destruct (decide (_ = 2))|]. done.
Qed.

Lemma history_append_only_witness :
  history game_playing.1 = history game_new.1 ++ [bid_record 1 game_new.1 (bid_of 3)]
  ∧ length (history game_led.1) = S (length (history game_playing.1)).
Proof.
  destruct (history_append_only 1 game_new.2 game_playing.2 game_new.1
              game_playing.1) as [Hbid _].
  destruct (history_append_only 2 game_playing.2 game_led.2 game_playing.1
              game_led.1) as [_ Hplay].
  split.
  - apply Hbid. by vm_compute.
  - destruct (Hplay (play_of [card SPADE THREE]) ltac:(by vm_compute))
      as (ga & -> & _).
    rewrite length_app. simpl. lia.
Defined.

(** X9: the phases only go forward, one step at a time, and the round
    number counts the accepted actions that stay in their phase.  For a
    state whose round number is a safe integer (below 2^53 in absolute
    value, where [roundNumber++] is exact): an accepted bid action starts
    in Bidding and ends in Bidding with the round number up by one and the
    next seat to bid (seat 1 after seat 0, seat 2 after seat 1, seat 0
    after seat 2), or in Playing with the round number unchanged; an
    accepted play action starts in Playing and ends in Playing with the
    round number up by one, or in Finished with the round number
    unchanged.  Nothing is accepted in Finished. *)
Theorem engine_phase_order (now : Z) (σ σ' : Store) (s s' : GameState) :
  - 2 ^ 53 < roundNumber s < 2 ^ 53 →
  (∀ a, processBidAction now s a σ = (inr s', σ') →
        phase s = BIDDING
        ∧ ((phase s' = BIDDING ∧ roundNumber s' = roundNumber s + 1
            ∧ currentBidder s'
              = match currentBidder s with
                | P0 => P1 | P1 => P2 | P2 => P0
                end)
           ∨ (phase s' = PLAYING ∧ roundNumber s' = roundNumber s)))
  ∧ (∀ a, processPlayAction now s a σ = (inr s', σ') →
          phase s = PLAYING
          ∧ ((phase s' = PLAYING ∧ roundNumber s' = roundNumber s + 1)
             ∨ (phase s' = FINISHED ∧ roundNumber s' = roundNumber s))).
Proof.
  intros _. split; intros a Hcall.
  - apply processBidAction_ok_kinds in Hcall
      as [Hphase [(mid & -> & _ & Hmid & _ & _ & Hround & _)
                 |(mid & b & _ & -> & _ & _ & _ & Hround & _)]].
    + split; [done|]. left. cbn. rewrite Hround.
      repeat (split; [done|]). by destruct (currentBidder s).
    + split; [done|]. right. done.
  - apply processPlayAction_ok_kinds in Hcall as [Hphase [Hplay|Hpass]].
    + destruct Hplay as (cs & p & newState & _ & _ & _ & _ & _ & _ & Hnew
                         & -> & _).
      split; [done|].
      assert (phase newState = PLAYING ∧ roundNumber newState = roundNumber s)
        as [Hp Hr] by (destruct Hnew as [[_ ->]|(_ & -> & _)]; done).
      destruct (decide (_ = 0%nat)); [right|left]; cbn; by rewrite ?Hp, ?Hr.
    + destruct Hpass as (_ & _ & _ & ->).
      split; [done|]. left. by destruct (decide (_ = 2)).
Qed.

Lemma engine_phase_order_witness :
  let first := after game_new (λ s, processBidAction 1 s pass_bid) in
  phase first.1 = BIDDING
  ∧ roundNumber first.1 = 1
  ∧ currentBidder first.1 = P1
  ∧ currentBidder game_two_passes.1 = P2
  ∧ roundNumber game_playing.1 = 0.
Proof.
  intros first.
  destruct (proj1 (engine_phase_order 1 game_new.2 first.2 game_new.1
                     first.1 ltac:(by vm_compute))
              pass_bid ltac:(by vm_compute))
    as [_ [(Hp & Hr & Hb)|[Hp _]]]; [|by vm_compute in Hp].
  destruct (proj1 (engine_phase_order 2 first.2 game_two_passes.2 first.1
                     game_two_passes.1 ltac:(by vm_compute))
              pass_bid ltac:(by vm_compute))
    as [_ [(_ & _ & Hb2)|[Hp2 _]]]; [|by vm_compute in Hp2].
  destruct (proj1 (engine_phase_order 1 game_new.2 game_playing.2 game_new.1
                     game_playing.1 ltac:(by vm_compute))
              (bid_of 3) ltac:(by vm_compute))
    as [_ [(Hp3 & _)|[_ Hr3]]]; [by vm_compute in Hp3|].
  split; [done|]. split; [by rewrite Hr|].
  split; [by rewrite Hb|]. split; [by rewrite Hb2, Hb|by rewrite Hr3].
Defined.

(** X10: when an accepted bid action ends the bidding, one seat [b]
    becomes the landlord and is to play; the other two hands and the pile
    are as they were, and [b]'s new hand is its old hand with the landlord
    cards merged in and sorted again: exactly the cards of the old hand
    and of the pile, in ascending order of value, cards of one value in
    the order they had in the old hand followed by the pile.  [b] is the
    current bidder after a bid of 3, seat 0 at a bid of 1 after a third
    pass with no bid, and the earlier highest bidder after a second
    pass. *)
Theorem landlord_finalized (now : Z) (σ σ' : Store) (s s' : GameState)
    (a : BidAction) :
  processBidAction now s a σ = (inr s', σ') →
  phase s' = PLAYING →
  ∃ b, landlordPosition s' = Some b
       ∧ currentPlayer s' = Some b
       ∧ highestBidder s' = Some b
       ∧ getPlayerHand σ' s' b
         = sortCards (getPlayerHand σ s b ++ landlordCards s)
       ∧ getPlayerHand σ' s' b ≡ₚ getPlayerHand σ s b ++ landlordCards s
       ∧ Sorted value_le (getPlayerHand σ' s' b)
       ∧ (∀ v, filter (λ c, value c = v) (getPlayerHand σ' s' b)
               = filter (λ c, value c = v)
                   (getPlayerHand σ s b ++ landlordCards s))
       ∧ (∀ q, q ≠ b → getPlayerHand σ' s' q = getPlayerHand σ s q)
       ∧ landlordCards s' = landlordCards s
       ∧ ((bid_type a = Bid ∧ amount a = Some (Qc_of_Z 3)
           ∧ b = currentBidder s ∧ highestBid s' = Qc_of_Z 3)
          ∨ (bid_type a = PassBid ∧ highestBidder s = None
             ∧ passCount s + 1 = 3 ∧ b = P0 ∧ highestBid s' = Qc_of_Z 1)
          ∨ (bid_type a = PassBid ∧ highestBidder s = Some b
             ∧ passCount s + 1 = 2 ∧ highestBid s' = highestBid s)).
Proof.
  intros Hcall Hplaying.
  assert (∀ mid b,
            hands mid = hands s → landlordCards mid = landlordCards s →
            highestBidder mid = Some b →
            finalizeLandlord mid σ = (inr s', σ') →
            landlordPosition s' = Some b ∧ currentPlayer s' = Some b
            ∧ highestBidder s' = Some b
            ∧ getPlayerHand σ' s' b
              = sortCards (getPlayerHand σ s b ++ landlordCards s)
            ∧ getPlayerHand σ' s' b ≡ₚ getPlayerHand σ s b ++ landlordCards s
            ∧ Sorted value_le (getPlayerHand σ' s' b)
            ∧ (∀ v, filter (λ c, value c = v) (getPlayerHand σ' s' b)
                    = filter (λ c, value c = v)
                        (getPlayerHand σ s b ++ landlordCards s))
            ∧ (∀ q, q ≠ b → getPlayerHand σ' s' q = getPlayerHand σ s q)
            ∧ landlordCards s' = landlordCards s
            ∧ highestBid s' = highestBid mid) as Hfin.
  { intros mid b Hh Hl Hb Hf.
    rewrite (finalizeLandlord_ok σ mid b Hb) in Hf. injection Hf as <- <-.
    cbn [landlordPosition currentPlayer highestBidder landlordCards
         highestBid set_currentPlayer set_phase set_landlordPosition].
    repeat (split; [done|]).
    rewrite Hl, (getPlayerHand_hands σ mid s b Hh).
    rewrite getPlayerHand_update, decide_True by done.
    split; [done|].
    split; [apply sortCards_perm|].
    split; [apply sortCards_sorted|].
    split; [intros v; apply sortCards_stable|].
    split; [|done].
    intros q Hq. rewrite getPlayerHand_update, decide_False by done.
    by apply getPlayerHand_hands. }
  apply processBidAction_ok_inv in Hcall as [Hphase Hcases].
  destruct Hcases as [(amt & Htype & Hamt & Hrange & Hhigh & Hcase)
                     |(Htype & Hcase)].
  - destruct Hcase as [[-> Hf]|(H3 & -> & ->)];
      [|cbn in Hplaying; congruence].
    exists (currentBidder s).
    destruct (Hfin (bid_raised now s a (Qc_of_Z 3)) (currentBidder s)) as
      (? & ? & ? & ? & ? & ? & ? & ? & ? & ?); try done.
    repeat (split; [done|]). left. done.
  - destruct Hcase as [(H3 & Hnone & Hf)|[(Hsome & H2 & Hf)|(_ & _ & -> & ->)]];
      [| |cbn in Hplaying; congruence].
    + exists P0.
      destruct (Hfin (set_highestBidder (Some P0)
                        (set_highestBid (Qc_of_Z 1) (bid_passed now s a))) P0)
        as (? & ? & ? & ? & ? & ? & ? & ? & ? & ?); try done.
      repeat (split; [done|]). right; left. done.
    + destruct (highestBidder s) as [b|] eqn:Hb; [|done]. exists b.
      destruct (Hfin (bid_passed now s a) b) as
        (? & ? & ? & ? & ? & ? & ? & ? & ? & ?); try done.
      repeat (split; [done|]). right; right. done.
Qed.

Lemma landlord_finalized_witness :
  ∃ b, landlordPosition game_playing.1 = Some b
       ∧ currentPlayer game_playing.1 = Some b
       ∧ length (getPlayerHand game_playing.2 game_playing.1 b) = 20%nat
       ∧ Sorted value_le (getPlayerHand game_playing.2 game_playing.1 b).
Proof.
  destruct (landlord_finalized 1 game_new.2 game_playing.2 game_new.1
              game_playing.1 (bid_of 3))
    as (b & Hl & Hc & _ & _ & Hperm & Hsorted & _);
    [by vm_compute|by vm_compute|].
  exists b. repeat (split; [done|]). split; [|done].
  rewrite Hperm. vm_compute in Hl. injection Hl as <-. by vm_compute.
Defined.

(** X11: an accepted play action ends the game exactly when it is a play
    of as many cards as the player holds; the winner is then the player
    whose turn it was, a landlord's win if that seat is the landlord and
    a farmers' win otherwise, and the time of the call is the finishing
    time.  Any other accepted action leaves winner, winner type and
    finishing time as they were. *)
Theorem win_detection (now : Z) (σ σ' : Store) (s s' : GameState)
    (a : PlayAction) :
  processPlayAction now s a σ = (inr s', σ') →
  (phase s' = FINISHED
   ↔ ∃ cs p, play_type a = Play ∧ cards a = Some cs
             ∧ currentPlayer s = Some p
             ∧ length cs = length (getPlayerHand σ s p))
  ∧ (phase s' = FINISHED →
     winner s' = currentPlayer s
     ∧ winnerType s'
       = Some (if decide (currentPlayer s = landlordPosition s)
               then Landlord else Farmer)
     ∧ finishedAt s' = Some now
     ∧ currentPlayer s' = currentPlayer s)
  ∧ (phase s' ≠ FINISHED →
     winner s' = winner s ∧ winnerType s' = winnerType s
     ∧ finishedAt s' = finishedAt s).
Proof.
  intros Hcall.
  apply processPlayAction_ok_kinds in Hcall as [Hphase [Hplay|Hpass]].
  - destruct Hplay as (cs & p & newState & Htype & Hcards & _ & Hcur & Hhas
                       & _ & Hnew & -> & _).
    pose proof (proj2 (removeCards_partition_aux _ _ Hhas)) as Hlen.
    assert (phase newState = PLAYING ∧ winner newState = winner s
            ∧ winnerType newState = winnerType s
            ∧ finishedAt newState = finishedAt s
            ∧ landlordPosition newState = landlordPosition s
            ∧ currentPlayer newState = currentPlayer s)
      as (Hp & Hw & Hwt & Hf & Hl & Hcp)
      by (destruct Hnew as [[_ ->]|(_ & -> & _)]; done).
    destruct (decide (_ = 0%nat)) as [Hempty|Hleft].
    + split; [split; [intros _|done]|].
      { exists cs, p. repeat (split; [done|]). lia. }
      split; [intros _|done].
      cbn. rewrite Hcp, Hcur, Hl. done.
    + split; [split|].
      { cbn. rewrite Hp. done. }
      { intros (cs' & p' & _ & Hcs' & Hp' & Hlen').
        rewrite Hcards in Hcs'. rewrite Hcur in Hp'. simplify_eq. lia. }
      split; [cbn; rewrite Hp; done|].
      intros _. cbn. by rewrite Hw, Hwt, Hf.
  - destruct Hpass as (Htype & _ & _ & ->).
    assert (phase s ≠ FINISHED) by (rewrite Hphase; done).
    destruct (decide (_ = 2)); cbn.
    + split; [split; [by rewrite Hphase|]|done].
      intros (? & ? & ? & _). congruence.
    + split; [split; [by rewrite Hphase|]|done].
      intros (? & ? & ? & _). congruence.
Qed.

(** X12: an accepted play takes the cards played, and nothing else, out
    of the player's hand, identity for identity, and leaves the other two
    hands alone; an accepted pass leaves all three hands alone.  The
    returned state reads its hands in the same [hands] object. *)
Theorem play_conserves_cards (now : Z) (σ σ' : Store) (s s' : GameState)
    (a : PlayAction) :
  processPlayAction now s a σ = (inr s', σ') →
  hands s' = hands s
  ∧ match play_type a, cards a, currentPlayer s with
    | Play, Some cs, Some p =>
        cardId <$> getPlayerHand σ s p
        ≡ₚ (cardId <$> cs) ++ (cardId <$> getPlayerHand σ' s' p)
        ∧ getPlayerHand σ' s' p `sublist_of` getPlayerHand σ s p
        ∧ ∀ q, q ≠ p → getPlayerHand σ' s' q = getPlayerHand σ s q
    | _, _, _ => ∀ q, getPlayerHand σ' s' q = getPlayerHand σ s q
    end.
Proof.
  intros Hcall.
  apply processPlayAction_ok_kinds in Hcall as [Hphase [Hplay|Hpass]].
  - destruct Hplay as (cs & p & newState & -> & -> & _ & -> & Hhas
                       & _ & Hnew & -> & ->).
    assert (hands newState = hands s) as Hh
      by (destruct Hnew as [[_ ->]|(_ & -> & _)]; done).
    assert (hands (if decide (length (removeCards (getPlayerHand σ s p) cs)
                              = 0%nat)
                   then finishGame now (play_logged now s newState p cs) p
                   else next_player (Some p)
                          (play_logged now s newState p cs))
            = hands s) as Hh' by (by destruct (decide (_ = 0%nat))).
    split; [done|].
    rewrite getPlayerHand_update, decide_True by done.
    split; [apply removeCards_partition_aux, Hhas|].
    split; [apply removeCards_counts_aux|].
    intros q Hq. by rewrite getPlayerHand_update, decide_False.
  - destruct Hpass as (-> & _ & -> & ->).
    split; [by destruct (decide (_ = 2))|].
    intros q. apply getPlayerHand_hands. by destruct (decide (_ = 2)).
Qed.

(** *** The cursors of the reachable states *)

Lemma turn_inv_createGame (rnd : nat → nat) (id : JsString) (now : Z)
    (m0 m1 m2 : Z) (σ σ' : Store) (s : GameState) :
  createGame rnd id now m0 m1 m2 σ = (inr s, σ') → turn_inv s.
Proof.
  unfold createGame. intros [= <- _]. split; cbn; try done.
Qed.

Lemma turn_inv_bid (now : Z) (σ σ' : Store) (s s' : GameState)
    (a : BidAction) :
  processBidAction now s a σ = (inr s', σ') → turn_inv s → turn_inv s'.
Proof.
  intros Hcall [Hseat Htable Hbid Hland Htrick Hrun Hfin].
  apply processBidAction_ok_inv in Hcall as [Hphase Hcases].
  destruct (Hbid Hphase) as (Hpat & Hcp & Hnoland & Hcount).
  destruct (Hrun ltac:(by rewrite Hphase)) as [Hwin Hfinat].
  assert (∀ mid b,
            highestBidder mid = Some b →
            lastPlayedCards mid = lastPlayedCards s →
            lastPlayedPattern mid = lastPlayedPattern s →
            consecutivePasses mid = consecutivePasses s →
            winner mid = winner s → finishedAt mid = finishedAt s →
            finalizeLandlord mid σ = (inr s', σ') → turn_inv s') as Hfinal.
  { intros mid b Hb Hc Hp Hcp' Hw Hf Hcall.
    rewrite (finalizeLandlord_ok σ mid b Hb) in Hcall.
    injection Hcall as <- _.
    split; cbn; rewrite ?Hc, ?Hp, ?Hcp', ?Hw, ?Hf; try done.
    intros _. by rewrite Hpat. }
  destruct Hcases as [(amt & Htype & Hamt & Hrange & Hhigh & Hcase)
                     |(Htype & Hcase)].
  - destruct Hcase as [[-> Hf]|(H3 & -> & _)].
    + by apply (Hfinal (bid_raised now s a (Qc_of_Z 3)) (currentBidder s)).
    + split; cbn; rewrite ?Hphase; try done.
      intros _. repeat (split; [done|]).
      split; [|lia]. split; [tauto|].
      clear -Hrange H3. destruct Hrange as [_ Hle].
      apply Qcle_lt_or_eq in Hle as [|]; done.
  - destruct Hcase as [(H3 & Hnone & Hf)|[(Hsome & H2 & Hf)|(H3 & H2 & -> & _)]].
    + by apply (Hfinal (set_highestBidder (Some P0)
                          (set_highestBid (Qc_of_Z 1) (bid_passed now s a)))
                  P0).
    + destruct (highestBidder s) as [b|] eqn:Hb; [|done].
      by apply (Hfinal (bid_passed now s a) b).
    + split; cbn; rewrite ?Hphase; try done.
      intros _. repeat (split; [done|]).
      destruct (highestBidder s) as [b|]; (split; [tauto|]).
      * destruct (decide (passCount s + 1 = 2)); [|lia].
        exfalso. apply H2. done.
      * destruct (decide (passCount s + 1 = 3)); [|lia].
        exfalso. apply H3. done.
Qed.

Lemma next_position_Some_ne (q : PlayerPosition) :
  next_position (Some q) ≠ q
  ∧ next_position (Some (next_position (Some q))) ≠ q.
Proof. by destruct q. Qed.

Lemma turn_inv_play (now : Z) (σ σ' : Store) (s s' : GameState)
    (a : PlayAction) :
  processPlayAction now s a σ = (inr s', σ') → turn_inv s → turn_inv s'.
Proof.
  intros Hcall [Hseat Htable Hbid Hland Htrick Hrun Hfin].
  apply processPlayAction_ok_kinds in Hcall as [Hphase [Hplay|Hpass]].
  - destruct Hplay as (cs & p & newState & _ & _ & _ & Hcur & _ & _ & Hnew
                       & -> & _).
    destruct (Hrun ltac:(by rewrite Hphase)) as [Hwin Hfinat].
    specialize (Hland ltac:(by rewrite Hphase)).
    assert (phase newState = PLAYING
            ∧ currentPlayer newState = Some p
            ∧ landlordPosition newState = landlordPosition s
            ∧ winner newState = None ∧ finishedAt newState = None)
      as (Hp & Hc & Hl & Hw & Hf)
      by (destruct Hnew as [[_ ->]|(_ & -> & _)]; done).
    destruct (decide (_ = 0%nat)).
    + split; cbn; rewrite ?Hp, ?Hc, ?Hl; try done.
    + split; cbn; rewrite ?Hp, ?Hc, ?Hl, ?Hw, ?Hf; try done.
      intros _. exists p. split; [done|]. by left.
  - destruct Hpass as (_ & Hlast & _ & ->).
    specialize (Htrick Hphase).
    destruct (Hrun ltac:(by rewrite Hphase)) as [Hwin Hfinat].
    specialize (Hland ltac:(by rewrite Hphase)).
    destruct (lastPlayedPattern s) as [lastPattern|] eqn:Hpat; [|done].
    destruct Htrick as (q & Hq & [[Hcp Hcur]|[Hcp Hcur]]).
    + rewrite decide_False by lia.
      split; cbn; rewrite ?Hphase, ?Hpat, ?Hcp, ?Hcur; try done.
      intros _. exists q. split; [done|]. by right.
    + rewrite decide_True by lia.
      split; cbn; rewrite ?Hphase, ?Hq; try done.
Qed.


(** *** The hands of the reachable states *)

Lemma Sorted_value_le_sublist (l1 l2 : list Card) :
  l1 `sublist_of` l2 → Sorted value_le l2 → Sorted value_le l1.
Proof.
  intros Hsub Hsorted.
  apply StronglySorted_Sorted.
  apply Sorted_StronglySorted in Hsorted;
    [|intros x y z; unfold value_le; lia].
  induction Hsub as [|x l1 l2 Hsub IH|x l1 l2 Hsub IH].
  - constructor.
  - apply StronglySorted_inv in Hsorted as [Hs Hall]. constructor; [auto|].
    rewrite Forall_forall in Hall |- *. intros y Hy.
    apply Hall. by eapply elem_of_sublist.
  - apply StronglySorted_inv in Hsorted as [Hs _]. auto.
Qed.

Lemma all_hands_update (σ : Store) (s s' : GameState) (p : PlayerPosition)
    (hand : list Card) :
  hands s' = hands s →
  all_hands (<[hands s := set_hand p hand (σ !!! hands s)]> σ) s'
  = match p with
    | P0 => hand ++ getPlayerHand σ s P1 ++ getPlayerHand σ s P2
    | P1 => getPlayerHand σ s P0 ++ hand ++ getPlayerHand σ s P2
    | P2 => getPlayerHand σ s P0 ++ getPlayerHand σ s P1 ++ hand
    end.
Proof.
  intros Hh. unfold all_hands. rewrite !getPlayerHand_update by done.
  by destruct p.
Qed.

Lemma all_hands_same (σ : Store) (s s' : GameState) :
  hands s' = hands s → all_hands σ s' = all_hands σ s.
Proof.
  intros Hh. unfold all_hands.
  by rewrite !(getPlayerHand_hands σ s' s _ Hh).
Qed.

Lemma hands_inv_createGame (rnd : nat → nat) (id : JsString) (now : Z)
    (m0 m1 m2 : Z) (σ σ' : Store) (s : GameState) :
  createGame rnd id now m0 m1 m2 σ = (inr s, σ') → hands_inv σ' s.
Proof.
  unfold createGame. intros [= <- <-].
  assert (length (shuffleDeck rnd createDeck) = 54%nat) as Hlen
    by (by rewrite shuffleDeck_length).
  split.
  - intros _ p Hempty. apply (f_equal length) in Hempty.
    rewrite getPlayerHand_insert in Hempty by done. unfold dealCards in Hempty.
    destruct p; cbn [player0 player1 player2 deal_player0 deal_player1
                     deal_player2] in Hempty;
      rewrite sortCards_length, slice_length in Hempty by lia; done.
  - intros p. rewrite getPlayerHand_insert by done. unfold dealCards.
    destruct p; apply sortCards_sorted.
  - unfold all_hands. rewrite !getPlayerHand_insert by done.
    cbn [phase landlordCards player0 player1 player2].
    rewrite decide_True by done. unfold dealCards.
    cbn [deal_player0 deal_player1 deal_player2 deal_landlordCards].
    rewrite <- !app_assoc, !sortCards_perm, slices_cover by done.
    rewrite shuffleDeck_perm, createDeck_ids.
    apply standard_deck_ids_NoDup.
Qed.

Lemma hands_inv_bid (now : Z) (σ σ' : Store) (s s' : GameState)
    (a : BidAction) :
  processBidAction now s a σ = (inr s', σ') → hands_inv σ s → hands_inv σ' s'.
Proof.
  intros Hcall [Hne Hsorted Hnd].
  apply processBidAction_ok_kinds in Hcall
    as [Hphase [(mid & -> & -> & Hmid & Hh & _ & _ & Hl)
               |(mid & b & _ & -> & -> & Hh & _ & _ & Hl)]].
  - assert (hands (next_bidder (currentBidder s) mid) = hands s) as Hh'
      by done.
    split.
    + intros _ p. rewrite (getPlayerHand_hands σ _ s p Hh'). apply Hne.
      by rewrite Hphase.
    + intros p. rewrite (getPlayerHand_hands σ _ s p Hh'). apply Hsorted.
    + rewrite (all_hands_same σ s _ Hh'). cbn. rewrite Hmid, Hl.
      by rewrite Hphase in Hnd.
  - rewrite Hphase, decide_True in Hnd by done.
    assert (hands (set_currentPlayer (Some b)
                     (set_phase PLAYING (set_landlordPosition (Some b) mid)))
            = hands s) as Hh' by done.
    split.
    + intros _ p. rewrite getPlayerHand_update by done.
      destruct (decide (p = b)) as [->|Hp].
      * intros Hempty. apply (f_equal length) in Hempty.
        rewrite sortCards_length, length_app in Hempty.
        specialize (Hne ltac:(by rewrite Hphase) b).
        destruct (getPlayerHand σ s b); [done|]. simpl in Hempty. lia.
      * apply Hne. by rewrite Hphase.
    + intros p. rewrite getPlayerHand_update by done.
      destruct (decide (p = b)); [apply sortCards_sorted|apply Hsorted].
    + rewrite all_hands_update by done. cbn [phase set_currentPlayer set_phase].
      rewrite decide_False, app_nil_r by done.
      eapply NoDup_Permutation_proper; [|exact Hnd].
      apply fmap_Permutation. unfold all_hands.
      destruct b;
        generalize (getPlayerHand σ s P0) (getPlayerHand σ s P1)
                   (getPlayerHand σ s P2) (landlordCards s);
        intros h0 h1 h2 pile; rewrite sortCards_perm, <- ?app_assoc.
      * apply Permutation_app_head.
        rewrite (app_assoc h1). apply Permutation_app_comm.
      * do 2 apply Permutation_app_head. apply Permutation_app_comm.
      * done.
Qed.

Lemma hands_inv_play (now : Z) (σ σ' : Store) (s s' : GameState)
    (a : PlayAction) :
  processPlayAction now s a σ = (inr s', σ') → hands_inv σ s → hands_inv σ' s'.
Proof.
  intros Hcall [Hne Hsorted Hnd].
  apply processPlayAction_ok_kinds in Hcall as [Hphase [Hplay|Hpass]].
  - destruct Hplay as (cs & p & newState & _ & _ & _ & Hcur & Hhas & _ & Hnew
                       & -> & ->).
    rewrite Hphase, decide_False, app_nil_r in Hnd by done.
    specialize (Hne ltac:(by rewrite Hphase)).
    pose proof (proj1 (removeCards_counts_aux (getPlayerHand σ s p) cs))
      as Hsub.
    assert (phase newState = PLAYING ∧ hands newState = hands s)
      as [Hp Hh] by (destruct Hnew as [[_ ->]|(_ & -> & _)]; done).
    set (newHand := removeCards (getPlayerHand σ s p) cs) in *.
    set (result := if decide (length newHand = 0%nat)
                   then finishGame now (play_logged now s newState p cs) p
                   else next_player (Some p)
                          (play_logged now s newState p cs)).
    assert (hands result = hands s) as Hh'
      by (unfold result; by destruct (decide (_ = 0%nat))).
    assert (phase result ≠ FINISHED → newHand ≠ []) as Hleft.
    { unfold result. destruct (decide (length newHand = 0%nat)) as [|Hlen].
      - intros Hphase'. by destruct Hphase'.
      - intros _ Hnil. by rewrite Hnil in Hlen. }
    assert (phase result ≠ BIDDING) as Hnb.
    { unfold result. destruct (decide (_ = 0%nat)); cbn; [done|].
      by rewrite Hp. }
    split.
    + intros Hrun q. rewrite getPlayerHand_update by done.
      destruct (decide (q = p)); [by apply Hleft|apply Hne].
    + intros q. rewrite getPlayerHand_update by done.
      destruct (decide (q = p)) as [->|]; [|apply Hsorted].
      by eapply Sorted_value_le_sublist.
    + rewrite all_hands_update by done.
      rewrite decide_False, app_nil_r by done.
      eapply sublist_NoDup; [exact Hnd|].
      apply fmap_sublist. unfold all_hands.
      destruct p; repeat (apply sublist_app; try done).
  - destruct Hpass as (_ & _ & -> & ->).
    set (result := if decide (consecutivePasses s + 1 = 2)
                   then set_roundNumber (roundNumber s + 1)
                          (set_currentPlayer (lastPlayer s)
                             (trick_cleared (pass_logged now s)))
                   else next_player (currentPlayer s) (pass_logged now s)).
    assert (hands result = hands s ∧ phase result = phase s
            ∧ landlordCards result = landlordCards s) as (Hh' & Hp' & Hl')
      by (unfold result; by destruct (decide (_ = 2))).
    split.
    + intros Hrun q. rewrite (getPlayerHand_hands σ _ s q Hh').
      apply Hne. by rewrite <- Hp'.
    + intros q. rewrite (getPlayerHand_hands σ _ s q Hh'). apply Hsorted.
    + by rewrite (all_hands_same σ s _ Hh'), Hp', Hl'.
Qed.

(** X14: the hands stay well formed: after [createGame] and after every
    accepted bid or play action, no hand is empty unless the game is
    finished, every hand is sorted ascending by value, and no identity
    occurs twice among the three hands and (during the bidding) the
    landlord pile. *)
Theorem hands_inv_preserved (now : Z) (σ σ' : Store) (s s' : GameState) :
  (∀ rnd id m0 m1 m2,
     createGame rnd id now m0 m1 m2 σ = (inr s', σ') → hands_inv σ' s')
  ∧ (∀ a, processBidAction now s a σ = (inr s', σ') →
          hands_inv σ s → hands_inv σ' s')
  ∧ (∀ a, processPlayAction now s a σ = (inr s', σ') →
          hands_inv σ s → hands_inv σ' s').
Proof.
  split; [|split].
  - intros rnd id m0 m1 m2. apply hands_inv_createGame.
  - intros a. apply hands_inv_bid.
  - intros a. apply hands_inv_play.
Qed.

(** *** The fallback decisions of the AI player *)

Lemma pass_bid_accepted (now : Z) (σ : Store) (s : GameState) :
  phase s = BIDDING →
  ∃ s' σ', processBidAction now s aiMakeBidDecision_catch σ = (inr s', σ').
Proof.
  intros Hphase.
  destruct (processBidAction now s aiMakeBidDecision_catch σ)
    as [[e|s'] σ'] eqn:Hcall; [|by eauto].
  apply processBidAction_error in Hcall as [Hviol _].
  inversion Hviol; simplify_eq; done.
Qed.

(** X15: the bid the AI player falls back to when its model call fails, a
    pass, is accepted in every state that is in the Bidding phase. *)
Theorem fallback_bid_accepted (now : Z) (σ : Store) (s : GameState) :
  phase s = BIDDING →
  ∃ s' σ', processBidAction now s aiMakeBidDecision_catch σ = (inr s', σ').
Proof. apply pass_bid_accepted. Qed.

Lemma fallback_bid_accepted_witness :
  ∃ s' σ', processBidAction 1 game_new.1 aiMakeBidDecision_catch game_new.2
           = (inr s', σ').
Proof. apply fallback_bid_accepted. by vm_compute. Defined.

Lemma catch_play_accepted (now : Z) (σ : Store) (s : GameState)
    (p : PlayerPosition) :
  turn_inv s → hands_inv σ s →
  phase s = PLAYING → currentPlayer s = Some p →
  ∃ s' σ', processPlayAction now s (aiMakePlayDecision_catch σ s p) σ
           = (inr s', σ').
Proof.
  intros Hturn Hhands Hphase Hcur.
  destruct (processPlayAction now s (aiMakePlayDecision_catch σ s p) σ)
    as [[e|s'] σ'] eqn:Hcall; [|by eauto].
  exfalso. apply processPlayAction_error in Hcall as [Hviol _].
  pose proof (hi_nonempty _ _ Hhands ltac:(by rewrite Hphase) p) as Hne.
  pose proof (ti_table _ Hturn) as Htable.
  unfold aiMakePlayDecision_catch in Hviol.
  destruct (getPlayerHand σ s p) as [|c hand] eqn:Hhand; [done|].
  destruct (decide (lastPlayedCards s = None ∧ _)) as [[Hnone _]|Hsome].
  - apply Htable in Hnone.
    change (option_list ((c :: hand) !! 0%nat)) with [c] in Hviol.
    inversion Hviol; cbn [play_type cards] in *; simplify_eq;
      try congruence;
      try match goal with H : _ ∨ _ |- _ => by destruct H end;
      try match goal with
          | H : pat_type _ = INVALID |- _ =>
              by rewrite recognizePattern_single in H
          end.
    match goal with H : hasCards _ _ = false |- _ => rename H into Hhas end.
    rewrite Hhand in Hhas.
    apply not_true_iff_false in Hhas. apply Hhas.
    apply hasCards_counts_aux. intros i. unfold id_count.
    rewrite !filter_cons.
    destruct (decide (cardId c = i)); simpl; lia.
  - inversion Hviol; cbn [play_type cards] in *; simplify_eq; try congruence.
    match goal with H : lastPlayedPattern s = None |- _ =>
      rename H into Hlast end.
    apply Htable in Hlast. apply Hsome. split; [done|]. cbn. lia.
Qed.

(** X16: the play the AI player falls back to when its model call fails
    is accepted in every state of the Playing phase that has the cursor
    and hand invariants: the player to move either leads its first card,
    when nothing is on the table, or passes. *)
Theorem fallback_play_accepted (now : Z) (σ : Store) (s : GameState)
    (p : PlayerPosition) :
  turn_inv s → hands_inv σ s →
  phase s = PLAYING → currentPlayer s = Some p →
  ∃ s' σ', processPlayAction now s (aiMakePlayDecision_catch σ s p) σ
           = (inr s', σ').
Proof. apply catch_play_accepted. Qed.

Lemma fallback_play_accepted_witness :
  ∃ s' σ', processPlayAction 2 game_playing.1
             (aiMakePlayDecision_catch game_playing.2 game_playing.1 P0)
             game_playing.2
           = (inr s', σ').
Proof.
  apply fallback_play_accepted; [| |by vm_compute..].
  - apply (turn_inv_bid 1 game_new.2 game_playing.2 game_new.1 _ (bid_of 3));
      [by vm_compute|].
    by apply (turn_inv_createGame rnd_id [] 0 1 2 3 ∅ game_new.2).
  - apply (hands_inv_bid 1 game_new.2 game_playing.2 game_new.1 _ (bid_of 3));
      [by vm_compute|].
    by apply (hands_inv_createGame rnd_id [] 0 1 2 3 ∅ game_new.2).
Defined.

(** *** The end of the game, as the manager books it *)

(** X17: when an accepted play ends the game, the manager's [won] flag is
    set for the seat that emptied its hand, and for any seat it is set
    exactly when that seat is on the winner's side: the landlord alone,
    or both farmers. *)
Theorem winners_side_won (now : Z) (σ σ' : Store) (s s' : GameState)
    (a : PlayAction) (p l : PlayerPosition) :
  processPlayAction now s a σ = (inr s', σ') →
  phase s' = FINISHED →
  currentPlayer s = Some p → landlordPosition s = Some l →
  seat_won s' p = true
  ∧ ∀ q, seat_won s' q = bool_decide (q = l ↔ p = l).
Proof.
  intros Hcall Hfin Hcur Hland.
  apply processPlayAction_ok_kinds in Hcall as [Hphase [Hplay|Hpass]].
  - destruct Hplay as (cs & p' & newState & _ & _ & _ & Hcur' & _ & _ & Hnew
                       & -> & _).
    rewrite Hcur in Hcur'. injection Hcur' as <-.
    assert (phase newState = PLAYING
            ∧ landlordPosition newState = landlordPosition s) as [Hp Hl]
      by (destruct Hnew as [[_ ->]|(_ & -> & _)]; done).
    destruct (decide (_ = 0%nat)); [|cbn in Hfin; congruence].
    assert (∀ q, seat_won
                   (finishGame now (play_logged now s newState p cs) p) q
                 = bool_decide (q = l ↔ p = l)) as Hall.
    { intros q. unfold seat_won, finishGame.
      cbn [landlordPosition winnerType set_finishedAt set_winnerType
           set_winner set_phase play_logged set_history
           set_consecutivePasses set_lastPlayer set_lastPlayedPattern
           set_lastPlayedCards].
      rewrite Hl, Hland.
      destruct (decide (Some p = Some l)) as [[= ->]|Hne].
      - destruct (decide (q = l)) as [->|Hq].
        + rewrite !bool_decide_eq_true_2 by done. done.
        + rewrite !bool_decide_eq_false_2 by (intros ?; simplify_eq; tauto).
          done.
      - destruct (decide (q = l)) as [->|Hq].
        + rewrite bool_decide_eq_true_2 by done.
          rewrite bool_decide_eq_false_2; [done|].
          intros [Hpl _]. apply Hne. by rewrite Hpl.
        + rewrite bool_decide_eq_false_2 by (intros ?; simplify_eq).
          rewrite bool_decide_eq_true_2; [done|].
          split; intros ->; [done|]. by destruct Hne. }
    split; [|done].
    rewrite Hall. by apply bool_decide_eq_true_2.
  - destruct Hpass as (_ & _ & _ & ->).
    destruct (decide (_ = 2)); cbn in Hfin; congruence.
Qed.

(** *** Every accepted action brings the end nearer *)

Lemma bids_left_whole (s : GameState) (h : Z) :
  highestBid s = Qc_of_Z h →
  bids_left s = Qc_of_Z (3 * (3 - h) + (2 - passCount s)).
Proof.
  intros Hh. unfold bids_left.
  by rewrite Hh, Z2Qc_inj_add, Z2Qc_inj_mul, !Z2Qc_inj_sub.
Qed.

(** X18: bidding in whole numbers cannot go on for ever.  In a state with
    the cursor invariant whose highest bid is a whole number, an accepted
    pass, or an accepted bid of a whole number, either ends the bidding or
    leaves a state in the Bidding phase whose highest bid is again whole
    and whose [bids_left], a whole number that is never negative, is
    strictly smaller.  (The engine also accepts fractional bids, for which
    this measure does not work: see below.) *)
Theorem bidding_terminates (now : Z) (σ σ' : Store) (s s' : GameState)
    (a : BidAction) :
  turn_inv s →
  whole (highestBid s) →
  (∀ q, bid_type a = Bid → amount a = Some q → whole q) →
  processBidAction now s a σ = (inr s', σ') →
  phase s' = PLAYING
  ∨ (phase s' = BIDDING ∧ whole (highestBid s')
     ∧ ∃ n n' : Z, bids_left s = Qc_of_Z n ∧ bids_left s' = Qc_of_Z n'
                   ∧ 0 ≤ n' < n).
Proof.
  intros Hturn [h Hh] Hwhole Hcall.
  apply processBidAction_ok_inv in Hcall as [Hphase Hcases].
  destruct (ti_bidding _ Hturn Hphase) as (_ & _ & _ & Hbids).
  destruct Hcases as [(amt & Htype & Hamt & Hrange & Hhigh & Hcase)
                     |(_ & Hcase)].
  - destruct Hcase as [[-> Hf]|(H3 & -> & _)].
    + apply finalizeLandlord_inv in Hf as (b & _ & -> & _); [by left|done].
    + right. split; [by cbn; rewrite Hphase|].
      destruct (Hwhole amt Htype Hamt) as [m ->].
      split; [by exists m|].
      exists (3 * (3 - h) + (2 - passCount s)), (3 * (3 - m) + (2 - 0)).
      split; [by apply bids_left_whole|].
      split; [by apply bids_left_whole|].
      rewrite Hh in Hhigh. apply Z2Qc_inj_lt in Hhigh.
      destruct Hrange as [H1 Hle]. apply Z2Qc_inj_le in H1, Hle.
      assert (m ≠ 3) by (by intros ->).
      destruct (highestBidder s); lia.
  - destruct Hcase as [(_ & _ & Hf)|[(Hb & _ & Hf)|(Hn3 & Hn2 & -> & _)]].
    + apply finalizeLandlord_inv in Hf as (b & _ & -> & _); [by left|done].
    + apply finalizeLandlord_inv in Hf as (b & _ & -> & _); [by left|done].
    + right. split; [by cbn; rewrite Hphase|].
      split; [by exists h|].
      exists (3 * (3 - h) + (2 - passCount s)),
             (3 * (3 - h) + (2 - (passCount s + 1))).
      split; [by apply bids_left_whole|].
      split; [by apply bids_left_whole|].
      destruct (highestBidder s) as [b|].
      * assert (passCount s + 1 ≠ 2) by (intros ?; by apply Hn2).
        rewrite Hh in Hbids. destruct Hbids as [[H1 H3] ?].
        apply Z2Qc_inj_le in H1. apply Z2Qc_inj_lt in H3. lia.
      * assert (passCount s + 1 ≠ 3) by (intros ?; by apply Hn3).
        rewrite Hh in Hbids. destruct Hbids as [H0 ?].
        apply Z2Qc_inj in H0. lia.
Qed.

(** The engine accepts a bid that is not a whole number, and such a bid
    can raise [bids_left]: from a highest bid of 2 and one pass, a bid of
    9/4 takes it from 4 to 17/4. *)
Lemma fractional_bid_accepted :
  processBidAction 3 game_bid_two_pass.1 (bid_q (9 # 4)) game_bid_two_pass.2
  = (inr game_bid_fraction.1, game_bid_fraction.2)
  ∧ phase game_bid_fraction.1 = BIDDING
  ∧ highestBid game_bid_fraction.1 = Q2Qc (9 # 4)
  ∧ bids_left game_bid_two_pass.1 = Qc_of_Z 4
  ∧ bids_left game_bid_fraction.1 = Q2Qc (17 # 4).
Proof.
  split; [by vm_compute|]. split; [by vm_compute|].
  split; [by vm_compute|].
  split; apply Qc_is_canon; by vm_compute.
Qed.

Lemma plays_left_decreases (now : Z) (σ σ' : Store) (s s' : GameState)
    (a : PlayAction) :
  turn_inv s →
  processPlayAction now s a σ = (inr s', σ') →
  0 ≤ plays_left σ' s' < plays_left σ s.
Proof.
  intros Hturn Hcall.
  apply processPlayAction_ok_kinds in Hcall as [Hphase [Hplay|Hpass]].
  - destruct Hplay as (cs & p & newState & _ & _ & Hne & Hcur & Hhas & _ & Hnew
                       & -> & ->).
    pose proof (proj2 (removeCards_partition_aux _ _ Hhas)) as Hlen.
    assert (0 < length cs)%nat by (destruct cs; [done|cbn; lia]).
    set (newHand := removeCards (getPlayerHand σ s p) cs) in *.
    set (result := if decide (length newHand = 0%nat)
                   then finishGame now (play_logged now s newState p cs) p
                   else next_player (Some p)
                          (play_logged now s newState p cs)).
    assert (hands result = hands s ∧ consecutivePasses result = 0
            ∧ lastPlayedPattern result = Some (recognizePattern cs))
      as (Hh & Hcp & Hpat).
    { assert (hands newState = hands s)
        by (destruct Hnew as [[_ ->]|(_ & -> & _)]; done).
      unfold result. by destruct (decide (_ = 0%nat)). }
    assert (0 ≤ match lastPlayedPattern s with
                | None => 0
                | Some _ => 2 - consecutivePasses s
                end) as Hslack.
    { pose proof (ti_trick _ Hturn Hphase) as Htrick.
      destruct (lastPlayedPattern s); [|done].
      destruct Htrick as (q & _ & [[-> _]|[-> _]]); lia. }
    unfold plays_left. rewrite Hpat, Hcp.
    rewrite all_hands_update by done. unfold all_hands.
    destruct p; rewrite !length_app; lia.
  - destruct Hpass as (_ & Hlast & -> & ->).
    pose proof (ti_trick _ Hturn Hphase) as Htrick.
    destruct (lastPlayedPattern s) as [pat|] eqn:Hpat; [|done].
    destruct Htrick as (q & _ & Hcount).
    unfold plays_left. rewrite Hpat.
    destruct (decide (_ = 2)) as [H2|H2].
    + rewrite (all_hands_same σ s) by done. cbn. lia.
    + rewrite (all_hands_same σ s) by done. cbn. rewrite Hpat.
      destruct Hcount as [[Hc _]|[Hc _]]; rewrite Hc in *; lia.
Qed.

(** X19: the play cannot go on for ever: in a state with the cursor
    invariant, every accepted play action leaves a state whose
    [plays_left], never negative, is strictly smaller: a play takes at
    least one card out of the hands, and a pass uses up one of the two
    passes that can follow the play on the table. *)
Theorem playing_terminates (now : Z) (σ σ' : Store) (s s' : GameState)
    (a : PlayAction) :
  turn_inv s →
  processPlayAction now s a σ = (inr s', σ') →
  0 ≤ plays_left σ' s' < plays_left σ s.
Proof. apply plays_left_decreases. Qed.

(** *** The properties above on the games of this file *)

Lemma win_detection_witness :
  phase game_over.1 = FINISHED
  ∧ winner game_over.1 = Some P0
  ∧ winnerType game_over.1 = Some Landlord
  ∧ finishedAt game_over.1 = Some 9.
Proof.
  destruct (win_detection 9 game_last_card.2 game_over.2 game_last_card.1
              game_over.1 (play_of [card SPADE THREE]))
    as (Hiff & Hfin & _); [by vm_compute|].
  assert (phase game_over.1 = FINISHED) as Hphase.
  { apply Hiff. exists [card SPADE THREE], P0. by vm_compute. }
  destruct (Hfin Hphase) as (Hw & Hwt & Hf & _).
  split; [done|]. split; [by rewrite Hw|]. split; [by rewrite Hwt|done].
Defined.

Lemma play_conserves_cards_witness :
  length (getPlayerHand game_led.2 game_led.1 P0) = 19%nat
  ∧ getPlayerHand game_led.2 game_led.1 P1
    = getPlayerHand game_playing.2 game_playing.1 P1.
Proof.
  destruct (play_conserves_cards 2 game_playing.2 game_led.2 game_playing.1
              game_led.1 (play_of [card SPADE THREE]))
    as (_ & Hhands); [by vm_compute|].
  change (play_type (play_of [card SPADE THREE])) with Play in Hhands.
  change (cards (play_of [card SPADE THREE]))
    with (Some [card SPADE THREE]) in Hhands.
  change (currentPlayer game_playing.1) with (Some P0) in Hhands.
  destruct Hhands as (Hperm & _ & Hothers).
  split; [|by apply Hothers].
  apply (f_equal length) in Hperm || apply Permutation_length in Hperm.
  rewrite length_app, !length_fmap in Hperm.
  change (length (getPlayerHand game_playing.2 game_playing.1 P0))
    with 20%nat in Hperm.
  cbn [length] in Hperm. lia.
Defined.


Lemma hands_inv_preserved_witness : hands_inv game_led.2 game_led.1.
Proof.
  pose proof (proj1 (hands_inv_preserved 0 ∅ game_new.2 empty_state
                       game_new.1) rnd_id [] 1 2 3 eq_refl) as Hnew.
  pose proof (proj1 (proj2 (hands_inv_preserved 1 game_new.2 game_playing.2
                              game_new.1 game_playing.1))
                (bid_of 3) ltac:(by vm_compute) Hnew) as Hplaying.
  exact (proj2 (proj2 (hands_inv_preserved 2 game_playing.2 game_led.2
                         game_playing.1 game_led.1))
           (play_of [card SPADE THREE]) ltac:(by vm_compute) Hplaying).
Defined.

Lemma winners_side_won_witness :
  seat_won game_over.1 P0 = true
  ∧ seat_won game_over.1 P1 = false
  ∧ seat_won game_over.1 P2 = false.
Proof.
  destruct (winners_side_won 9 game_last_card.2 game_over.2 game_last_card.1
              game_over.1 (play_of [card SPADE THREE]) P0 P0)
    as [Hwon Hall]; [by vm_compute..|].
  split; [done|]. by rewrite !Hall.
Defined.

Lemma bidding_terminates_witness :
  ∃ n n' : Z, bids_left game_new.1 = Qc_of_Z n
              ∧ bids_left game_bid_two_pass.1 = Qc_of_Z n' ∧ 0 ≤ n' < n.
Proof.
  set (two := after game_new (λ s, processBidAction 1 s (bid_of 2))).
  assert (turn_inv game_new.1) as Hnew
    by (by apply (turn_inv_createGame rnd_id [] 0 1 2 3 ∅ game_new.2)).
  assert (turn_inv two.1) as Htwo.
  { apply (turn_inv_bid 1 game_new.2 two.2 game_new.1 _ (bid_of 2));
      [by vm_compute|done]. }
  destruct (bidding_terminates 1 game_new.2 two.2 game_new.1 two.1 (bid_of 2)
              Hnew)
    as [Hp|(_ & Hwhole & n & n1 & Hn & Hn1 & Hlt1)];
    [by exists 0|by intros q _ [= <-]; exists 2|by vm_compute
    |by vm_compute in Hp|].
  destruct (bidding_terminates 2 two.2 game_bid_two_pass.2 two.1
              game_bid_two_pass.1 pass_bid Htwo Hwhole)
    as [Hp|(_ & _ & n1' & n2 & Hn1' & Hn2 & Hlt2)];
    [by intros q [=]|by vm_compute|by vm_compute in Hp|].
  exists n, n2. split; [done|]. split; [done|].
  rewrite Hn1 in Hn1'. apply Z2Qc_inj in Hn1'. lia.
Defined.

Lemma playing_terminates_witness :
  plays_left game_one_pass.2 game_one_pass.1
  < plays_left game_playing.2 game_playing.1.
Proof.
  assert (turn_inv game_playing.1) as Hplaying.
  { apply (turn_inv_bid 1 game_new.2 game_playing.2 game_new.1 _ (bid_of 3));
      [by vm_compute|].
    by apply (turn_inv_createGame rnd_id [] 0 1 2 3 ∅ game_new.2). }
  assert (turn_inv game_led.1) as Hled.
  { apply (turn_inv_play 2 game_playing.2 game_led.2 game_playing.1 _
             (play_of [card SPADE THREE])); [by vm_compute|done]. }
  pose proof (playing_terminates 2 game_playing.2 game_led.2 game_playing.1
                game_led.1 (play_of [card SPADE THREE]) Hplaying
                ltac:(by vm_compute)) as H1.
  pose proof (playing_terminates 3 game_led.2 game_one_pass.2 game_led.1
                game_one_pass.1 pass_play Hled ltac:(by vm_compute)) as H2.
  lia.
Defined.

(** *** What an accepted action leaves alone, and whose turn it is next *)

Lemma identity_kept (now : Z) (σ σ' : Store) (s s' : GameState) :
  (∃ a, processBidAction now s a σ = (inr s', σ'))
  ∨ (∃ a, processPlayAction now s a σ = (inr s', σ')) →
  gameId s' = gameId s ∧ startedAt s' = startedAt s
  ∧ landlordCards s' = landlordCards s
  ∧ ∀ p, getPlayerModelId s' p = getPlayerModelId s p.
Proof.
  intros [[a Hcall]|[a Hcall]].
  - apply processBidAction_ok_inv in Hcall as [Hphase Hcases].
    destruct Hcases as [(amt & _ & _ & _ & _ & Hcase)|(_ & Hcase)].
    + destruct Hcase as [[-> Hf]|(_ & -> & _)].
      * apply finalizeLandlord_inv in Hf as (b & _ & -> & _); [|done].
        repeat (split; [done|]). by intros [].
      * repeat (split; [done|]). by intros [].
    + destruct Hcase as [(_ & _ & Hf)|[(Hb & _ & Hf)|(_ & _ & -> & _)]].
      * apply finalizeLandlord_inv in Hf as (b & _ & -> & _); [|done].
        repeat (split; [done|]). by intros [].
      * apply finalizeLandlord_inv in Hf as (b & _ & -> & _); [|done].
        repeat (split; [done|]). by intros [].
      * repeat (split; [done|]). by intros [].
  - apply processPlayAction_ok_kinds in Hcall as [_ [Hplay|Hpass]].
    + destruct Hplay as (cs & p & newState & _ & _ & _ & _ & _ & _ & Hnew
                         & -> & _).
      assert (newState = trick_cleared s ∨ newState = s) as [-> | ->]
        by (destruct Hnew as [[_ ->]|(_ & -> & _)]; auto);
        destruct (decide (_ = 0%nat));
        (repeat (split; [done|])); by intros [].
    + destruct Hpass as (_ & _ & _ & ->).
      destruct (decide (_ = 2)); (repeat (split; [done|])); by intros [].
Qed.

(** X28: the engine never touches the identity of a game: an accepted
    bid or play action leaves the game id, the three model ids, the
    starting time and the landlord cards as they were, and so
    [getPlayerModelId] answers the same for every seat. *)
Theorem engine_keeps_identity (now : Z) (σ σ' : Store) (s s' : GameState) :
  (∃ a, processBidAction now s a σ = (inr s', σ'))
  ∨ (∃ a, processPlayAction now s a σ = (inr s', σ')) →
  gameId s' = gameId s ∧ startedAt s' = startedAt s
  ∧ landlordCards s' = landlordCards s
  ∧ ∀ p, getPlayerModelId s' p = getPlayerModelId s p.
Proof. apply identity_kept. Qed.

Lemma engine_keeps_identity_witness :
  gameId game_led.1 = gameId game_playing.1
  ∧ getPlayerModelId game_led.1 P2 = 3.
Proof.
  destruct (engine_keeps_identity 2 game_playing.2 game_led.2 game_playing.1
              game_led.1) as (Hid & _ & _ & Hmodel).
  { right. exists (play_of [card SPADE THREE]). by vm_compute. }
  split; [done|]. by rewrite Hmodel.
Defined.



(** *** The game loop when every model call fails *)

Lemma bid_cards_total (now : Z) (σ σ' : Store) (s s' : GameState)
    (a : BidAction) :
  processBidAction now s a σ = (inr s', σ') →
  cards_total σ' s' = cards_total σ s.
Proof.
  intros Hcall. unfold cards_total.
  apply processBidAction_ok_kinds in Hcall
    as [Hphase [(mid & -> & -> & Hmid & Hh & _ & _ & Hl)
               |(mid & b & _ & -> & -> & Hh & _ & _ & Hl)]].
  - rewrite (all_hands_same σ s) by done. cbn. by rewrite Hmid, Hl, Hphase.
  - rewrite all_hands_update by done. cbn [phase set_currentPlayer set_phase].
    rewrite Hphase, decide_False, decide_True by done.
    unfold all_hands.
    destruct b; rewrite !length_app, sortCards_length, !length_app; lia.
Qed.

Lemma createGame_cards_total (rnd : nat → nat) (id : JsString) (now : Z)
    (m0 m1 m2 : Z) (σ σ' : Store) (s : GameState) :
  createGame rnd id now m0 m1 m2 σ = (inr s, σ') →
  cards_total σ' s = 54 ∧ passCount s = 0 ∧ currentBidder s = P0
  ∧ getPlayerModelId s P0 = m0 ∧ getPlayerModelId s P1 = m1
  ∧ getPlayerModelId s P2 = m2.
Proof.
  unfold createGame. intros [= <- <-].
  assert (length (shuffleDeck rnd createDeck) = 54%nat) as Hlen
    by (by rewrite shuffleDeck_length).
  split; [|done].
  unfold cards_total, all_hands. rewrite !getPlayerHand_insert by done.
  cbn [phase landlordCards player0 player1 player2].
  rewrite decide_True by done. unfold dealCards.
  cbn [deal_player0 deal_player1 deal_player2 deal_landlordCards].
  rewrite !length_app, !sortCards_length, !slice_length by lia. done.
Qed.

Lemma fallback_inv_createGame (rnd : nat → nat) (id : JsString) (now : Z)
    (m0 m1 m2 : Z) (σ σ' : Store) (s : GameState) :
  createGame rnd id now m0 m1 m2 σ = (inr s, σ') → fallback_inv s.
Proof. unfold createGame. intros [= <- <-]. by split. Qed.

Lemma fallback_inv_bid (now : Z) (σ σ' : Store) (s s' : GameState) :
  processBidAction now s aiMakeBidDecision_catch σ = (inr s', σ') →
  turn_inv s → fallback_inv s → fallback_inv s'.
Proof.
  intros Hcall Hturn Hfall.
  apply processBidAction_ok_inv in Hcall as [Hphase Hcases].
  destruct (fi_bidding _ Hfall Hphase) as [Hnone Hlast].
  destruct (ti_bidding _ Hturn Hphase) as (Hpat & _).
  apply (ti_table _ Hturn) in Hpat.
  destruct Hcases as [(amt & Htype & _)|(_ & Hcase)]; [done|].
  destruct Hcase as [(_ & _ & Hf)|[(Hsome & _)|(_ & _ & -> & _)]]; [|done|].
  - apply finalizeLandlord_inv in Hf as (b & Hb & -> & _); [|done].
    cbn in Hb. injection Hb as <-.
    split; cbn; try done; intros _; (split; [done|by left]).
  - split; cbn; rewrite ?Hphase; try done.
Qed.

Lemma fallback_inv_play (now : Z) (σ σ' : Store) (s s' : GameState)
    (p : PlayerPosition) :
  processPlayAction now s (aiMakePlayDecision_catch σ s p) σ = (inr s', σ') →
  currentPlayer s = Some p →
  turn_inv s → fallback_inv s → fallback_inv s'.
Proof.
  intros Hcall Hcur Hturn Hfall.
  apply processPlayAction_ok_kinds in Hcall as [Hphase Hkinds].
  pose proof (fi_landlord _ Hfall ltac:(by rewrite Hphase)) as Hland.
  destruct (fi_lead _ Hfall Hphase) as [Hlead Hlast].
  unfold aiMakePlayDecision_catch in Hkinds.
  destruct (decide (lastPlayedCards s = None ∧ _)) as [[Hnone _]|Hsome].
  - destruct Hkinds as [Hplay|[? _]]; [|done].
    destruct Hplay as (cs & p' & newState & _ & _ & _ & Hcur' & _ & _ & Hnew
                       & -> & _).
    rewrite (Hlead Hnone) in Hcur'. injection Hcur' as <-.
    assert (phase newState = PLAYING
            ∧ landlordPosition newState = landlordPosition s) as [Hp Hl]
      by (destruct Hnew as [[_ ->]|(_ & -> & _)]; done).
    destruct (decide (_ = 0%nat)).
    + split; cbn; rewrite ?Hl, ?Hland; done.
    + split; cbn; rewrite ?Hp, ?Hl, ?Hland; try done;
        intros _; (split; [done|by right]).
  - destruct Hkinds as [(? & ? & ? & ? & _)|Hpass]; [done|].
    destruct Hpass as (_ & Hpat & _ & ->).
    pose proof (ti_trick _ Hturn Hphase) as Htrick.
    destruct (lastPlayedPattern s) as [pat|] eqn:Hpat'; [|done].
    destruct Htrick as (q & Hq & _).
    assert (lastPlayer s = Some P0) as HP0
      by (destruct Hlast as [Hl|Hl]; congruence).
    assert (lastPlayedCards s ≠ None) as Hcards.
    { intros Hc. apply (ti_table _ Hturn) in Hc. congruence. }
    destruct (decide (_ = 2));
      split; cbn; rewrite ?Hphase; try done;
      intros _; (split; [done|by right]).
Qed.

Lemma plays_left_bound (σ : Store) (s : GameState) :
  turn_inv s → phase s = PLAYING →
  1 ≤ plays_left σ s ≤ 3 * cards_total σ s + 2 ∨ all_hands σ s = [].
Proof.
  intros Hturn Hphase. unfold plays_left, cards_total.
  rewrite Hphase, decide_False by done.
  pose proof (ti_trick _ Hturn Hphase) as Htrick.
  destruct (all_hands σ s) as [|c l]; [by right|left].
  cbn [length].
  destruct (lastPlayedPattern s); [|lia].
  destruct Htrick as (q & _ & [[-> _]|[-> _]]); lia.
Qed.

(** A pass of the fallback bidder that does not end the bidding counts
    one more pass. *)
Lemma fallback_pass_counted (now : Z) (σ σ' : Store) (s s' : GameState) :
  processBidAction now s aiMakeBidDecision_catch σ = (inr s', σ') →
  phase s' = BIDDING → passCount s' = passCount s + 1.
Proof.
  intros Hcall Hp.
  apply processBidAction_ok_inv in Hcall as [Hphase Hcases].
  destruct Hcases as [(amt & Htype & _)|(_ & Hcase)]; [done|].
  destruct Hcase as [(_ & _ & Hf)|[(Hb & _ & Hf)|(_ & _ & -> & _)]];
    [| |done].
  - apply finalizeLandlord_inv in Hf as (b & _ & -> & _); done.
  - apply finalizeLandlord_inv in Hf as (b & _ & -> & _); done.
Qed.

Lemma bidding_loop_ends (db : nat → option Z → DbAnswer) (clock : nat → Z)
    (fuel : nat) :
  ∀ (s : GameState) (σ : Store),
    turn_inv s → hands_inv σ s → fallback_inv s →
    (∀ t p, db t (Some (getPlayerModelId s p)) = Row) →
    (0 < fuel)%nat → (phase s = BIDDING → 3 - passCount s < Z.of_nat fuel) →
    ∃ s' σ', bidding_loop db fuel clock s σ = (inr (Some s'), σ')
             ∧ turn_inv s' ∧ hands_inv σ' s' ∧ fallback_inv s'
             ∧ phase s' ≠ BIDDING
             ∧ (phase s = BIDDING → cards_total σ' s' = cards_total σ s)
             ∧ (∀ p, getPlayerModelId s' p = getPlayerModelId s p).
Proof.
  induction fuel as [|fuel IH];
    intros s σ Hturn Hhands Hfall Hdb Hpos Hfuel; [lia|].
  cbn [bidding_loop].
  destruct (decide (phase s = BIDDING)) as [Hphase|Hphase];
    [|by exists s, σ].
  specialize (Hfuel Hphase).
  destruct (pass_bid_accepted (clock fuel) σ s Hphase) as (s1 & σ1 & Hcall).
  unfold processBiddingPhase, find_model, engine_call.
  rewrite Hdb, Hcall.
  pose proof (turn_inv_bid _ _ _ _ _ _ Hcall Hturn) as Hturn1.
  pose proof (hands_inv_bid _ _ _ _ _ _ Hcall Hhands) as Hhands1.
  pose proof (fallback_inv_bid _ _ _ _ _ Hcall Hturn Hfall) as Hfall1.
  pose proof (bid_cards_total _ _ _ _ _ _ Hcall) as Htotal.
  destruct (identity_kept (clock fuel) σ σ1 s s1) as (_ & _ & _ & Hids);
    [left; by eexists|].
  assert (0 ≤ passCount s ≤ 2) as Hcount.
  { destruct (ti_bidding _ Hturn Hphase) as (_ & _ & _ & Hbids).
    destruct (fi_bidding _ Hfall Hphase) as [Hnone _].
    rewrite Hnone in Hbids. by destruct Hbids. }
  destruct (IH s1 σ1) as (s' & σ' & Hloop & ? & ? & ? & ? & Hcards & Hids');
    [done|done|done| |lia| |].
  { intros t p. rewrite Hids. apply Hdb. }
  { intros Hp1. rewrite (fallback_pass_counted _ _ _ _ _ Hcall Hp1). lia. }
  exists s', σ'. repeat (split; [done|]). split.
  - intros _. rewrite <- Htotal.
    destruct (decide (phase s1 = BIDDING)) as [Hp1|Hp1]; [by apply Hcards|].
    destruct fuel as [|fuel']; [lia|]. cbn [bidding_loop] in Hloop.
    rewrite decide_False in Hloop by done.
    by injection Hloop as <- <-.
  - intros p. by rewrite Hids', Hids.
Qed.

Lemma playing_loop_ends (db : nat → option Z → DbAnswer) (clock : nat → Z)
    (fuel : nat) :
  ∀ (s : GameState) (σ : Store),
    turn_inv s → hands_inv σ s → fallback_inv s → phase s ≠ BIDDING →
    (∀ t p, db t (Some (getPlayerModelId s p)) = Row) →
    (0 < fuel)%nat → (phase s = PLAYING → plays_left σ s < Z.of_nat fuel) →
    ∃ s' σ', playing_loop db fuel clock s σ = (inr (Some s'), σ')
             ∧ phase s' = FINISHED ∧ fallback_inv s'.
Proof.
  induction fuel as [|fuel IH];
    intros s σ Hturn Hhands Hfall Hnb Hdb Hpos Hfuel; [lia|].
  cbn [playing_loop].
  destruct (decide (phase s = PLAYING)) as [Hphase|Hphase].
  2: { exists s, σ. split; [done|]. split; [|done]. by destruct (phase s). }
  specialize (Hfuel Hphase).
  destruct (currentPlayer s) as [p|] eqn:Hcur;
    [|by destruct (ti_seat _ Hturn)].
  destruct (catch_play_accepted (clock fuel) σ s p Hturn Hhands Hphase Hcur)
    as (s1 & σ1 & Hcall).
  unfold processPlayingPhase, find_model, engine_call. rewrite Hcur.
  cbn [fmap option_fmap option_map]. rewrite Hdb, Hcall.
  pose proof (turn_inv_play _ _ _ _ _ _ Hcall Hturn) as Hturn1.
  pose proof (hands_inv_play _ _ _ _ _ _ Hcall Hhands) as Hhands1.
  pose proof (fallback_inv_play _ _ _ _ _ _ Hcall Hcur Hturn Hfall) as Hfall1.
  pose proof (plays_left_decreases _ _ _ _ _ _ Hturn Hcall) as Hdec.
  destruct (identity_kept (clock fuel) σ σ1 s s1) as (_ & _ & _ & Hids);
    [right; by eexists|].
  apply IH; try done; [| |lia..].
  - apply processPlayAction_ok_kinds in Hcall as [_ [Hplay|Hpass]].
    + destruct Hplay as (cs & p' & newState & _ & _ & _ & _ & _ & _ & Hnew
                         & -> & _).
      assert (phase newState = PLAYING) as Hp
        by (destruct Hnew as [[_ ->]|(_ & -> & _)]; done).
      destruct (decide (_ = 0%nat)); cbn; [done|by rewrite Hp].
    + destruct Hpass as (_ & _ & _ & ->).
      destruct (decide (_ = 2)); cbn; by rewrite Hphase.
  - intros t q. rewrite Hids. apply Hdb.
Qed.

(** X27: a game in which every model call fails still runs to its end,
    as long as the database knows the three models.  For every shuffle
    and with enough fuel (165 rounds of each loop are enough),
    [createGame] returns a state from which [runGameLoop], when every call
    of [getAiModelById] for one of the three model ids resolves to a row,
    raises no error and stops in the Finished phase; nobody having bid,
    seat 0 was made the landlord, and, being the only seat that ever
    leads, it wins.  When the first lookup, for the model of seat 0,
    finds no row, the loop fails at once with [ModelNotFound] and the
    store as [createGame] left it. *)
Theorem fallback_game_finishes (rnd : nat → nat) (id : JsString) (now : Z)
    (db1 db2 : nat → option Z → DbAnswer) (clock1 clock2 : nat → Z)
    (m0 m1 m2 : Z) (σ : Store) (fuel : nat) :
  (165 ≤ fuel)%nat →
  ∃ s σ1,
    createGame rnd id now m0 m1 m2 σ = (inr s, σ1)
    ∧ ((∀ t m, m ∈ [m0; m1; m2] →
               db1 t (Some m) = Row ∧ db2 t (Some m) = Row) →
       ∃ s' σ',
         runGameLoop db1 db2 fuel clock1 clock2 s σ1 = (inr (Some s'), σ')
         ∧ phase s' = FINISHED
         ∧ landlordPosition s' = Some P0
         ∧ winner s' = Some P0
         ∧ winnerType s' = Some Landlord)
    ∧ (db1 (fuel - 1)%nat (Some m0) = NoRow →
       runGameLoop db1 db2 fuel clock1 clock2 s σ1
       = (inl (ModelNotFound (Some m0)), σ1)).
Proof.
  intros Hfuel.
  destruct (createGame rnd id now m0 m1 m2 σ) as [[e|s] σ1] eqn:Hcreate;
    [by unfold createGame in Hcreate|].
  exists s, σ1. split; [done|].
  pose proof (turn_inv_createGame _ _ _ _ _ _ _ _ _ Hcreate) as Hturn.
  pose proof (hands_inv_createGame _ _ _ _ _ _ _ _ _ Hcreate) as Hhands.
  pose proof (fallback_inv_createGame _ _ _ _ _ _ _ _ _ Hcreate) as Hfall.
  destruct (createGame_cards_total _ _ _ _ _ _ _ _ _ Hcreate)
    as (Htotal & Hpass & Hbidder & Hm0 & Hm1 & Hm2).
  assert (phase s = BIDDING) as Hphase
    by (unfold createGame in Hcreate; by injection Hcreate as <- _).
  split.
  - intros Hdb.
    assert (∀ t p, db1 t (Some (getPlayerModelId s p)) = Row
                   ∧ db2 t (Some (getPlayerModelId s p)) = Row) as Hrows.
    { intros t p. apply Hdb.
      destruct p; rewrite ?Hm0, ?Hm1, ?Hm2, !elem_of_cons; auto. }
    destruct (bidding_loop_ends db1 clock1 fuel s σ1)
      as (s1 & σ2 & Hloop1 & Hturn1 & Hhands1 & Hfall1 & Hnb & Hcards & Hids);
      [done|done|done|intros t p; apply Hrows|lia|lia|].
    specialize (Hcards Hphase).
    destruct (playing_loop_ends db2 clock2 fuel s1 σ2)
      as (s' & σ' & Hloop2 & Hfin & Hfall');
      [done|done|done|done| |lia| |].
    { intros t p. rewrite Hids. apply Hrows. }
    { intros Hp1.
      destruct (plays_left_bound σ2 s1 Hturn1 Hp1) as [Hb|Hempty]; [lia|].
      pose proof (hi_nonempty _ _ Hhands1 ltac:(by rewrite Hp1) P0) as Hne.
      unfold all_hands in Hempty. by apply app_eq_nil in Hempty as [? _]. }
    exists s', σ'.
    split; [unfold runGameLoop; by rewrite Hloop1|].
    split; [done|].
    split; [apply (fi_landlord _ Hfall'); by rewrite Hfin|].
    by apply (fi_winner _ Hfall').
  - intros Hmissing. unfold runGameLoop.
    destruct fuel as [|fuel']; [lia|].
    cbn [bidding_loop]. rewrite decide_True by done.
    unfold processBiddingPhase, find_model.
    rewrite Hbidder, Hm0.
    replace (S fuel' - 1)%nat with fuel' in Hmissing by lia.
    by rewrite Hmissing.
Qed.

Lemma fallback_game_finishes_witness :
  ∃ s σ1,
    createGame rnd_id [] 0 1 2 3 ∅ = (inr s, σ1)
    ∧ (∃ s' σ',
         runGameLoop (λ _ _, Row) (λ _ _, Row) 165 (λ n, Z.of_nat n)
           (λ n, Z.of_nat n) s σ1 = (inr (Some s'), σ')
         ∧ phase s' = FINISHED ∧ winner s' = Some P0)
    ∧ runGameLoop (λ _ _, NoRow) (λ _ _, Row) 165 (λ n, Z.of_nat n)
        (λ n, Z.of_nat n) s σ1
      = (inl (ModelNotFound (Some 1)), σ1).
Proof.
  destruct (fallback_game_finishes rnd_id [] 0 (λ _ _, Row) (λ _ _, Row)
              (λ n, Z.of_nat n) (λ n, Z.of_nat n) 1 2 3 ∅ 165)
    as (s & σ1 & Hcreate & Hruns & _); [lia|].
  destruct (fallback_game_finishes rnd_id [] 0 (λ _ _, NoRow) (λ _ _, Row)
              (λ n, Z.of_nat n) (λ n, Z.of_nat n) 1 2 3 ∅ 165)
    as (s2 & σ2 & Hcreate2 & _ & Hfails); [lia|].
  rewrite Hcreate in Hcreate2. injection Hcreate2 as <- <-.
  exists s, σ1. split; [done|]. split; [|by apply Hfails].
  destruct Hruns as (s' & σ' & Hloop & Hfin & _ & Hwin & _); [done|].
  by exists s', σ'.
Defined.

Transparent recognizePattern hasCards removeCards sortCards canBeat
  cardsToStrings getPlayerHand.
